(** * BroLang-Stack: the BroLang code generator, the bytecode emitter and RohitVM

    A shallow embedding of [RohitVM.hpp], [RohitVM.cpp], [RohitUtils.cpp],
    [codegen.cpp], [emitter.cpp], [lexer.cpp] and the token loop of
    [broc.cpp], followed by the properties of the toolchain that are
    established on it.

    Conventions.  A [uint16_t] is a [Z] in [0, 65536) whose wrap-around is
    written out with [u16]; a [uint8_t] is a [Z] in [0, 256).  [std::cout] and
    [std::cerr] are strings that grow by appending.  [std::exit] is the
    [Exited] outcome, which carries the machine as it was when the process
    ended. *)

From Stdlib Require Import ZArith String Ascii List Lia DecimalString DecimalZ DecimalPos.
From stdpp Require Import gmap strings list fin_maps.

Local Open Scope Z_scope.

#[local] Set Warnings "-clear-no-such-hyp".

(** * Fixed-width integers *)

Definition u16 (z : Z) : Z := z mod 65536.
Definition u8 (z : Z) : Z := z mod 256.

(** The value of an [int] after an overflowing computation on a
    two's-complement target. *)
Definition int32 (z : Z) : Z := (z + 2147483648) mod 4294967296 - 2147483648.

Definition is_u16 (z : Z) : Prop := 0 <= z < 65536.

(** The newline character, as a string. *)
Definition nl : string := String "010" "".

(** [operator<<] on an unsigned integer: its decimal digits. *)
Definition show_dec (z : Z) : string := NilZero.string_of_int (Z.to_int z).

(** * RohitVM.hpp *)

(** [enum class Opcode : uint8_t].  The machine casts any byte it fetches to
    an [Opcode], so an opcode is its byte value and the enumerators are names
    for some of them. *)
Definition Opcode : Type := Z.

Abbreviation NOP := 0x01 (only parsing).
Abbreviation HLT := 0x02 (only parsing).
Abbreviation MOV := 0x08 (only parsing).
Abbreviation MOV_BX := 0x09 (only parsing).
Abbreviation MOV_CX := 0x0A (only parsing).
Abbreviation MOV_DX := 0x0B (only parsing).
Abbreviation MOV_SP := 0x0C (only parsing).
Abbreviation STE := 0x10 (only parsing).
Abbreviation CLE := 0x11 (only parsing).
Abbreviation STG := 0x12 (only parsing).
Abbreviation CLG := 0x13 (only parsing).
Abbreviation STH := 0x14 (only parsing).
Abbreviation CLH := 0x15 (only parsing).
Abbreviation STL := 0x16 (only parsing).
Abbreviation CLL := 0x17 (only parsing).
Abbreviation PUSH := 0x1A (only parsing).
Abbreviation POP := 0x1B (only parsing).
Abbreviation ADD := 0x20 (only parsing).
Abbreviation SUB := 0x21 (only parsing).
Abbreviation MUL := 0x22 (only parsing).
Abbreviation DIV := 0x23 (only parsing).
Abbreviation PRN := 0x30 (only parsing).
Abbreviation JMP := 0x31 (only parsing).
Abbreviation JZ := 0x32 (only parsing).
Abbreviation JNZ := 0x33 (only parsing).

(** The enumerators, in declaration order. *)
Definition opcode_table : list Opcode :=
  [NOP; HLT; MOV; MOV_BX; MOV_CX; MOV_DX; MOV_SP;
   STE; CLE; STG; CLG; STH; CLH; STL; CLL; PUSH; POP;
   ADD; SUB; MUL; DIV; PRN; JMP; JZ; JNZ].

(** [struct Instruction { Opcode op; uint16_t a1 = 0; uint16_t a2 = 0; }] *)
Record Instruction : Type := mkInstruction { op : Opcode; a1 : Z; a2 : Z }.

(** Brace initialisation with trailing members defaulted: [{op}], [{op, a}]. *)
Definition I0 (o : Opcode) : Instruction := mkInstruction o 0 0.
Definition I1 (o : Opcode) (a : Z) : Instruction := mkInstruction o a 0.

Definition with_a1 (v : Z) (i : Instruction) : Instruction :=
  mkInstruction (op i) v (a2 i).

(** [class Registers] *)
Record Registers : Type := mkRegisters {
  ax : Z; bx : Z; cx : Z; dx : Z; sp : Z; ip : Z; flags : Z
}.

(** [enum Registers::Flag] *)
Module Flag.
Definition Equal : Z := 0x08.
Definition Greater : Z := 0x04.
Definition Higher : Z := 0x02.
Definition Lower : Z := 0x01.
End Flag.

Definition set_ax (v : Z) (r : Registers) : Registers :=
  mkRegisters v (bx r) (cx r) (dx r) (sp r) (ip r) (flags r).
Definition set_bx (v : Z) (r : Registers) : Registers :=
  mkRegisters (ax r) v (cx r) (dx r) (sp r) (ip r) (flags r).
Definition set_cx (v : Z) (r : Registers) : Registers :=
  mkRegisters (ax r) (bx r) v (dx r) (sp r) (ip r) (flags r).
Definition set_dx (v : Z) (r : Registers) : Registers :=
  mkRegisters (ax r) (bx r) (cx r) v (sp r) (ip r) (flags r).
Definition set_sp (v : Z) (r : Registers) : Registers :=
  mkRegisters (ax r) (bx r) (cx r) (dx r) v (ip r) (flags r).
Definition set_ip (v : Z) (r : Registers) : Registers :=
  mkRegisters (ax r) (bx r) (cx r) (dx r) (sp r) v (flags r).
Definition set_flags (v : Z) (r : Registers) : Registers :=
  mkRegisters (ax r) (bx r) (cx r) (dx r) (sp r) (ip r) v.

(** [CPU::setFlag]: [r.flags |= mask] or [r.flags &= ~mask], the result
    stored back into sixteen bits. *)
Definition setFlag (mask : Z) (v : bool) (r : Registers) : Registers :=
  if v then set_flags (u16 (Z.lor (flags r) mask)) r
  else set_flags (u16 (Z.land (flags r) (Z.lnot mask))) r.

Definition setEqual (v : bool) : Registers -> Registers := setFlag Flag.Equal v.
Definition setGreater (v : bool) : Registers -> Registers := setFlag Flag.Greater v.
Definition setHigher (v : bool) : Registers -> Registers := setFlag Flag.Higher v.
Definition setLower (v : bool) : Registers -> Registers := setFlag Flag.Lower v.

(** [Memory::SIZE] and the zero-filled [std::vector<uint8_t>] behind it. *)
Definition SIZE : Z := 65536.

Abbreviation Memory := (list Z).

Definition new_memory : Memory := replicate (Z.to_nat SIZE) 0.

(** [memory[addr]]: the address is a [uint16_t] and the vector holds [SIZE]
    bytes, so [data.at] finds its element. *)
Definition mem_get (m : Memory) (addr : Z) : Z := default 0 (m !! Z.to_nat addr).
Definition mem_set (m : Memory) (addr : Z) (v : Z) : Memory :=
  <[Z.to_nat addr := v]> m.

(** [class VM], with the two output streams of the process. *)
Record VM : Type := mkVM {
  cpu : Registers;
  memory : Memory;
  breakLine : Z;
  cout : string;
  cerr : string
}.

Definition new_registers : Registers := mkRegisters 0 0 0 0 0xFFFF 0x0000 0x0000.

Definition new_VM : VM := mkVM new_registers new_memory 0 "" "".

Definition with_cpu (r : Registers) (vm : VM) : VM :=
  mkVM r (memory vm) (breakLine vm) (cout vm) (cerr vm).
Definition with_memory (m : Memory) (vm : VM) : VM :=
  mkVM (cpu vm) m (breakLine vm) (cout vm) (cerr vm).
Definition with_breakLine (b : Z) (vm : VM) : VM :=
  mkVM (cpu vm) (memory vm) b (cout vm) (cerr vm).
Definition print (s : string) (vm : VM) : VM :=
  mkVM (cpu vm) (memory vm) (breakLine vm) (cout vm +:+ s) (cerr vm).
Definition eprint (s : string) (vm : VM) : VM :=
  mkVM (cpu vm) (memory vm) (breakLine vm) (cout vm) (cerr vm +:+ s).

Definition map_cpu (f : Registers -> Registers) (vm : VM) : VM :=
  with_cpu (f (cpu vm)) vm.

(** * RohitUtils.cpp *)

Definition hex_digit (d : Z) : ascii :=
  match d with
  | 0 => "0" | 1 => "1" | 2 => "2" | 3 => "3" | 4 => "4"
  | 5 => "5" | 6 => "6" | 7 => "7" | 8 => "8" | 9 => "9"
  | 10 => "a" | 11 => "b" | 12 => "c" | 13 => "d" | 14 => "e"
  | _ => "f"
  end%char.

(** [printf("%.02x", b)] for a byte. *)
Definition hex2 (b : Z) : string :=
  String (hex_digit (b / 16)) (String (hex_digit (b mod 16)) "").

(** [printhex(str, size, delim)]: [bytes] is the block [str[0..size)]. *)
Definition printhex (bytes : list Z) (delim : ascii) : string :=
  fold_right
    (fun b rest =>
       hex2 b +:+ (if Ascii.eqb delim zero then "" else String delim "") +:+ rest)
    nl bytes.

(** * RohitVM.cpp *)

(** What a call leaves behind: the machine goes on, or the process has ended
    through [std::exit(EXIT_FAILURE)]. *)
Inductive Outcome : Type :=
  | Continue (vm : VM)
  | Exited (vm : VM).

Definition and_then (o : Outcome) (k : VM -> Outcome) : Outcome :=
  match o with
  | Continue vm => k vm
  | Exited vm => Exited vm
  end.

Notation "o ;;; k" := (and_then o k) (at level 61, left associativity).

(** [VM::handleError] *)
Definition handleError (msg : string) (fatal : bool) (vm : VM) : Outcome :=
  let vm' := eprint ("VM Error: " +:+ msg +:+ nl) vm in
  if fatal then Exited vm' else Continue vm'.

(** [VM::getInstructionSize]: [m[op]] on the static map, which answers 0 for
    a key it does not hold. *)
Definition getInstructionSize (o : Opcode) : Z :=
  match o with
  | NOP | HLT => 1
  | MOV | MOV_BX | MOV_CX | MOV_DX | MOV_SP => 3
  | STE | CLE | STG | CLG | STH | CLH | STL | CLL => 1
  | PUSH | POP => 3
  | ADD | SUB | MUL | DIV => 1
  | PRN => 1
  | JMP | JZ | JNZ => 3
  | _ => 0
  end.

(** One iteration of the loop of [VM::loadProgram]; [breakLine] is a
    [uint16_t] and wraps. *)
Definition load_byte (b : Z) (vm : VM) : VM :=
  with_breakLine (u16 (breakLine vm + 1))
    (with_memory (mem_set (memory vm) (breakLine vm) b) vm).

Definition load_instruction (vm : VM) (instr : Instruction) : VM :=
  let vm := load_byte (u8 (op instr)) vm in
  let size := getInstructionSize (op instr) in
  let vm :=
    if 2 <=? size then
      load_byte (Z.land (Z.shiftr (a1 instr) 8) 0xFF)
        (load_byte (Z.land (a1 instr) 0xFF) vm)
    else vm in
  if size =? 5 then
    load_byte (Z.land (Z.shiftr (a2 instr) 8) 0xFF)
      (load_byte (Z.land (a2 instr) 0xFF) vm)
  else vm.

(** [VM::loadProgram] *)
Definition loadProgram (program : list Instruction) (vm : VM) : VM :=
  fold_left load_instruction program (with_breakLine 0 vm).

(** [VM::fetchNextInstruction] *)
Definition fetchNextInstruction (vm : VM) : Instruction * VM :=
  let ip0 := ip (cpu vm) in
  let o := mem_get (memory vm) ip0 in
  let size := getInstructionSize o in
  let w1 :=
    if 2 <=? size then
      Z.lor (mem_get (memory vm) (u16 (ip0 + 1)))
            (Z.shiftl (mem_get (memory vm) (u16 (ip0 + 2))) 8)
    else 0 in
  let w2 :=
    if size =? 5 then
      Z.lor (mem_get (memory vm) (u16 (ip0 + 3)))
            (Z.shiftl (mem_get (memory vm) (u16 (ip0 + 4))) 8)
    else 0 in
  (mkInstruction o w1 w2, map_cpu (set_ip (u16 (ip0 + size))) vm).

(** [VM::push] *)
Definition push (val : Z) (vm : VM) : Outcome :=
  (if sp (cpu vm) <? 2 then handleError "Stack Overflow" true vm else Continue vm) ;;;
  fun vm =>
    let vm := map_cpu (set_sp (u16 (sp (cpu vm) - 2))) vm in
    let vm := with_memory (mem_set (memory vm) (sp (cpu vm)) (Z.land val 0xFF)) vm in
    let vm := with_memory (mem_set (memory vm) (u16 (sp (cpu vm) + 1))
                             (Z.land (Z.shiftr val 8) 0xFF)) vm in
    Continue vm.

(** [VM::pop]; the popped value is handed to [k], which stores it. *)
Definition pop (k : Z -> Registers -> Registers) (vm : VM) : Outcome :=
  (if SIZE - 2 <? sp (cpu vm) then handleError "Stack Underflow" true vm else Continue vm) ;;;
  fun vm =>
    let val := Z.lor (mem_get (memory vm) (sp (cpu vm)))
                     (Z.shiftl (mem_get (memory vm) (u16 (sp (cpu vm) + 1))) 8) in
    let vm := map_cpu (set_sp (u16 (sp (cpu vm) + 2))) vm in
    Continue (map_cpu (k val) vm).

(** The block [memory.raw() + off] of [size] bytes. *)
Definition raw_block (m : Memory) (off size : Z) : list Z :=
  take (Z.to_nat size) (drop (Z.to_nat off) m).

(** The state dump of the [HLT] case. *)
Definition halt_report (vm : VM) : string :=
  "System Halted" +:+ nl +:+
  "AX: " +:+ show_dec (ax (cpu vm)) +:+ ", BX: " +:+ show_dec (bx (cpu vm)) +:+
  ", CX: " +:+ show_dec (cx (cpu vm)) +:+ ", DX: " +:+ show_dec (dx (cpu vm)) +:+
  ", SP: " +:+ show_dec (sp (cpu vm)) +:+ nl +:+
  printhex (raw_block (memory vm) (0xFFFF - 32) 32) " ".

(** [VM::executeInstruction].  The arithmetic cases promote both operands to
    [int], compute there, and store the low sixteen bits. *)
Definition executeInstruction (instr : Instruction) (vm : VM) : Outcome :=
  let r := cpu vm in
  match op instr with
  | NOP => Continue vm
  | HLT => Continue (print (halt_report vm) vm)
  | MOV => Continue (map_cpu (set_ax (a1 instr)) vm)
  | MOV_BX => Continue (map_cpu (set_bx (a1 instr)) vm)
  | MOV_CX => Continue (map_cpu (set_cx (a1 instr)) vm)
  | MOV_DX => Continue (map_cpu (set_dx (a1 instr)) vm)
  | MOV_SP => Continue (map_cpu (set_sp (a1 instr)) vm)
  | ADD => Continue (map_cpu (set_ax (u16 (int32 (ax r + bx r)))) vm)
  | SUB => Continue (map_cpu (set_ax (u16 (int32 (ax r - bx r)))) vm)
  | MUL => Continue (map_cpu (set_ax (u16 (int32 (ax r * bx r)))) vm)
  | DIV =>
      (if bx r =? 0 then handleError "Division by zero" true vm else Continue vm) ;;;
      fun vm => Continue (map_cpu (set_ax (u16 (Z.quot (ax (cpu vm)) (bx (cpu vm))))) vm)
  | STE => Continue (map_cpu (setEqual true) vm)
  | CLE => Continue (map_cpu (setEqual false) vm)
  | STG => Continue (map_cpu (setGreater true) vm)
  | CLG => Continue (map_cpu (setGreater false) vm)
  | STH => Continue (map_cpu (setHigher true) vm)
  | CLH => Continue (map_cpu (setHigher false) vm)
  | STL => Continue (map_cpu (setLower true) vm)
  | CLL => Continue (map_cpu (setLower false) vm)
  | PUSH =>
      if a1 instr =? 0 then push (ax r) vm
      else if a1 instr =? 1 then push (bx r) vm
      else if a1 instr =? 2 then push (cx r) vm
      else if a1 instr =? 3 then push (dx r) vm
      else handleError "Invalid PUSH register" true vm
  | POP =>
      if a1 instr =? 0 then pop set_ax vm
      else if a1 instr =? 1 then pop set_bx vm
      else if a1 instr =? 2 then pop set_cx vm
      else if a1 instr =? 3 then pop set_dx vm
      else handleError "Invalid POP register" true vm
  | PRN =>
      Continue (print ("Output: " +:+ show_dec (ax r) +:+ nl +:+
                       "HUMAN OUTPUT: " +:+ show_dec (ax r) +:+ nl) vm)
  | JMP => Continue (map_cpu (set_ip (a1 instr)) vm)
  | JZ => if ax r =? 0 then Continue (map_cpu (set_ip (a1 instr)) vm) else Continue vm
  | JNZ => if ax r =? 0 then Continue vm else Continue (map_cpu (set_ip (a1 instr)) vm)
  | _ => handleError "Illegal Instruction" true vm
  end.

(** How a run of [VM::execute] ends: the loop was left through [HLT], the
    process exited on a fatal error, or the loop is still going after the
    iterations that were allowed. *)
Inductive Run : Type :=
  | Halted (vm : VM)
  | Failed (vm : VM)
  | Running (vm : VM).

(** The [while (true)] loop of [VM::execute], for at most [n] iterations.
    Nothing in the loop throws: every address is a [uint16_t] and the memory
    holds [SIZE] bytes. *)
Fixpoint execute_loop (n : nat) (vm : VM) : Run :=
  match n with
  | O => Running vm
  | S n' =>
      let '(instr, vm1) := fetchNextInstruction vm in
      match executeInstruction instr vm1 with
      | Exited vm2 => Failed vm2
      | Continue vm2 =>
          if op instr =? HLT
          then Halted (print ("Program Halted." +:+ nl) vm2)
          else execute_loop n' vm2
      end
  end.

(** [VM::execute] *)
Definition execute (n : nat) (vm : VM) : Run :=
  execute_loop n (print ("Starting VM Execution..." +:+ nl) vm).

(** Reading a loaded image back with the machine's own decoder: fetch from
    where [ip] stands until it reaches [breakLine], the first address after
    the image; at most [n] instructions. *)
Fixpoint decode (n : nat) (vm : VM) : list Instruction :=
  match n with
  | O => []
  | S n' =>
      if breakLine vm <=? ip (cpu vm) then []
      else let '(instr, vm') := fetchNextInstruction vm in instr :: decode n' vm'
  end.

(** The bytes an instruction list takes in memory. *)
Fixpoint image_size (program : list Instruction) : Z :=
  match program with
  | [] => 0
  | instr :: rest => getInstructionSize (op instr) + image_size rest
  end.

(** * ast.h *)

(** Modelled from the spec: [ast.h] is not among the sources.  The node types
    are the spec's [Program], [Statement] and [Expression], under the class
    and member names that [parser.cpp] and [codegen.cpp] use for them.
    [NullExpr] is the null [ExprPtr] that [Parser::parsePrimary] returns on an
    unexpected token; no [dynamic_pointer_cast] succeeds on it. *)
Module BinaryOp.
Inductive t : Type := Add | Sub | Mul | Div | Equal | Greater | Less.
End BinaryOp.

Inductive Expression : Type :=
  | NumberExpr (value : Z)
  | VariableExpr (name : string)
  | BinaryExpr (bop : BinaryOp.t) (left right : Expression)
  | NullExpr.

#[warnings="-register-all"]
Inductive Statement : Type :=
  | LetStatement (name : string) (value : Expression)
  | PrintStatement (expr : Expression)
  | IfStatement (condition : Expression) (thenBranch elseBranch : list Statement)
  | WhileStatement (condition : Expression) (body : list Statement).

Record Program : Type := mkProgram { statements : list Statement }.

(** * codegen.h, codegen.cpp *)

Module Codegen.

(** The members of [class Codegen], and [messages], what it has written to
    [std::cerr]; [complain] writes there. *)
Record t : Type := mk {
  instructions : list Instruction;
  symbolTable : gmap string Z;
  labelTargets : gmap Z nat;
  labelPlaceholders : list (nat * Z);
  nextRegister : Z;
  labelCounter : Z;
  messages : string
}.

Definition with_instructions (l : list Instruction) (cg : t) : t :=
  mk l (symbolTable cg) (labelTargets cg) (labelPlaceholders cg)
     (nextRegister cg) (labelCounter cg) (messages cg).
Definition with_symbolTable (m : gmap string Z) (cg : t) : t :=
  mk (instructions cg) m (labelTargets cg) (labelPlaceholders cg)
     (nextRegister cg) (labelCounter cg) (messages cg).
Definition with_labelTargets (m : gmap Z nat) (cg : t) : t :=
  mk (instructions cg) (symbolTable cg) m (labelPlaceholders cg)
     (nextRegister cg) (labelCounter cg) (messages cg).
Definition with_labelPlaceholders (l : list (nat * Z)) (cg : t) : t :=
  mk (instructions cg) (symbolTable cg) (labelTargets cg) l
     (nextRegister cg) (labelCounter cg) (messages cg).
Definition with_nextRegister (n : Z) (cg : t) : t :=
  mk (instructions cg) (symbolTable cg) (labelTargets cg) (labelPlaceholders cg)
     n (labelCounter cg) (messages cg).
Definition with_labelCounter (n : Z) (cg : t) : t :=
  mk (instructions cg) (symbolTable cg) (labelTargets cg) (labelPlaceholders cg)
     (nextRegister cg) n (messages cg).
Definition complain (s : string) (cg : t) : t :=
  mk (instructions cg) (symbolTable cg) (labelTargets cg) (labelPlaceholders cg)
     (nextRegister cg) (labelCounter cg) (messages cg +:+ s).

(** [operator<<] on an [int]. *)
Definition show_int (z : Z) : string := NilZero.string_of_int (Z.to_int z).

(** [Codegen::emit] *)
Definition emit (instr : Instruction) (cg : t) : t :=
  with_instructions (instructions cg ++ [instr]) cg.

(** [Codegen::newLabel]: [return labelCounter++] on an [int]. *)
Definition newLabel (cg : t) : Z * t :=
  (labelCounter cg, with_labelCounter (int32 (labelCounter cg + 1)) cg).

(** [Codegen::markLabel] *)
Definition markLabel (labelId : Z) (cg : t) : t :=
  with_labelTargets (<[labelId := length (instructions cg)]> (labelTargets cg)) cg.

(** [Codegen::emitJumpPlaceholder] *)
Definition emitJumpPlaceholder (jumpOpcode : Opcode) (labelId : Z) (cg : t) : t :=
  emit (I1 jumpOpcode 0)
    (with_labelPlaceholders
       (labelPlaceholders cg ++ [(length (instructions cg), labelId)]) cg).

(** The body of the loop of [Codegen::patchJumps]; the target, a [size_t], is
    stored into the [uint16_t] operand. *)
Definition patchJump (cg : t) (p : nat * Z) : t :=
  let '(index, labelId) := p in
  match labelTargets cg !! labelId with
  | Some target =>
      with_instructions
        (alter (with_a1 (u16 (Z.of_nat target))) index (instructions cg)) cg
  | None =>
      complain ("Error: Unknown label ID " +:+ show_int labelId +:+ nl) cg
  end.

(** [Codegen::patchJumps] *)
Definition patchJumps (cg : t) : t :=
  fold_left patchJump (labelPlaceholders cg) cg.

(** [Codegen::genExpression] *)
Fixpoint genExpression (expr : Expression) (cg : t) : t :=
  match expr with
  | NumberExpr value => emit (I1 MOV (u16 value)) cg
  | VariableExpr name =>
      match symbolTable cg !! name with
      | None =>
          emit (I1 MOV 0)
            (complain ("Unknown variable: " +:+ name +:+ nl) cg)
      | Some reg => emit (I1 POP 0) (emit (I1 PUSH reg) cg)
      end
  | BinaryExpr bop lhs rhs =>
      let cg := genExpression lhs cg in
      let cg := emit (I1 PUSH 0) cg in
      let cg := genExpression rhs cg in
      let cg := emit (I1 PUSH 0) cg in
      let cg := emit (I1 POP 1) cg in
      let cg := emit (I1 POP 0) cg in
      match bop with
      | BinaryOp.Add => emit (I0 ADD) cg
      | BinaryOp.Sub => emit (I0 SUB) cg
      | BinaryOp.Mul => emit (I0 MUL) cg
      | BinaryOp.Div => emit (I0 DIV) cg
      | BinaryOp.Equal => emit (I0 STE) (emit (I0 SUB) cg)
      | BinaryOp.Greater => emit (I0 STG) (emit (I0 SUB) cg)
      | BinaryOp.Less => emit (I0 STL) (emit (I0 SUB) cg)
      end
  | NullExpr => cg
  end.

(** The register of a [letbro]: the one the name already has, or a fresh
    [nextRegister++] narrowed to [uint16_t]. *)
Definition letRegister (name : string) (cg : t) : Z * t :=
  match symbolTable cg !! name with
  | None =>
      let reg := u16 (nextRegister cg) in
      (reg, with_symbolTable (<[name := reg]> (symbolTable cg))
              (with_nextRegister (int32 (nextRegister cg + 1)) cg))
  | Some reg => (reg, cg)
  end.

(** The six instructions both [ifbro] and [whilebro] put after the
    condition. *)
Definition emitCondition (cg : t) : t :=
  let cg := emit (I1 PUSH 0) cg in
  let cg := emit (I1 POP 1) cg in
  let cg := emit (I1 MOV 0) cg in
  let cg := emit (I0 SUB) cg in
  let cg := emit (I0 STE) cg in
  emit (I0 CLE) cg.

(** [Codegen::genStatement] *)
Fixpoint genStatement (stmt : Statement) (cg : t) : t :=
  match stmt with
  | LetStatement name value =>
      let cg := genExpression value cg in
      let '(reg, cg) := letRegister name cg in
      let cg := emit (I1 PUSH 0) cg in
      emit (I1 POP reg) cg
  | PrintStatement expr =>
      let cg := genExpression expr cg in
      emit (I0 PRN) cg
  | IfStatement condition thenBranch elseBranch =>
      let cg := genExpression condition cg in
      let cg := emitCondition cg in
      let '(elseLabel, cg) := newLabel cg in
      let '(endLabel, cg) := newLabel cg in
      let cg := emitJumpPlaceholder JZ elseLabel cg in
      let cg := fold_left (fun cg s => genStatement s cg) thenBranch cg in
      let cg := emitJumpPlaceholder JMP endLabel cg in
      let cg := markLabel elseLabel cg in
      let cg := fold_left (fun cg s => genStatement s cg) elseBranch cg in
      markLabel endLabel cg
  | WhileStatement condition body =>
      let '(condLabel, cg) := newLabel cg in
      let '(endLabel, cg) := newLabel cg in
      let cg := markLabel condLabel cg in
      let cg := genExpression condition cg in
      let cg := emitCondition cg in
      let cg := emitJumpPlaceholder JZ endLabel cg in
      let cg := fold_left (fun cg s => genStatement s cg) body cg in
      let cg := emitJumpPlaceholder JMP condLabel cg in
      markLabel endLabel cg
  end.

Definition genStatements (stmts : list Statement) (cg : t) : t :=
  fold_left (fun cg s => genStatement s cg) stmts cg.

(** The state [Codegen::generate] starts from, after its [clear()] calls. *)
Definition fresh : t := mk [] ∅ ∅ [] 1 0 "".

(** [Codegen::generate] up to its trailing [HLT], before [patchJumps]. *)
Definition lowered (program : Program) : t :=
  emit (I0 HLT) (genStatements (statements program) fresh).

(** [Codegen::generate], as the object it leaves behind. *)
Definition generated (program : Program) : t := patchJumps (lowered program).

(** [Codegen::generate] *)
Definition generate (program : Program) : list Instruction :=
  instructions (generated program).

End Codegen.

(** * emitter.cpp *)

Module Emitter.

(** The first [switch] of the loop of [Emitter::writeToFile]. *)
Definition opcode_name (o : Opcode) : string :=
  match o with
  | NOP => "NOP" | HLT => "HLT"
  | MOV => "MOV" | MOV_BX => "MOV_BX" | MOV_CX => "MOV_CX"
  | MOV_DX => "MOV_DX" | MOV_SP => "MOV_SP"
  | ADD => "ADD" | SUB => "SUB" | MUL => "MUL" | DIV => "DIV"
  | PUSH => "PUSH" | POP => "POP"
  | STE => "STE" | CLE => "CLE" | STG => "STG" | CLG => "CLG"
  | STH => "STH" | CLH => "CLH" | STL => "STL" | CLL => "CLL"
  | PRN => "PRN"
  | _ => "NOP"
  end.

(** The second [switch]: the opcodes whose operand is written. *)
Definition writes_operand (o : Opcode) : bool :=
  match o with
  | MOV | MOV_BX | MOV_CX | MOV_DX | MOV_SP | PUSH | POP => true
  | _ => false
  end.

(** The text of one pass of the loop. *)
Definition instruction_text (instr : Instruction) : string :=
  "    {Opcode::" +:+ opcode_name (op instr) +:+
  (if writes_operand (op instr) then ", " +:+ show_dec (a1 instr) else "") +:+
  "}," +:+ nl.

(** What [Emitter::writeToFile] puts into the file once it is open. *)
Definition file_text (instructions : list Instruction) : string :=
  "#include " +:+ String "034" "RohitVM.hpp" +:+ String "034" nl +:+
  "std::vector<Instruction> prog = {" +:+ nl +:+
  fold_right (fun instr rest => instruction_text instr +:+ rest)
    ("};" +:+ nl) instructions.

(** [Emitter::writeToFile]: [opened] says whether the [std::ofstream] could be
    opened; the result is the returned flag and the file written, if any. *)
Definition writeToFile (opened : bool) (instructions : list Instruction)
  : bool * option string :=
  if opened then (true, Some (file_text instructions)) else (false, None).

End Emitter.

(** * Vocabulary of the properties *)

(** The eight flag instructions: opcode, the mask of the bit it touches, and
    the value it gives that bit. *)
Definition flag_instructions : list (Opcode * Z * bool) :=
  [(STE, Flag.Equal, true); (CLE, Flag.Equal, false);
   (STG, Flag.Greater, true); (CLG, Flag.Greater, false);
   (STH, Flag.Higher, true); (CLH, Flag.Higher, false);
   (STL, Flag.Lower, true); (CLL, Flag.Lower, false)].

(** An instruction that the image holds in full: an opcode of the table, a
    sixteen-bit first operand that is zero when the opcode has no operand
    bytes, and a zero second operand. *)
Definition encodable (instr : Instruction) : Prop :=
  In (op instr) opcode_table /\ is_u16 (a1 instr) /\ a2 instr = 0 /\
  (getInstructionSize (op instr) = 1 -> a1 instr = 0).

(** The thirty-two cells the [HLT] dump shows, and the last thirty-two cells
    of the memory. *)
Definition stack_window (m : Memory) : list Z := mem_get m <$> seqZ 0xFFDF 32.
Definition last_32_bytes (m : Memory) : list Z := mem_get m <$> seqZ 0xFFE0 32.

(** The machine a run ended with, and how it ended. *)
Definition run_vm (r : Run) : VM :=
  match r with Halted vm | Failed vm | Running vm => vm end.
Definition run_halted (r : Run) : bool :=
  match r with Halted _ => true | _ => false end.
Definition run_failed (r : Run) : bool :=
  match r with Failed _ => true | _ => false end.

(** The jump opcodes. *)
Definition is_jump (o : Opcode) : Prop := o = JMP \/ o = JZ \/ o = JNZ.

(** Scenario S3:
    [letbro a = 5; ifbro (a == 5) { printbro(1); } elsebro { printbro(2); }] *)
Definition scenario_S3 : Program :=
  mkProgram
    [LetStatement "a" (NumberExpr 5);
     IfStatement (BinaryExpr BinaryOp.Equal (VariableExpr "a") (NumberExpr 5))
       [PrintStatement (NumberExpr 1)]
       [PrintStatement (NumberExpr 2)]].

(** The names the [letbro] statements of a program bind, in the order
    [genStatement] meets them. *)
Fixpoint let_names (stmt : Statement) : list string :=
  match stmt with
  | LetStatement name _ => [name]
  | PrintStatement _ => []
  | IfStatement _ thenBranch elseBranch =>
      flat_map let_names thenBranch ++ flat_map let_names elseBranch
  | WhileStatement _ body => flat_map let_names body
  end.

Definition bound_names (program : Program) : list string :=
  flat_map let_names (statements program).

(** [printbro(0); ifbro (0) { letbro a = 2; letbro b = 1; letbro c = 1;
    letbro d = 1; }]: four names, all bound in a branch that is not taken. *)
Definition four_names_program : Program :=
  mkProgram
    [PrintStatement (NumberExpr 0);
     IfStatement (NumberExpr 0)
       [LetStatement "a" (NumberExpr 2); LetStatement "b" (NumberExpr 1);
        LetStatement "c" (NumberExpr 1); LetStatement "d" (NumberExpr 1)]
       []].


(** ** States of the code generator *)

Import Codegen.

(** [cg'] is [cg] with instructions other than jumps appended, and possibly
    more text on [std::cerr]. *)
Definition appends (cg cg' : Codegen.t) : Prop :=
  symbolTable cg' = symbolTable cg /\
  labelTargets cg' = labelTargets cg /\
  labelPlaceholders cg' = labelPlaceholders cg /\
  nextRegister cg' = nextRegister cg /\
  labelCounter cg' = labelCounter cg /\
  exists new : list Instruction,
    instructions cg' = instructions cg ++ new /\
    Forall (fun i => ~ is_jump (op i)) new.

(** Before patching: every marked label lies within the list, and every jump
    still carries the placeholder operand 0. *)
Definition labels_within (cg : Codegen.t) : Prop :=
  (forall labelId target,
     labelTargets cg !! labelId = Some target ->
     (target <= length (instructions cg))%nat) /\
  Forall (fun i => is_jump (op i) -> a1 i = 0) (instructions cg).

(** Every jump of the list has an operand that is an index into a list of
    length [len]. *)
Definition jumps_below (len : nat) (l : list Instruction) : Prop :=
  Forall (fun i => is_jump (op i) -> 0 <= a1 i < Z.of_nat len) l.

(** Every placeholder points at a jump of the list. *)
Definition placeholders_are_jumps (cg : Codegen.t) : Prop :=
  forall (index : nat) (labelId : Z),
    (index, labelId) ∈ labelPlaceholders cg ->
    exists j : Instruction, instructions cg !! index = Some j /\ is_jump (op j).

(** The placeholders have distinct positions, all inside the list. *)
Definition placeholders_distinct (cg : Codegen.t) : Prop :=
  NoDup (labelPlaceholders cg).*1 /\
  forall index : nat,
    index ∈ (labelPlaceholders cg).*1 -> (index < length (instructions cg))%nat.

(** A label some placeholder waits for and no [markLabel] has marked yet. *)
Definition pending (cg : Codegen.t) (labelId : Z) : Prop :=
  (exists index : nat, (index, labelId) ∈ labelPlaceholders cg) /\
  labelTargets cg !! labelId = None.

(** From [cg] to [cg'] no marked label is lost and no label becomes pending. *)
Definition settles (cg cg' : Codegen.t) : Prop :=
  (forall labelId, pending cg' labelId -> pending cg labelId) /\
  (forall labelId, is_Some (labelTargets cg !! labelId) ->
                   is_Some (labelTargets cg' !! labelId)).


(** [cg'] has the symbol table and the register counter of [cg] and its
    instructions, followed by others. *)
Definition grows (cg cg' : Codegen.t) : Prop :=
  symbolTable cg' = symbolTable cg /\
  nextRegister cg' = nextRegister cg /\
  exists new : list Instruction, instructions cg' = instructions cg ++ new.


(** ** Registers by selector *)

(** The register a [PUSH] or [POP] operand in 0..3 selects. *)
Definition get_register (sel : Z) (r : Registers) : Z :=
  if sel =? 0 then ax r else if sel =? 1 then bx r
  else if sel =? 2 then cx r else dx r.

Definition set_register (sel : Z) (v : Z) (r : Registers) : Registers :=
  if sel =? 0 then set_ax v r else if sel =? 1 then set_bx v r
  else if sel =? 2 then set_cx v r else set_dx v r.

(** ** Machines up to FLAGS *)

Definition forget_flags (vm : VM) : VM := map_cpu (set_flags 0) vm.

Definition map_outcome (f : VM -> VM) (o : Outcome) : Outcome :=
  match o with
  | Continue vm => Continue (f vm)
  | Exited vm => Exited (f vm)
  end.

(** The instructions of a list that carry operand bytes. *)
Definition wide_instructions (program : list Instruction) : list Instruction :=
  List.filter (fun instr => getInstructionSize (op instr) =? 3) program.

(** ** What the code generator emits *)

(** An instruction of the lowering: encodable and not a [HLT]. *)
Definition lowering_instruction (instr : Instruction) : Prop :=
  encodable instr /\ op instr <> HLT.

(** Every register of the symbol table fits sixteen bits and every
    instruction emitted so far is one of the lowering. *)
Definition well_formed (cg : Codegen.t) : Prop :=
  (forall name reg, symbolTable cg !! name = Some reg -> is_u16 reg) /\
  Forall lowering_instruction (instructions cg).

(** The distinct names of a list in the order of their first occurrences. *)
Definition first_binding (seen : list string) (name : string) : list string :=
  if decide (name ∈ seen) then seen else seen ++ [name].

Definition first_bindings (names : list string) : list string :=
  fold_left first_binding names [].

(** The symbol table holds exactly the names of [order], the one at position
    [k] with register [k + 1] narrowed to sixteen bits, and [nextRegister] is
    the next one. *)
Definition allocated_in_order (order : list string) (cg : Codegen.t) : Prop :=
  NoDup order /\
  (forall name, name ∈ order <-> is_Some (symbolTable cg !! name)) /\
  nextRegister cg = int32 (Z.of_nat (length order) + 1) /\
  forall (k : nat) (name : string),
    order !! k = Some name ->
    symbolTable cg !! name = Some (u16 (Z.of_nat k + 1)).

(** ** Code in memory *)

(** What a fetch at address [a] of the memory [m] decodes. *)
Definition instruction_at (m : Memory) (a : Z) : Instruction :=
  fst (fetchNextInstruction (mkVM (set_ip a new_registers) m 0 "" "")).

(** The memory holds [code], instruction after instruction, from address [a]
    on. *)
Fixpoint image_at (m : Memory) (a : Z) (code : list Instruction) : Prop :=
  match code with
  | [] => True
  | instr :: rest =>
      instruction_at m a = instr /\
      image_at m (a + getInstructionSize (op instr)) rest
  end.

(** The machine gets from [vm] to [vm'] in [k] passes of the loop of
    [execute], none of which leaves the loop. *)
Definition reaches (k : nat) (vm vm' : VM) : Prop :=
  forall n : nat, execute_loop (k + n) vm = execute_loop n vm'.

(** ** The value of an expression *)

(** The instructions [genExpression] appends for an expression under a symbol
    table. *)
Definition expression_code (table : gmap string Z) (expr : Expression)
  : list Instruction :=
  instructions (genExpression expr (Codegen.mk [] table ∅ [] 1 0 "")).

(** The instructions that follow the operands of a binary expression. *)
Definition operator_code (bop : BinaryOp.t) : list Instruction :=
  match bop with
  | BinaryOp.Add => [I0 ADD]
  | BinaryOp.Sub => [I0 SUB]
  | BinaryOp.Mul => [I0 MUL]
  | BinaryOp.Div => [I0 DIV]
  | BinaryOp.Equal => [I0 SUB; I0 STE]
  | BinaryOp.Greater => [I0 SUB; I0 STG]
  | BinaryOp.Less => [I0 SUB; I0 STL]
  end.

(** What an operator makes of its operands, the left one in [AX] and the
    right one in [BX]: the comparisons subtract and set their flag; a
    division by zero has no result. *)
Definition binary_result (bop : BinaryOp.t) (r : Registers) : option Registers :=
  match bop with
  | BinaryOp.Add => Some (set_ax (u16 (ax r + bx r)) r)
  | BinaryOp.Sub => Some (set_ax (u16 (ax r - bx r)) r)
  | BinaryOp.Mul => Some (set_ax (u16 (ax r * bx r)) r)
  | BinaryOp.Div => if bx r =? 0 then None else Some (set_ax (ax r / bx r) r)
  | BinaryOp.Equal => Some (setEqual true (set_ax (u16 (ax r - bx r)) r))
  | BinaryOp.Greater => Some (setGreater true (set_ax (u16 (ax r - bx r)) r))
  | BinaryOp.Less => Some (setLower true (set_ax (u16 (ax r - bx r)) r))
  end.

(** The registers after an expression, read off the syntax tree: a number is
    its low sixteen bits, an unbound name is 0, a bound name is the content
    of its register, and a binary expression leaves the value of its right
    operand in [BX].  A name whose register is not one of 0..3 and a division
    by zero have no result. *)
Fixpoint evaluate (table : gmap string Z) (expr : Expression) (r : Registers)
  : option Registers :=
  match expr with
  | NumberExpr value => Some (set_ax (u16 value) r)
  | VariableExpr name =>
      match table !! name with
      | None => Some (set_ax 0 r)
      | Some reg =>
          if (0 <=? reg) && (reg <=? 3)
          then Some (set_ax (get_register reg r) r)
          else None
      end
  | BinaryExpr bop lhs rhs =>
      match evaluate table lhs r with
      | None => None
      | Some r1 =>
          match evaluate table rhs r1 with
          | None => None
          | Some r2 => binary_result bop (set_ax (ax r1) (set_bx (ax r2) r2))
          end
      end
  | NullExpr => Some r
  end.

(** Stack bytes that the code of an expression may use. *)
Fixpoint stack_need (expr : Expression) : Z :=
  match expr with
  | NumberExpr _ => 0
  | VariableExpr _ => 2
  | BinaryExpr _ lhs rhs => Z.max (stack_need lhs) (2 + Z.max (stack_need rhs) 2)
  | NullExpr => 0
  end.

(** The six registers other than [FLAGS] hold sixteen-bit values. *)
Definition registers_u16 (r : Registers) : Prop :=
  is_u16 (ax r) /\ is_u16 (bx r) /\ is_u16 (cx r) /\ is_u16 (dx r) /\
  is_u16 (sp r) /\ is_u16 (ip r).

(** The machine [vm0] with other registers and another memory. *)
Definition machine (vm0 : VM) (r : Registers) (m : Memory) : VM :=
  with_memory m (with_cpu r vm0).

(** The little-endian word at an address. *)
Definition word_at (m : Memory) (a : Z) : Z :=
  Z.lor (mem_get m a) (Z.shiftl (mem_get m (a + 1)) 8).

(** The memory after a push of [v] below the stack pointer [s]. *)
Definition pushed (m : Memory) (s v : Z) : Memory :=
  mem_set (mem_set m (s - 2) (Z.land v 0xFF)) (s - 1) (Z.land (Z.shiftr v 8) 0xFF).

(** ** Statements without branches *)

(** What [PRN] writes when [AX] holds [v]. *)
Definition print_report (v : Z) : string :=
  "Output: " +:+ show_dec v +:+ nl +:+ "HUMAN OUTPUT: " +:+ show_dec v +:+ nl.

(** The registers after the code of a [letbro] or a [printbro], and what that
    code writes to standard output, for the code generator in state [cg]:
    a [letbro] copies [AX] into the register of its name, a [printbro]
    reports [AX].  A [letbro] whose register is not one of 0..3, and the
    statements with branches, have no result here. *)
Definition perform (cg : Codegen.t) (stmt : Statement) (r : Registers)
  : option (Registers * string) :=
  match stmt with
  | LetStatement name value =>
      match evaluate (symbolTable cg) value r with
      | None => None
      | Some r1 =>
          let reg := fst (letRegister name cg) in
          if (0 <=? reg) && (reg <=? 3)
          then Some (set_register reg (ax r1) r1, EmptyString)
          else None
      end
  | PrintStatement expr =>
      match evaluate (symbolTable cg) expr r with
      | None => None
      | Some r1 => Some (r1, print_report (ax r1))
      end
  | _ => None
  end.

(** A list of such statements, each against the state the code generator
    is in when it reaches it. *)
Fixpoint perform_all (cg : Codegen.t) (stmts : list Statement) (r : Registers)
  : option (Registers * string) :=
  match stmts with
  | [] => Some (r, EmptyString)
  | stmt :: rest =>
      match perform cg stmt r with
      | None => None
      | Some (r1, out1) =>
          match perform_all (genStatement stmt cg) rest r1 with
          | None => None
          | Some (r2, out2) => Some (r2, out1 +:+ out2)
          end
      end
  end.

(** Stack bytes that the code of a statement without branches may use. *)
Definition statement_need (stmt : Statement) : Z :=
  match stmt with
  | LetStatement _ value => Z.max (stack_need value) 2
  | PrintStatement expr => stack_need expr
  | _ => 0
  end.

Definition statements_need (stmts : list Statement) : Z :=
  fold_right (fun stmt n => Z.max (statement_need stmt) n) 0 stmts.

(** [letbro x = 5; printbro(x + 1); printbro(x);]: the name [x] lives in
    [BX], the register in which a sum leaves its right operand. *)
Definition overwritten_variable_program : Program :=
  mkProgram
    [LetStatement "x" (NumberExpr 5);
     PrintStatement (BinaryExpr BinaryOp.Add (VariableExpr "x") (NumberExpr 1));
     PrintStatement (VariableExpr "x")].

(** * RohitUtils.cpp, the other helpers *)

Module RohitUtils.

(** [nstoh]: [high] and [low] are [uint8_t], the result a [uint16_t]. *)
Definition nstoh (srcport : Z) : Z :=
  let high := u8 (Z.shiftr (Z.land srcport 0xFF00) 8) in
  let low := u8 (Z.land srcport 0x00FF) in
  u16 (Z.lor (Z.shiftl low 8) high).

(** The loop of [copy] from counter [i], for [n] more bytes.  [dst] and
    [src] are offsets into one block of bytes, so that the two ranges may
    overlap as two pointers into one buffer may. *)
Fixpoint copy_loop (n : nat) (dst src i : Z) (m : list Z) : list Z :=
  match n with
  | O => m
  | S n' => copy_loop n' dst src (i + 1) (mem_set m (dst + i) (mem_get m (src + i)))
  end.

(** [copy(dst, src, size)] *)
Definition copy (dst src size : Z) (m : list Z) : list Z :=
  copy_loop (Z.to_nat size) dst src 0 m.

(** The loop of [zero] from counter [i]. *)
Fixpoint zero_loop (n : nat) (str i : Z) (m : list Z) : list Z :=
  match n with
  | O => m
  | S n' => zero_loop n' str (i + 1) (mem_set m (str + i) 0)
  end.

(** [zero(str, size)] *)
Definition zero (str size : Z) (m : list Z) : list Z :=
  zero_loop (Z.to_nat size) str 0 m.

(** What ["%u.%u.%u.%u"] makes of the four bytes of [ip]. *)
Definition dotted (ip : Z) : string :=
  show_dec (Z.shiftr (Z.land ip 0xFF000000) 24) +:+ "." +:+
  show_dec (Z.shiftr (Z.land ip 0x00FF0000) 16) +:+ "." +:+
  show_dec (Z.shiftr (Z.land ip 0x0000FF00) 8) +:+ "." +:+
  show_dec (Z.land ip 0x000000FF).

(** [todotted]: [snprintf] into [buf[16]] keeps at most fifteen characters. *)
Definition todotted (ip : Z) : string := String.substring 0 15 (dotted ip).

End RohitUtils.

(** What the loop of [copy] has done to the block [m] when its counter is
    [i]: the cells [dst .. dst + i) hold the bytes of [m] that [from] names,
    and the cells outside are those of [m]. *)
Definition copied (dst : Z) (m : list Z) (from : Z -> Z) (i : Z) (mi : list Z) : Prop :=
  length mi = length m /\
  (forall k, 0 <= k < i -> mem_get mi (dst + k) = mem_get m (from k)) /\
  (forall a, 0 <= a -> a < dst \/ dst + i <= a -> mem_get mi a = mem_get m a).

(** * Texts *)

(** Every character of [s] satisfies [P]. *)
Fixpoint string_all (P : ascii -> Prop) (s : string) : Prop :=
  match s with
  | EmptyString => True
  | String c s' => P c /\ string_all P s'
  end.

(** [s] begins with a character that satisfies [P]. *)
Definition begins_with (P : ascii -> Prop) (s : string) : Prop :=
  match s with
  | EmptyString => False
  | String c _ => P c
  end.

(** The two characters that end a name or a number in the emitted file. *)
Definition closes_word (c : ascii) : Prop := c = ","%char \/ c = "}"%char.

(** An instruction the emitter has a case for, in the form the loader
    accepts. *)
Definition emittable (instr : Instruction) : Prop :=
  encodable instr /\ ~ is_jump (op instr).

(** * tokens.h, lexer.h, lexer.cpp *)

(** [enum class TokenType] *)
Module TokenType.
Inductive t : Type :=
  | EndOfFile | Invalid
  | LetBro | IfBro | ElseBro | WhileBro | PrintBro
  | Identifier | Number
  | Plus | Minus | Star | Slash
  | Assign | Equal | Greater | Less
  | Semicolon | LParen | RParen | LBrace | RBrace.
End TokenType.

Module Lexer.

(** [struct Token] *)
Record Token : Type := mkToken { type : TokenType.t; text : string }.

(** [class Lexer]: the source and the position in it. *)
Record t : Type := mk { src : list ascii; pos : nat }.

(** [Lexer::Lexer] *)
Definition new (source : list ascii) : t := mk source 0.

(** [std::isspace], [std::isdigit], [std::isalpha] and [std::isalnum] in the
    "C" locale.  Bytes above 127 are in none of the classes. *)
Definition isspace (c : ascii) : bool :=
  let n := nat_of_ascii c in
  Nat.eqb n 32 || (Nat.leb 9 n && Nat.leb n 13).
Definition isdigit (c : ascii) : bool :=
  let n := nat_of_ascii c in Nat.leb 48 n && Nat.leb n 57.
Definition isalpha (c : ascii) : bool :=
  let n := nat_of_ascii c in
  (Nat.leb 65 n && Nat.leb n 90) || (Nat.leb 97 n && Nat.leb n 122).
Definition isalnum (c : ascii) : bool := isalpha c || isdigit c.

(** [Lexer::peek] *)
Definition peek (lx : t) : ascii := default zero (src lx !! pos lx).

(** [Lexer::advance] *)
Definition advance (lx : t) : ascii * t :=
  if Nat.ltb (pos lx) (length (src lx))
  then (default zero (src lx !! pos lx), mk (src lx) (S (pos lx)))
  else (zero, lx).

(** [Lexer::match] *)
Definition match_ (expected : ascii) (lx : t) : bool * t :=
  if Ascii.eqb (peek lx) expected then (true, mk (src lx) (S (pos lx))) else (false, lx).

(** [while (p(peek())) advance();], for at most [fuel] passes. *)
Fixpoint advance_while (p : ascii -> bool) (fuel : nat) (lx : t) : t :=
  match fuel with
  | O => lx
  | S fuel' => if p (peek lx) then advance_while p fuel' (snd (advance lx)) else lx
  end.

(** [Lexer::skipWhitespace].  The loop leaves a character behind at every
    pass but the last, so it makes at most [src.size()] passes that
    advance. *)
Definition skipWhitespace (lx : t) : t := advance_while isspace (length (src lx)) lx.

(** [src.substr(start, pos - start)] *)
Definition substr (lx : t) (start : nat) : string :=
  string_of_list_ascii (take (pos lx - start) (drop start (src lx))).

(** The map [keywords] of [Lexer::identifierOrKeyword]. *)
Definition keywords (text : string) : option TokenType.t :=
  if String.eqb text "letbro" then Some TokenType.LetBro
  else if String.eqb text "ifbro" then Some TokenType.IfBro
  else if String.eqb text "elsebro" then Some TokenType.ElseBro
  else if String.eqb text "whilebro" then Some TokenType.WhileBro
  else if String.eqb text "printbro" then Some TokenType.PrintBro
  else None.

(** [Lexer::identifierOrKeyword] *)
Definition identifierOrKeyword (lx : t) : Token * t :=
  let start := pos lx in
  let lx := advance_while isalnum (length (src lx)) lx in
  let text := substr lx start in
  match keywords text with
  | Some kind => (mkToken kind text, lx)
  | None => (mkToken TokenType.Identifier text, lx)
  end.

(** [Lexer::number] *)
Definition number (lx : t) : Token * t :=
  let start := pos lx in
  let lx := advance_while isdigit (length (src lx)) lx in
  (mkToken TokenType.Number (substr lx start), lx).

(** [Lexer::nextToken] *)
Definition nextToken (lx : t) : Token * t :=
  let lx := skipWhitespace lx in
  let c := peek lx in
  let one (kind : TokenType.t) (s : string) := (mkToken kind s, snd (advance lx)) in
  if Ascii.eqb c zero then (mkToken TokenType.EndOfFile "", lx)
  else if Ascii.eqb c "+" then one TokenType.Plus "+"
  else if Ascii.eqb c "-" then one TokenType.Minus "-"
  else if Ascii.eqb c "*" then one TokenType.Star "*"
  else if Ascii.eqb c "/" then one TokenType.Slash "/"
  else if Ascii.eqb c ";" then one TokenType.Semicolon ";"
  else if Ascii.eqb c "(" then one TokenType.LParen "("
  else if Ascii.eqb c ")" then one TokenType.RParen ")"
  else if Ascii.eqb c "{" then one TokenType.LBrace "{"
  else if Ascii.eqb c "}" then one TokenType.RBrace "}"
  else if Ascii.eqb c "=" then
    let lx := snd (advance lx) in
    let '(matched, lx) := match_ "=" lx in
    if matched then (mkToken TokenType.Equal "==", lx)
    else (mkToken TokenType.Assign "=", lx)
  else if Ascii.eqb c ">" then one TokenType.Greater ">"
  else if Ascii.eqb c "<" then one TokenType.Less "<"
  else if isdigit c then number lx
  else if isalpha c then identifierOrKeyword lx
  else one TokenType.Invalid (String c "").

(** [Lexer::peekToken] *)
Definition peekToken (lx : t) : Token * t :=
  let saved := pos lx in
  let '(tok, lx) := nextToken lx in
  (tok, mk (src lx) saved).

End Lexer.

(** * broc.cpp *)

(** The loop of [main] that collects the tokens up to the first
    [EndOfFile], for at most [fuel] calls of [nextToken]. *)
Fixpoint collect_tokens (fuel : nat) (lx : Lexer.t) : option (list Lexer.Token) :=
  match fuel with
  | O => None
  | S fuel' =>
      let '(tok, lx) := Lexer.nextToken lx in
      match Lexer.type tok with
      | TokenType.EndOfFile => Some []
      | _ => cons tok <$> collect_tokens fuel' lx
      end
  end.

(** The characters of the texts of a list of tokens, one after another. *)
Definition spelling (tokens : list Lexer.Token) : list ascii :=
  concat (map (fun tok => list_ascii_of_string (Lexer.text tok)) tokens).

(** The result [r] of a call that began at [lx] is a token other than
    [EndOfFile] whose text is what the call has consumed, at least one
    character. *)
Definition consumes (lx : Lexer.t) (r : Lexer.Token * Lexer.t) : Prop :=
  Lexer.src (snd r) = Lexer.src lx /\
  (Lexer.pos lx < Lexer.pos (snd r) <= length (Lexer.src lx))%nat /\
  Lexer.type (fst r) <> TokenType.EndOfFile /\
  list_ascii_of_string (Lexer.text (fst r))
  = take (Lexer.pos (snd r) - Lexer.pos lx) (drop (Lexer.pos lx) (Lexer.src lx)).

(** What the text of a token of each type is, and what follows the token;
    [next] is the character after it, or 0 at the end of the source. *)
Definition token_fits (tok : Lexer.Token) (next : ascii) : Prop :=
  let text := Lexer.text tok in
  match Lexer.type tok with
  | TokenType.EndOfFile => text = EmptyString /\ next = zero
  | TokenType.Invalid =>
      exists c : ascii,
        text = String c EmptyString /\ c <> zero /\
        Lexer.isspace c = false /\ Lexer.isalnum c = false
  | TokenType.Number =>
      begins_with (fun c => Lexer.isdigit c = true) text /\
      string_all (fun c => Lexer.isdigit c = true) text /\
      Lexer.isdigit next = false
  | TokenType.Identifier =>
      begins_with (fun c => Lexer.isalpha c = true) text /\
      string_all (fun c => Lexer.isalnum c = true) text /\
      Lexer.isalnum next = false /\
      Lexer.keywords text = None
  | TokenType.LetBro => text = "letbro"%string /\ Lexer.isalnum next = false
  | TokenType.IfBro => text = "ifbro"%string /\ Lexer.isalnum next = false
  | TokenType.ElseBro => text = "elsebro"%string /\ Lexer.isalnum next = false
  | TokenType.WhileBro => text = "whilebro"%string /\ Lexer.isalnum next = false
  | TokenType.PrintBro => text = "printbro"%string /\ Lexer.isalnum next = false
  | TokenType.Plus => text = "+"%string
  | TokenType.Minus => text = "-"%string
  | TokenType.Star => text = "*"%string
  | TokenType.Slash => text = "/"%string
  | TokenType.Assign => text = "="%string /\ next <> "="%char
  | TokenType.Equal => text = "=="%string
  | TokenType.Greater => text = ">"%string
  | TokenType.Less => text = "<"%string
  | TokenType.Semicolon => text = ";"%string
  | TokenType.LParen => text = "("%string
  | TokenType.RParen => text = ")"%string
  | TokenType.LBrace => text = "{"%string
  | TokenType.RBrace => text = "}"%string
  end.

(** The characters before the first NUL character of a text, all of them
    when it has none. *)
Fixpoint before_nul (l : list ascii) : list ascii :=
  match l with
  | [] => []
  | c :: rest => if Ascii.eqb c zero then [] else c :: before_nul rest
  end.

(** * Properties of the machine *)

Local Arguments getInstructionSize : simpl never.

(** ** Fixed-width arithmetic *)

Lemma u16_int32 (z : Z) : u16 (int32 z) = u16 z.
Proof.
  unfold u16, int32.
  pose proof (Z.div_mod (z + 2147483648) 4294967296 ltac:(lia)) as E.
  set (q := (z + 2147483648) / 4294967296) in *.
  replace ((z + 2147483648) mod 4294967296 - 2147483648)
    with (z + (- q * 65536) * 65536) by lia.
  apply Z_mod_plus_full.
Qed.

Lemma testbit_above_u16 (f n : Z) : is_u16 f -> 16 <= n -> Z.testbit f n = false.
Proof.
  intros [Hlo Hhi] Hn.
  destruct (Z.eq_dec f 0) as [-> | Hne]; [apply Z.bits_0|].
  apply Z.bits_above_log2; [lia|].
  assert (Z.log2 f < 16) by (apply Z.log2_lt_pow2; lia). lia.
Qed.

Lemma u16_testbit (z n : Z) : 0 <= n -> Z.testbit (u16 z) n = (n <? 16) && Z.testbit z n.
Proof.
  intros Hn. unfold u16. change 65536 with (2 ^ 16).
  destruct (Z.ltb_spec n 16).
  - rewrite Z.mod_pow2_bits_low by lia. reflexivity.
  - rewrite Z.mod_pow2_bits_high by lia. reflexivity.
Qed.

Lemma setFlag_testbit (r : Registers) (k : Z) (v : bool) (n : Z) :
  is_u16 (flags r) -> 0 <= k < 16 ->
  Z.testbit (flags (setFlag (2 ^ k) v r)) n
  = if n =? k then v else Z.testbit (flags r) n.
Proof.
  intros Hf Hk.
  destruct (Z.ltb_spec n 0) as [Hneg|Hpos].
  { rewrite !Z.testbit_neg_r by lia. destruct (Z.eqb_spec n k); [lia|reflexivity]. }
  destruct v; cbn [setFlag set_flags flags]; rewrite u16_testbit by lia.
  - rewrite Z.lor_spec, Z.pow2_bits_eqb by lia. rewrite (Z.eqb_sym k n).
    destruct (Z.eqb_spec n k) as [-> | Hne].
    + destruct (Z.ltb_spec k 16); [|lia]. now rewrite orb_true_r.
    + rewrite orb_false_r. destruct (Z.ltb_spec n 16); [reflexivity|].
      cbn. symmetry. now apply testbit_above_u16.
  - rewrite Z.land_spec, Z.lnot_spec, Z.pow2_bits_eqb by lia. rewrite (Z.eqb_sym k n).
    destruct (Z.eqb_spec n k) as [-> | Hne].
    + cbn. now rewrite !andb_false_r.
    + cbn. rewrite andb_true_r. destruct (Z.ltb_spec n 16); [reflexivity|].
      cbn. symmetry. now apply testbit_above_u16.
Qed.

Lemma setFlag_frame (mask : Z) (v : bool) (r : Registers) :
  setFlag mask v r = set_flags (flags (setFlag mask v r)) r.
Proof. now destruct v. Qed.

(** ** Memory cells *)

Lemma mem_get_set_eq (m : Memory) (a v : Z) :
  (Z.to_nat a < length m)%nat -> mem_get (mem_set m a v) a = v.
Proof. intros H. unfold mem_get, mem_set. now rewrite list_lookup_insert_eq. Qed.

Lemma mem_get_set_ne (m : Memory) (a b v : Z) :
  0 <= a -> 0 <= b -> a <> b -> mem_get (mem_set m a v) b = mem_get m b.
Proof.
  intros Ha Hb Hne. unfold mem_get, mem_set.
  rewrite list_lookup_insert_ne by lia. reflexivity.
Qed.

Lemma length_mem_set (m : Memory) (a v : Z) : length (mem_set m a v) = length m.
Proof. apply length_insert. Qed.

(** ** Little-endian words *)

Lemma word_of_bytes (a : Z) :
  is_u16 a ->
  Z.lor (Z.land a 0xFF) (Z.shiftl (Z.land (Z.shiftr a 8) 0xFF) 8) = a.
Proof.
  intros Ha. apply Z.bits_inj'. intros n Hn.
  change 0xFF with (Z.ones 8).
  rewrite Z.lor_spec, !Z.land_ones by lia.
  destruct (Z.ltb_spec n 8) as [Hlt|Hge].
  - rewrite Z.mod_pow2_bits_low by lia.
    rewrite Z.shiftl_spec_low by lia. apply orb_false_r.
  - rewrite Z.mod_pow2_bits_high by lia.
    rewrite Z.shiftl_spec by lia. cbn [orb].
    destruct (Z.ltb_spec n 16) as [Hlt|Hge'].
    + rewrite Z.mod_pow2_bits_low by lia.
      rewrite Z.shiftr_spec by lia. f_equal. lia.
    + rewrite Z.mod_pow2_bits_high by lia.
      symmetry. now apply testbit_above_u16.
Qed.

(** ** Loading and decoding *)

Lemma opcode_table_size (o : Opcode) :
  In o opcode_table ->
  (getInstructionSize o = 1 \/ getInstructionSize o = 3) /\ u8 o = o.
Proof.
  unfold opcode_table. cbn [In]. intros H.
  repeat (destruct H as [<- | H]; [split; [(left + right); reflexivity|reflexivity]|]).
  contradiction.
Qed.

Lemma image_size_nonneg (program : list Instruction) :
  Forall encodable program -> 0 <= image_size program.
Proof.
  induction 1 as [|i l Hi _ IH]; cbn; [lia|].
  destruct Hi as (Hop & _). apply opcode_table_size in Hop as [[-> | ->] _]. all: lia.
Qed.

Section Loading.

Variable vm : VM.
Hypothesis Hlen : length (memory vm) = Z.to_nat SIZE.
Hypothesis Hbl : 0 <= breakLine vm.

Lemma load_byte_spec (b : Z) :
  breakLine vm < SIZE ->
  let vm' := load_byte b vm in
  breakLine vm' = u16 (breakLine vm + 1) /\
  length (memory vm') = Z.to_nat SIZE /\
  cpu vm' = cpu vm /\ cout vm' = cout vm /\ cerr vm' = cerr vm /\
  mem_get (memory vm') (breakLine vm) = b /\
  forall a, 0 <= a -> a <> breakLine vm -> mem_get (memory vm') a = mem_get (memory vm) a.
Proof.
  intros Hlt. cbn. rewrite length_mem_set. repeat split; try assumption.
  - apply mem_get_set_eq. unfold SIZE in *. lia.
  - intros a Ha Hne. apply mem_get_set_ne; lia.
Qed.

End Loading.

Lemma load_instruction_spec (vm : VM) (instr : Instruction) :
  length (memory vm) = Z.to_nat SIZE -> 0 <= breakLine vm ->
  encodable instr ->
  breakLine vm + getInstructionSize (op instr) < SIZE ->
  let vm' := load_instruction vm instr in
  breakLine vm' = breakLine vm + getInstructionSize (op instr) /\
  length (memory vm') = Z.to_nat SIZE /\
  (forall a, 0 <= a < breakLine vm -> mem_get (memory vm') a = mem_get (memory vm) a) /\
  mem_get (memory vm') (breakLine vm) = op instr /\
  (getInstructionSize (op instr) = 3 ->
     mem_get (memory vm') (breakLine vm + 1) = Z.land (a1 instr) 0xFF /\
     mem_get (memory vm') (breakLine vm + 2) = Z.land (Z.shiftr (a1 instr) 8) 0xFF).
Proof.
  intros Hlen Hbl (Hop & Ha1 & Ha2 & Hz) Hfit.
  destruct (opcode_table_size _ Hop) as [Hsz Hu8].
  unfold load_instruction. rewrite Hu8. unfold SIZE in *.
  destruct (load_byte_spec vm Hlen Hbl (op instr) ltac:(unfold SIZE; lia))
    as (B1 & L1 & _ & _ & _ & G1 & F1).
  cbv zeta in *.
  assert (U1 : u16 (breakLine vm + 1) = breakLine vm + 1)
    by (unfold u16; apply Z.mod_small; lia).
  rewrite U1 in B1.
  destruct Hsz as [Hs | Hs]; rewrite Hs in *; cbn [Z.leb Z.eqb Z.compare Pos.compare Pos.compare_cont Pos.eqb].
  - repeat split; try assumption; try lia.
    intros a Ha. apply F1; lia.
  - set (vm1 := load_byte (op instr) vm) in *.
    destruct (load_byte_spec vm1 L1 ltac:(lia) (Z.land (a1 instr) 0xFF) ltac:(unfold SIZE; lia))
      as (B2 & L2 & _ & _ & _ & G2 & F2).
    cbv zeta in *.
    set (vm2 := load_byte (Z.land (a1 instr) 0xFF) vm1) in *.
    assert (U2 : u16 (breakLine vm1 + 1) = breakLine vm + 2)
      by (unfold u16; rewrite Z.mod_small; lia).
    rewrite U2 in B2.
    destruct (load_byte_spec vm2 L2 ltac:(lia) (Z.land (Z.shiftr (a1 instr) 8) 0xFF)
                ltac:(unfold SIZE; lia))
      as (B3 & L3 & _ & _ & _ & G3 & F3).
    cbv zeta in *.
    set (vm3 := load_byte (Z.land (Z.shiftr (a1 instr) 8) 0xFF) vm2) in *.
    assert (U3 : u16 (breakLine vm2 + 1) = breakLine vm + 3)
      by (unfold u16; rewrite Z.mod_small; lia).
    rewrite U3 in B3.
    repeat split; try assumption.
    + intros a Ha. rewrite F3, F2, F1 by lia. reflexivity.
    + rewrite F3, F2 by lia. exact G1.
    + rewrite F3 by lia. rewrite <- B1. exact G2.
    + rewrite <- B2. exact G3.
Qed.

Lemma load_list_spec (program : list Instruction) : forall vm : VM,
  length (memory vm) = Z.to_nat SIZE -> 0 <= breakLine vm ->
  Forall encodable program ->
  breakLine vm + image_size program < SIZE ->
  let vm' := fold_left load_instruction program vm in
  breakLine vm' = breakLine vm + image_size program /\
  length (memory vm') = Z.to_nat SIZE /\
  (forall a, 0 <= a < breakLine vm -> mem_get (memory vm') a = mem_get (memory vm) a).
Proof.
  induction program as [|i l IH]; intros vm Hlen Hbl Hall Hfit; cbn.
  - repeat split; [lia|assumption].
  - inversion Hall as [|? ? Hi Hl]; subst. cbn in Hfit.
    pose proof (image_size_nonneg l Hl) as Hnn.
    assert (Hsz : 1 <= getInstructionSize (op i))
      by (destruct Hi as (Hop & _); apply opcode_table_size in Hop as [[-> | ->] _]; lia).
    destruct (load_instruction_spec vm i Hlen Hbl Hi ltac:(lia)) as (B & L & F & _).
    cbv zeta in *.
    destruct (IH (load_instruction vm i) L ltac:(lia) Hl ltac:(lia)) as (B' & L' & F').
    cbv zeta in *. repeat split.
    + rewrite B', B. lia.
    + assumption.
    + intros a Ha. rewrite F' by lia. apply F. lia.
Qed.

Lemma decode_loaded (program : list Instruction) : forall (vm reader : VM) (n : nat),
  length (memory vm) = Z.to_nat SIZE -> 0 <= breakLine vm ->
  Forall encodable program ->
  breakLine vm + image_size program < SIZE ->
  (length program <= n)%nat ->
  ip (cpu reader) = breakLine vm ->
  breakLine reader = breakLine vm + image_size program ->
  (forall a, breakLine vm <= a < breakLine vm + image_size program ->
     mem_get (memory reader) a
     = mem_get (memory (fold_left load_instruction program vm)) a) ->
  decode n reader = program.
Proof.
  induction program as [|i l IH]; intros vm reader n Hlen Hbl Hall Hfit Hn Hip Hend Hsame.
  - cbn in Hend. destruct n; [reflexivity|]. cbn.
    destruct (Z.leb_spec (breakLine reader) (ip (cpu reader))); [reflexivity|lia].
  - inversion Hall as [|? ? Hi Hl]; subst. cbn in Hfit, Hend, Hsame, Hn.
    pose proof (image_size_nonneg l Hl) as Hnn.
    destruct Hi as (Hop & Ha1 & Ha2 & Hz).
    pose proof (opcode_table_size _ Hop) as [Hsz _].
    assert (Hg : 1 <= getInstructionSize (op i) <= 3) by (destruct Hsz as [-> | ->]; lia).
    destruct (load_instruction_spec vm i Hlen Hbl (conj Hop (conj Ha1 (conj Ha2 Hz))) ltac:(lia))
      as (B & L & F & G0 & G12).
    cbv zeta in *.
    set (vm1 := load_instruction vm i) in *.
    destruct (load_list_spec l vm1 L ltac:(lia) Hl ltac:(lia)) as (_ & _ & Fl).
    cbv zeta in Fl.
    destruct n as [|n]; [lia|]. cbn [decode].
    destruct (Z.leb_spec (breakLine reader) (ip (cpu reader))) as [Hle|_]; [lia|].
    unfold fetchNextInstruction.
    assert (R0 : mem_get (memory reader) (ip (cpu reader)) = op i).
    { rewrite Hip, Hsame by lia.
      cbn [fold_left]. fold vm1. rewrite Fl by lia.
      exact G0. }
    rewrite R0.
    assert (Hrest : decode n (map_cpu (set_ip (u16 (ip (cpu reader) + getInstructionSize (op i)))) reader) = l).
    { apply (IH vm1); try assumption; try lia.
      - cbn. rewrite Hip, B. unfold u16. apply Z.mod_small. unfold SIZE in *. lia.
      - cbn. lia.
      - intros a Ha. cbn. apply Hsame. lia. }
    rewrite Hrest. f_equal.
    destruct i as [o w1 w2]. cbn in *. subst w2.
    destruct Hsz as [E | E]; rewrite E in *; cbn [Z.leb Z.eqb Z.compare Pos.compare Pos.compare_cont Pos.eqb].
    + now rewrite Hz.
    + destruct (G12 eq_refl) as [Glo Ghi].
      unfold SIZE in *.
      assert (U1 : u16 (ip (cpu reader) + 1) = breakLine vm + 1)
        by (rewrite Hip; unfold u16; apply Z.mod_small; lia).
      assert (U2 : u16 (ip (cpu reader) + 2) = breakLine vm + 2)
        by (rewrite Hip; unfold u16; apply Z.mod_small; lia).
      rewrite U1, U2.
      rewrite !Hsame by lia. cbn [fold_left]. fold vm1.
      rewrite !Fl by lia. rewrite Glo, Ghi.
      now rewrite word_of_bytes.
Qed.

(** ** Arithmetic instructions *)

(** C7.  On sixteen-bit [AX] and [BX], [ADD], [SUB] and [MUL] leave in [AX]
    the sum, the difference and the product modulo 2^16 and change nothing
    else.  [DIV] with [BX = 0] ends the process with the message
    "VM Error: Division by zero", the machine (so [AX] too) being as it was
    but for that line on [std::cerr]; with [BX <> 0] it leaves the integer
    quotient [AX / BX] in [AX]. *)
Theorem arithmetic_wraps_and_division_by_zero_is_fatal (vm : VM) (i1 i2 : Z) :
  is_u16 (ax (cpu vm)) -> is_u16 (bx (cpu vm)) ->
  executeInstruction (mkInstruction ADD i1 i2) vm
    = Continue (map_cpu (set_ax ((ax (cpu vm) + bx (cpu vm)) mod 2 ^ 16)) vm) /\
  executeInstruction (mkInstruction SUB i1 i2) vm
    = Continue (map_cpu (set_ax ((ax (cpu vm) - bx (cpu vm)) mod 2 ^ 16)) vm) /\
  executeInstruction (mkInstruction MUL i1 i2) vm
    = Continue (map_cpu (set_ax ((ax (cpu vm) * bx (cpu vm)) mod 2 ^ 16)) vm) /\
  (bx (cpu vm) = 0 ->
     executeInstruction (mkInstruction DIV i1 i2) vm
       = Exited (eprint ("VM Error: Division by zero" +:+ nl) vm)) /\
  (bx (cpu vm) <> 0 ->
     executeInstruction (mkInstruction DIV i1 i2) vm
       = Continue (map_cpu (set_ax (ax (cpu vm) / bx (cpu vm))) vm)).
Proof.
  intros Ha Hb. unfold is_u16 in *.
  change (2 ^ 16) with 65536.
  repeat split.
  - cbn. now rewrite u16_int32.
  - cbn. now rewrite u16_int32.
  - cbn. now rewrite u16_int32.
  - intros H0. cbn. rewrite H0. reflexivity.
  - intros Hn. cbn. destruct (Z.eqb_spec (bx (cpu vm)) 0) as [E|_]; [contradiction|].
    cbn. rewrite Z.quot_div_nonneg by lia.
    unfold u16. rewrite Z.mod_small; [reflexivity|].
    split; [apply Z.div_pos; lia|].
    apply Z.le_lt_trans with (ax (cpu vm)); [|lia].
    apply Z.div_le_upper_bound; nia.
Qed.

Lemma arithmetic_wraps_witness :
  executeInstruction (I0 MUL) (map_cpu (set_bx 65535) (map_cpu (set_ax 65535) new_VM))
  = Continue (map_cpu (set_ax ((65535 * 65535) mod 2 ^ 16))
                (map_cpu (set_bx 65535) (map_cpu (set_ax 65535) new_VM))).
Proof.
  apply (arithmetic_wraps_and_division_by_zero_is_fatal
           (map_cpu (set_bx 65535) (map_cpu (set_ax 65535) new_VM)) 0 0);
    cbn; unfold is_u16; lia.
Defined.

(** ** Flag instructions *)

(** C8.  Each of [STE], [CLE], [STG], [CLG], [STH], [CLH], [STL], [CLL]
    leaves a machine that differs from the one before only in [FLAGS]
    (registers [AX], [BX], [CX], [DX], [SP], [IP], the memory and both output
    streams are the same), and the new [FLAGS] differs from the old only in
    the one bit of the instruction's mask (Equal 0x08, Greater 0x04, Higher
    0x02, Lower 0x01), which is set by the [ST] form and cleared by the [CL]
    form. *)
Theorem flag_instruction_touches_one_bit (vm : VM) (o : Opcode) (mask : Z) (v : bool) (i1 i2 : Z) :
  is_u16 (flags (cpu vm)) ->
  In (o, mask, v) flag_instructions ->
  exists f' : Z,
    executeInstruction (mkInstruction o i1 i2) vm = Continue (map_cpu (set_flags f') vm) /\
    mask = 2 ^ Z.log2 mask /\
    forall n : Z,
      Z.testbit f' n = if n =? Z.log2 mask then v else Z.testbit (flags (cpu vm)) n.
Proof.
  intros Hf Hin.
  assert (Hbits : forall k b, 0 <= k < 16 ->
            exists f', Continue (map_cpu (setFlag (2 ^ k) b) vm) = Continue (map_cpu (set_flags f') vm) /\
              2 ^ k = 2 ^ Z.log2 (2 ^ k) /\
              forall n, Z.testbit f' n = if n =? Z.log2 (2 ^ k) then b else Z.testbit (flags (cpu vm)) n).
  { intros k b Hk. exists (flags (setFlag (2 ^ k) b (cpu vm))).
    rewrite Z.log2_pow2 by lia. split; [|split; [reflexivity|]].
    - unfold map_cpu. now rewrite <- setFlag_frame.
    - intros n. now apply setFlag_testbit. }
  cbn in Hin.
  repeat (destruct Hin as [Hin|Hin]; [inversion Hin; subst; clear Hin|]); try contradiction.
  1,2: apply (Hbits 3); lia.
  1,2: apply (Hbits 2); lia.
  1,2: apply (Hbits 1); lia.
  1,2: apply (Hbits 0); lia.
Qed.


Lemma flag_instruction_touches_one_bit_witness :
  exists f' : Z,
    executeInstruction (I0 CLG) (map_cpu (set_flags 0x0F) new_VM)
      = Continue (map_cpu (set_flags f') (map_cpu (set_flags 0x0F) new_VM)) /\
    Flag.Greater = 2 ^ Z.log2 Flag.Greater /\
    forall n : Z,
      Z.testbit f' n = if n =? Z.log2 Flag.Greater then false else Z.testbit 0x0F n.
Proof.
  apply (flag_instruction_touches_one_bit (map_cpu (set_flags 0x0F) new_VM)
           CLG Flag.Greater false 0 0).
  - cbn. unfold is_u16. lia.
  - cbn. tauto.
Defined.

(** ** Stack instructions *)

Lemma invalid_selector_is_fatal (vm : VM) (sel i2 : Z) :
  ~ 0 <= sel <= 3 ->
  executeInstruction (mkInstruction PUSH sel i2) vm
    = Exited (eprint ("VM Error: Invalid PUSH register" +:+ nl) vm) /\
  executeInstruction (mkInstruction POP sel i2) vm
    = Exited (eprint ("VM Error: Invalid POP register" +:+ nl) vm).
Proof.
  intros Hn. cbn.
  destruct (Z.eqb_spec sel 0); [lia|]. destruct (Z.eqb_spec sel 1); [lia|].
  destruct (Z.eqb_spec sel 2); [lia|]. destruct (Z.eqb_spec sel 3); [lia|].
  split; reflexivity.
Qed.

Lemma exit_ends_the_loop (vm0 vm vm' : VM) (instr : Instruction) (n : nat) :
  fetchNextInstruction vm0 = (instr, vm) ->
  executeInstruction instr vm = Exited vm' ->
  execute_loop (S n) vm0 = Failed vm'.
Proof. intros Hf Hex. cbn [execute_loop]. now rewrite Hf, Hex. Qed.

(** C5, as the machine has it.  With a register selector in 0..3, [PUSH]
    ends the process with "VM Error: Stack Overflow" exactly when [SP < 2],
    and [POP] ends it with "VM Error: Stack Underflow" exactly when
    [SP > 65534].  With any other
    selector [PUSH] ends it with "VM Error: Invalid PUSH register" and [POP]
    with "VM Error: Invalid POP register".  Whenever [PUSH] or [POP] ends the
    process, the registers and the memory are as they were when the
    instruction began, and the loop of [execute] runs no further
    instruction. *)
Theorem stack_instruction_errors (vm : VM) (sel i2 : Z) :
  (0 <= sel <= 3 ->
     (executeInstruction (mkInstruction PUSH sel i2) vm
        = Exited (eprint ("VM Error: Stack Overflow" +:+ nl) vm) <-> sp (cpu vm) < 2) /\
     (executeInstruction (mkInstruction POP sel i2) vm
        = Exited (eprint ("VM Error: Stack Underflow" +:+ nl) vm) <-> sp (cpu vm) > 65534)) /\
  (~ 0 <= sel <= 3 ->
     executeInstruction (mkInstruction PUSH sel i2) vm
       = Exited (eprint ("VM Error: Invalid PUSH register" +:+ nl) vm) /\
     executeInstruction (mkInstruction POP sel i2) vm
       = Exited (eprint ("VM Error: Invalid POP register" +:+ nl) vm)) /\
  (forall (o : Opcode) (vm' : VM),
     o = PUSH \/ o = POP ->
     executeInstruction (mkInstruction o sel i2) vm = Exited vm' ->
     cpu vm' = cpu vm /\ memory vm' = memory vm /\
     forall (n : nat) (vm0 : VM),
       fetchNextInstruction vm0 = (mkInstruction o sel i2, vm) ->
       execute_loop (S n) vm0 = Failed vm').
Proof.
  assert (Hsel : (sel = 0 \/ sel = 1 \/ sel = 2 \/ sel = 3) \/ ~ 0 <= sel <= 3) by lia.
  split; [|split].
  - intros Hv. destruct Hsel as [Hs|Hs]; [|lia]. split.
    + assert (E : executeInstruction (mkInstruction PUSH sel i2) vm
                  = if sp (cpu vm) <? 2
                    then Exited (eprint ("VM Error: Stack Overflow" +:+ nl) vm)
                    else match executeInstruction (mkInstruction PUSH sel i2) vm with
                         | Continue x => Continue x | Exited x => Continue x end).
      { destruct Hs as [-> | [-> | [-> | ->]]]; cbn; unfold push;
          destruct (sp (cpu vm) <? 2); reflexivity. }
      rewrite E. destruct (Z.ltb_spec (sp (cpu vm)) 2).
      * tauto.
      * split; [|lia]. destruct (executeInstruction _ vm); discriminate.
    + assert (E : executeInstruction (mkInstruction POP sel i2) vm
                  = if SIZE - 2 <? sp (cpu vm)
                    then Exited (eprint ("VM Error: Stack Underflow" +:+ nl) vm)
                    else match executeInstruction (mkInstruction POP sel i2) vm with
                         | Continue x => Continue x | Exited x => Continue x end).
      { destruct Hs as [-> | [-> | [-> | ->]]]; cbn; unfold pop;
          destruct (SIZE - 2 <? sp (cpu vm)); reflexivity. }
      rewrite E. unfold SIZE. destruct (Z.ltb_spec (65536 - 2) (sp (cpu vm))).
      * split; [lia|reflexivity].
      * split; [|lia]. destruct (executeInstruction _ vm); discriminate.
  - apply invalid_selector_is_fatal.
  - intros o vm' Ho Hex.
    assert (Hvm : exists msg, vm' = eprint msg vm).
    { destruct Ho as [-> | ->]; cbn in Hex; unfold push, pop, handleError in Hex;
        repeat match type of Hex with
               | context [if ?c then _ else _] => destruct c; cbn in Hex
               end; inversion Hex; eauto. }
    destruct Hvm as [msg ->]. repeat split.
    intros n vm0 Hf. exact (exit_ends_the_loop vm0 vm _ _ n Hf Hex).
Qed.

Lemma stack_instruction_errors_witness :
  (executeInstruction (I1 POP 0) new_VM
     = Exited (eprint ("VM Error: Stack Underflow" +:+ nl) new_VM)
   <-> sp (cpu new_VM) > 65534) /\
  executeInstruction (I1 PUSH 4) new_VM
    = Exited (eprint ("VM Error: Invalid PUSH register" +:+ nl) new_VM).
Proof.
  split.
  - apply (stack_instruction_errors new_VM 0 0). lia.
  - apply (stack_instruction_errors new_VM 4 0). lia.
Defined.

(** C5 as it is written fails when the selector is not a register, because
    [executeInstruction] looks at the selector before it calls [push] or
    [pop]: [PUSH 4] with [SP = 1] ends the process with "Invalid PUSH
    register" and not with "Stack Overflow" although [SP < 2], and [POP 4]
    with [SP = 65535] ends it with "Invalid POP register" and not with "Stack
    Underflow" although [SP > 65534]. *)
Lemma invalid_selector_hides_the_stack_errors :
  sp (cpu (map_cpu (set_sp 1) new_VM)) < 2 /\
  executeInstruction (I1 PUSH 4) (map_cpu (set_sp 1) new_VM)
  = Exited (eprint ("VM Error: Invalid PUSH register" +:+ nl) (map_cpu (set_sp 1) new_VM)) /\
  executeInstruction (I1 PUSH 4) (map_cpu (set_sp 1) new_VM)
  <> Exited (eprint ("VM Error: Stack Overflow" +:+ nl) (map_cpu (set_sp 1) new_VM)) /\
  sp (cpu new_VM) > 65534 /\
  executeInstruction (I1 POP 4) new_VM
  = Exited (eprint ("VM Error: Invalid POP register" +:+ nl) new_VM) /\
  executeInstruction (I1 POP 4) new_VM
  <> Exited (eprint ("VM Error: Stack Underflow" +:+ nl) new_VM).
Proof.
  assert (Hdiff : forall (vm : VM) (s1 s2 : string),
            s1 <> s2 -> Exited (eprint s1 vm) <> Exited (eprint s2 vm)).
  { intros vm s1 s2 Hne H. apply Hne. injection H as H.
    revert H. generalize (cerr vm). intros c.
    induction c as [|x c IH]; cbn; intros H; [exact H|].
    injection H as H. now apply IH. }
  split; [reflexivity|]. split; [reflexivity|].
  split; [apply Hdiff; discriminate|].
  split; [reflexivity|]. split; [reflexivity|].
  apply Hdiff. discriminate.
Qed.

(** ** Encoding round trip *)

Lemma load_instruction_cpu (vm : VM) (instr : Instruction) :
  cpu (load_instruction vm instr) = cpu vm.
Proof.
  unfold load_instruction.
  destruct (2 <=? getInstructionSize (op instr)), (getInstructionSize (op instr) =? 5);
    reflexivity.
Qed.

Lemma load_list_cpu (program : list Instruction) : forall vm : VM,
  cpu (fold_left load_instruction program vm) = cpu vm.
Proof.
  induction program as [|i l IH]; intros vm; cbn; [reflexivity|].
  now rewrite IH, load_instruction_cpu.
Qed.

Lemma load_instruction_length (vm : VM) (instr : Instruction) :
  length (memory (load_instruction vm instr)) = length (memory vm).
Proof.
  unfold load_instruction.
  destruct (2 <=? getInstructionSize (op instr)), (getInstructionSize (op instr) =? 5);
    cbn; now rewrite ?length_mem_set.
Qed.

Lemma load_list_length (program : list Instruction) : forall vm : VM,
  length (memory (fold_left load_instruction program vm)) = length (memory vm).
Proof.
  induction program as [|i l IH]; intros vm; cbn; [reflexivity|].
  now rewrite IH, load_instruction_length.
Qed.

(** [breakLine] counts the bytes written modulo 2^16, whatever their number. *)
Lemma load_nops_breakLine (k : nat) : forall vm : VM,
  breakLine (fold_left load_instruction (replicate k (I0 NOP)) vm)
  = u16 (u16 (breakLine vm) + Z.of_nat k) \/ k = O.
Proof.
  induction k as [|k IH]; intros vm; [now right|]. left.
  cbn [replicate fold_left].
  destruct (IH (load_instruction vm (I0 NOP))) as [-> | ->].
  - change (breakLine (load_instruction vm (I0 NOP))) with (u16 (breakLine vm + 1)).
    unfold u16. rewrite Z.mod_mod by lia.
    rewrite !Zplus_mod_idemp_l. f_equal. lia.
  - cbn [replicate fold_left].
    change (breakLine (load_instruction vm (I0 NOP))) with (u16 (breakLine vm + 1)).
    unfold u16. rewrite Zplus_mod_idemp_l. reflexivity.
Qed.

(** An image of [k] one-byte instructions and a [HLT], where [k] is a
    multiple of 2^16: the [HLT] lands on address 0 and [breakLine] on 1. *)
Lemma decode_wrapped_image (k n : nat) (vm : VM) :
  k <> O -> u16 (Z.of_nat k) = 0 ->
  length (memory vm) = Z.to_nat SIZE -> ip (cpu vm) = 0 ->
  decode (S n) (loadProgram (replicate k (I0 NOP) ++ [I0 HLT]) vm) = [I0 HLT].
Proof.
  intros Hk Hwrap Hlen Hip. unfold loadProgram.
  rewrite fold_left_app. cbn [fold_left].
  set (vm1 := fold_left load_instruction (replicate k (I0 NOP)) (with_breakLine 0 vm)).
  assert (B1 : breakLine vm1 = 0).
  { destruct (load_nops_breakLine k (with_breakLine 0 vm)) as [E | E]; [|contradiction].
    fold vm1 in E. rewrite E. cbn [breakLine with_breakLine].
    change (u16 0) with 0. now rewrite Z.add_0_l. }
  assert (L1 : length (memory vm1) = Z.to_nat SIZE)
    by (unfold vm1; now rewrite load_list_length).
  assert (C1 : cpu vm1 = cpu vm) by (unfold vm1; now rewrite load_list_cpu).
  change (load_instruction vm1 (I0 HLT)) with (load_byte HLT vm1).
  set (vm2 := load_byte HLT vm1).
  assert (B2 : breakLine vm2 = 1) by (unfold vm2; cbn; now rewrite B1).
  assert (C2 : ip (cpu vm2) = 0) by (unfold vm2; cbn; now rewrite C1).
  assert (G2 : mem_get (memory vm2) 0 = HLT).
  { unfold vm2. cbn. rewrite B1. apply mem_get_set_eq. rewrite L1. unfold SIZE. lia. }
  cbn [decode]. rewrite B2, C2. cbn [Z.leb Z.compare].
  unfold fetchNextInstruction. rewrite C2, G2.
  change (getInstructionSize HLT) with 1. cbn [Z.leb Z.eqb Z.compare Pos.compare Pos.compare_cont].
  f_equal. destruct n; [reflexivity|]. cbn [decode].
  cbn [ip cpu map_cpu with_cpu set_ip breakLine]. rewrite B2. reflexivity.
Qed.

(** Decides [encodable] for an instruction that is written out. *)
Ltac prove_encodable :=
  split; [cbn; tauto | split; [unfold is_u16; cbn; lia | split; [reflexivity |]]];
  let H := fresh in intros H; vm_compute in H; try discriminate H; reflexivity.

(** C3, as the machine has it.  Let [program] be a list of instructions with
    opcodes of the table, sixteen-bit first operands that are zero for the
    one-byte opcodes, zero second operands, and an image shorter than the
    memory.  Loading it into a machine whose [ip] is 0 and decoding from
    there until [breakLine], with room for at least as many instructions as
    the list has, gives the list back. *)
Theorem decode_loadProgram_roundtrip (program : list Instruction) (vm : VM) (n : nat) :
  length (memory vm) = Z.to_nat SIZE ->
  ip (cpu vm) = 0 ->
  Forall encodable program ->
  image_size program < SIZE ->
  (length program <= n)%nat ->
  decode n (loadProgram program vm) = program.
Proof.
  intros Hlen Hip Hall Hfit Hn. unfold loadProgram.
  destruct (load_list_spec program (with_breakLine 0 vm) Hlen ltac:(cbn; lia) Hall
              ltac:(cbn; lia)) as (B & _ & _).
  cbv zeta in B. cbn [breakLine with_breakLine] in B.
  apply (decode_loaded program (with_breakLine 0 vm)); cbn [breakLine with_breakLine];
    try assumption; try lia; try reflexivity.
  now rewrite load_list_cpu.
Qed.

Lemma decode_loadProgram_roundtrip_witness :
  decode 3 (loadProgram [I1 MOV 0x1234; I1 PUSH 0; I0 HLT] new_VM)
  = [I1 MOV 0x1234; I1 PUSH 0; I0 HLT].
Proof.
  apply decode_loadProgram_roundtrip.
  - reflexivity.
  - reflexivity.
  - repeat (apply List.Forall_cons; [prove_encodable|]). apply List.Forall_nil.
  - reflexivity.
  - cbn. lia.
Defined.

(** C3 does not hold of every instruction list.  An operand given to a
    one-byte opcode is not written to the image and reads back as 0; and an
    image longer than the memory wraps around it: after 65536 [NOP]s the
    [HLT] is written over the first of them and [breakLine] stands at 1. *)
Lemma decode_loadProgram_loses_instructions :
  decode 1 (loadProgram [mkInstruction NOP 7 0] new_VM) = [mkInstruction NOP 0 0] /\
  decode 1 (loadProgram [mkInstruction NOP 7 0] new_VM) <> [mkInstruction NOP 7 0] /\
  decode (S (Z.to_nat 65536))
    (loadProgram (replicate (Z.to_nat 65536) (I0 NOP) ++ [I0 HLT]) new_VM)
  = [I0 HLT] /\
  decode (S (Z.to_nat 65536))
    (loadProgram (replicate (Z.to_nat 65536) (I0 NOP) ++ [I0 HLT]) new_VM)
  <> replicate (Z.to_nat 65536) (I0 NOP) ++ [I0 HLT].
Proof.
  assert (E1 : decode 1 (loadProgram [mkInstruction NOP 7 0] new_VM)
               = [mkInstruction NOP 0 0]) by (vm_compute; reflexivity).
  assert (E2 : decode (S (Z.to_nat 65536))
                 (loadProgram (replicate (Z.to_nat 65536) (I0 NOP) ++ [I0 HLT]) new_VM)
               = [I0 HLT]).
  { apply decode_wrapped_image.
    - lia.
    - rewrite Z2Nat.id by lia. reflexivity.
    - apply length_replicate.
    - reflexivity. }
  repeat apply conj; try assumption.
  - rewrite E1. discriminate.
  - rewrite E2. intros H. apply (f_equal length) in H.
    rewrite length_app, length_replicate in H. cbn [length] in H. lia.
Qed.

(** ** The state dump of HLT *)

Lemma raw_block_cells (m : Memory) (off size : Z) :
  0 <= off -> 0 <= size -> (Z.to_nat (off + size) <= length m)%nat ->
  raw_block m off size = mem_get m <$> seqZ off size.
Proof.
  intros Hoff Hsize Hfit. unfold raw_block. apply list_eq. intros i.
  destruct (decide (i < Z.to_nat size)%nat) as [Hi | Hi].
  - rewrite lookup_take_lt, lookup_drop by lia.
    rewrite list_lookup_fmap, lookup_seqZ_lt by lia. cbn. unfold mem_get.
    replace (Z.to_nat (off + Z.of_nat i)) with (Z.to_nat off + i)%nat by lia.
    destruct (m !! (Z.to_nat off + i)%nat) eqn:E; [reflexivity|].
    apply lookup_ge_None in E. lia.
  - rewrite lookup_take_ge by lia.
    rewrite list_lookup_fmap, lookup_seqZ_ge by lia. reflexivity.
Qed.

(** C6, as the machine has it.  When the byte at [ip] is [HLT], one pass of
    the loop of [execute] prints "System Halted", the line with [AX], [BX],
    [CX], [DX] and [SP] in decimal, and the hex dump of the thirty-two cells
    at 0xFFDF..0xFFFE, the ones right below the initial stack pointer 0xFFFF;
    it then prints "Program Halted." and leaves the loop.  Nothing but [ip]
    and [std::cout] has changed. *)
Theorem hlt_dumps_registers_and_stack_window (vm : VM) (n : nat) :
  length (memory vm) = Z.to_nat SIZE ->
  mem_get (memory vm) (ip (cpu vm)) = HLT ->
  execute_loop (S n) vm
  = Halted
      (print ("Program Halted." +:+ nl)
         (print ("System Halted" +:+ nl +:+
                 "AX: " +:+ show_dec (ax (cpu vm)) +:+
                 ", BX: " +:+ show_dec (bx (cpu vm)) +:+
                 ", CX: " +:+ show_dec (cx (cpu vm)) +:+
                 ", DX: " +:+ show_dec (dx (cpu vm)) +:+
                 ", SP: " +:+ show_dec (sp (cpu vm)) +:+ nl +:+
                 printhex (stack_window (memory vm)) " ")
            (map_cpu (set_ip (u16 (ip (cpu vm) + 1))) vm))).
Proof.
  intros Hlen Hop. cbn [execute_loop]. unfold fetchNextInstruction. rewrite Hop.
  change (getInstructionSize HLT) with 1.
  cbn [Z.leb Z.eqb Z.compare Pos.compare Pos.compare_cont executeInstruction op].
  unfold halt_report. cbn [memory cpu map_cpu with_cpu ax bx cx dx sp set_ip].
  rewrite raw_block_cells by (rewrite ?Hlen; unfold SIZE; lia).
  reflexivity.
Qed.

Lemma hlt_dumps_registers_and_stack_window_witness :
  execute_loop 1 (loadProgram [I0 HLT] new_VM)
  = Halted
      (print ("Program Halted." +:+ nl)
         (print ("System Halted" +:+ nl +:+
                 "AX: " +:+ show_dec 0 +:+ ", BX: " +:+ show_dec 0 +:+
                 ", CX: " +:+ show_dec 0 +:+ ", DX: " +:+ show_dec 0 +:+
                 ", SP: " +:+ show_dec 65535 +:+ nl +:+
                 printhex (stack_window (memory (loadProgram [I0 HLT] new_VM))) " ")
            (map_cpu (set_ip (u16 (0 + 1))) (loadProgram [I0 HLT] new_VM)))).
Proof.
  apply (hlt_dumps_registers_and_stack_window (loadProgram [I0 HLT] new_VM) 0).
  - reflexivity.
  - reflexivity.
Defined.

(** C6 does not hold of the last thirty-two bytes.  After [MOV 0x1234;
    PUSH 0; HLT] the pushed word lies at 0xFFFD and 0xFFFE.  The dump ends
    with those two cells; the cells 0xFFE0..0xFFFF end one cell later, with
    the byte at 0xFFFF. *)
Lemma hlt_dump_is_not_the_last_32_bytes :
  run_halted (execute 3 (loadProgram [I1 MOV 0x1234; I1 PUSH 0; I0 HLT] new_VM)) = true /\
  cout (run_vm (execute 3 (loadProgram [I1 MOV 0x1234; I1 PUSH 0; I0 HLT] new_VM)))
  = "Starting VM Execution..." +:+ nl +:+
    "System Halted" +:+ nl +:+
    "AX: 4660, BX: 0, CX: 0, DX: 0, SP: 65533" +:+ nl +:+
    "00 00 00 00 00 00 00 00 00 00 00 00 00 00 00 00 00 00 00 00 00 00 00 00 00 00 00 00 00 00 34 12 " +:+ nl +:+
    "Program Halted." +:+ nl /\
  printhex
    (last_32_bytes
       (memory (run_vm (execute 3 (loadProgram [I1 MOV 0x1234; I1 PUSH 0; I0 HLT] new_VM)))))
    " "
  = "00 00 00 00 00 00 00 00 00 00 00 00 00 00 00 00 00 00 00 00 00 00 00 00 00 00 00 00 00 34 12 00 " +:+ nl.
Proof. repeat apply conj; vm_compute; reflexivity. Qed.

(** ** Scenario S3 *)

(** C1, evaluated.  The bytecode of scenario S3 is the twenty-five
    instructions below: the [JZ] of the [ifbro] carries 22 and the [JMP] 24,
    the list positions of the else branch and of the end.  The machine takes
    a jump operand for a byte address.  In the image address 22 holds the low
    operand byte of the eighth instruction, [PUSH 0], which is 0.  The run
    reaches the [JZ] with [AX = 0], jumps to address 22, fetches opcode 0 and
    ends the process with "VM Error: Illegal Instruction"; it has printed the
    banner and nothing else, so no line "Output: 2". *)
Theorem scenario_S3_ends_in_illegal_instruction (n : nat) :
  Codegen.generate scenario_S3
  = [I1 MOV 5; I1 PUSH 0; I1 POP 1;
     I1 PUSH 1; I1 POP 0; I1 PUSH 0; I1 MOV 5; I1 PUSH 0; I1 POP 1; I1 POP 0;
     I0 SUB; I0 STE;
     I1 PUSH 0; I1 POP 1; I1 MOV 0; I0 SUB; I0 STE; I0 CLE;
     I1 JZ 22; I1 MOV 1; I0 PRN; I1 JMP 24; I1 MOV 2; I0 PRN; I0 HLT] /\
  mem_get (memory (loadProgram (Codegen.generate scenario_S3) new_VM)) 22 = 0 /\
  ax (cpu (run_vm (execute 18 (loadProgram (Codegen.generate scenario_S3) new_VM)))) = 0 /\
  ip (cpu (run_vm (execute 18 (loadProgram (Codegen.generate scenario_S3) new_VM)))) = 44 /\
  ip (cpu (run_vm (execute 19 (loadProgram (Codegen.generate scenario_S3) new_VM)))) = 22 /\
  run_failed (execute (20 + n) (loadProgram (Codegen.generate scenario_S3) new_VM)) = true /\
  cout (run_vm (execute (20 + n) (loadProgram (Codegen.generate scenario_S3) new_VM)))
  = "Starting VM Execution..." +:+ nl /\
  cerr (run_vm (execute (20 + n) (loadProgram (Codegen.generate scenario_S3) new_VM)))
  = "VM Error: Illegal Instruction" +:+ nl.
Proof. repeat apply conj; vm_compute; reflexivity. Qed.

(** * Properties of the code generator *)

(** ** Induction over statements and their blocks *)

Section StatementInduction.

Variable P : Statement -> Prop.
Hypothesis HLet : forall name value, P (LetStatement name value).
Hypothesis HPrint : forall expr, P (PrintStatement expr).
Hypothesis HIf : forall condition thenBranch elseBranch,
  Forall P thenBranch -> Forall P elseBranch ->
  P (IfStatement condition thenBranch elseBranch).
Hypothesis HWhile : forall condition body,
  Forall P body -> P (WhileStatement condition body).

Fixpoint Statement_block_ind (stmt : Statement) : P stmt :=
  let block :=
    fix block (l : list Statement) : Forall P l :=
      match l with
      | [] => @List.Forall_nil _ P
      | s :: l' => @List.Forall_cons _ P s l' (Statement_block_ind s) (block l')
      end in
  match stmt with
  | LetStatement name value => HLet name value
  | PrintStatement expr => HPrint expr
  | IfStatement condition thenBranch elseBranch =>
      HIf condition thenBranch elseBranch (block thenBranch) (block elseBranch)
  | WhileStatement condition body => HWhile condition body (block body)
  end.

End StatementInduction.

(** A property that every statement of a block carries from the state before
    it to the state after it is carried across the block. *)
Lemma genStatements_preserves (P : Codegen.t -> Prop) (stmts : list Statement) :
  Forall (fun s => forall cg, P cg -> P (genStatement s cg)) stmts ->
  forall cg, P cg -> P (genStatements stmts cg).
Proof.
  unfold genStatements.
  induction 1 as [|s l Hs _ IH]; intros cg Hcg; cbn; [assumption|].
  apply IH, Hs, Hcg.
Qed.

(** The same for a reflexive and transitive relation between the two states. *)
Lemma genStatements_relates (R : Codegen.t -> Codegen.t -> Prop) (stmts : list Statement) :
  (forall cg, R cg cg) ->
  (forall a b c, R a b -> R b c -> R a c) ->
  Forall (fun s => forall cg, R cg (genStatement s cg)) stmts ->
  forall cg, R cg (genStatements stmts cg).
Proof.
  intros Hrefl Htrans. unfold genStatements.
  induction 1 as [|s l Hs _ IH]; intros cg; cbn; [apply Hrefl|].
  eapply Htrans; [apply Hs | apply IH].
Qed.

(** ** What lowering an expression changes *)

Lemma appends_refl (cg : Codegen.t) : appends cg cg.
Proof.
  repeat split. exists []. split; [now rewrite app_nil_r | constructor].
Qed.

Lemma appends_trans (a b c : Codegen.t) : appends a b -> appends b c -> appends a c.
Proof.
  intros (S1 & T1 & P1 & N1 & C1 & n1 & I1 & F1) (S2 & T2 & P2 & N2 & C2 & n2 & I2 & F2).
  repeat split; try congruence.
  exists (n1 ++ n2). split.
  - rewrite I2, I1. now rewrite app_assoc.
  - now apply Forall_app.
Qed.

Lemma appends_emit (instr : Instruction) (cg : Codegen.t) :
  ~ is_jump (op instr) -> appends cg (emit instr cg).
Proof.
  intros Hnj. repeat split. exists [instr]. split; [reflexivity|].
  now repeat constructor.
Qed.

Lemma appends_complain (s : string) (cg : Codegen.t) : appends cg (complain s cg).
Proof.
  repeat split. exists []. split; [cbn; now rewrite app_nil_r | constructor].
Qed.

(** Closes [~ is_jump o] for an opcode that is written out. *)
Ltac not_a_jump := unfold is_jump; cbn; intros [? | [? | ?]]; discriminate.

(** Peels the outermost append off the right-hand state. *)
Ltac peel_appends :=
  match goal with
  | |- appends ?a ?a => apply appends_refl
  | |- appends ?a (emit ?i ?x) =>
      apply (appends_trans a x); [|apply appends_emit; not_a_jump]
  | |- appends ?a (complain ?s ?x) =>
      apply (appends_trans a x); [|apply appends_complain]
  | H : forall cg, appends cg (genExpression ?e cg) |- appends ?a (genExpression ?e ?x) =>
      apply (appends_trans a x); [|apply H]
  end.

Lemma appends_genExpression (expr : Expression) :
  forall cg, appends cg (genExpression expr cg).
Proof.
  induction expr as [value | name | bop lhs IHl rhs IHr | ]; intros cg; cbn [genExpression].
  - repeat peel_appends.
  - destruct (symbolTable cg !! name) as [reg|]; repeat peel_appends.
  - destruct bop; repeat peel_appends.
  - apply appends_refl.
Qed.

Lemma appends_emitCondition (cg : Codegen.t) : appends cg (emitCondition cg).
Proof. unfold emitCondition. repeat peel_appends. Qed.

(** ** Invariants of the emitted code *)

(** A property of the instruction list, the label targets and the
    placeholders that survives appending instructions other than jumps,
    marking a label and emitting a [JZ] or [JMP] placeholder is an invariant
    of [genStatement]. *)
Section CodeInvariant.

Variable P : Codegen.t -> Prop.

Hypothesis P_same : forall cg cg',
  instructions cg' = instructions cg ->
  labelTargets cg' = labelTargets cg ->
  labelPlaceholders cg' = labelPlaceholders cg ->
  P cg -> P cg'.
Hypothesis P_appends : forall cg cg', appends cg cg' -> P cg -> P cg'.
Hypothesis P_markLabel : forall labelId cg, P cg -> P (markLabel labelId cg).
Hypothesis P_placeholder : forall o labelId cg,
  o = JZ \/ o = JMP -> P cg -> P (emitJumpPlaceholder o labelId cg).

Lemma code_invariant_letRegister (name : string) (cg : Codegen.t) :
  P cg -> P (snd (letRegister name cg)).
Proof.
  unfold letRegister. destruct (symbolTable cg !! name); cbn; [trivial|].
  now apply P_same.
Qed.

Lemma code_invariant_genStatement (stmt : Statement) :
  forall cg, P cg -> P (genStatement stmt cg).
Proof.
  induction stmt as [name value | expr | condition thenBranch elseBranch IHt IHe
                    | condition body IHb] using Statement_block_ind;
    intros cg Hcg; cbn [genStatement newLabel].
  - pose proof (code_invariant_letRegister name (genExpression value cg)) as Hreg.
    destruct (letRegister name (genExpression value cg)) as [reg cg1]. cbn [snd] in Hreg.
    apply (P_appends (emit (I1 PUSH 0) cg1)); [apply appends_emit; not_a_jump|].
    apply (P_appends cg1); [apply appends_emit; not_a_jump|].
    apply Hreg. apply (P_appends cg); [apply appends_genExpression|assumption].
  - apply (P_appends (genExpression expr cg)); [apply appends_emit; not_a_jump|].
    apply (P_appends cg); [apply appends_genExpression|assumption].
  - apply P_markLabel.
    apply (genStatements_preserves P elseBranch IHe).
    apply P_markLabel. apply P_placeholder; [now right|].
    apply (genStatements_preserves P thenBranch IHt).
    apply P_placeholder; [now left|].
    apply (P_same (emitCondition (genExpression condition cg))); try reflexivity.
    apply (P_appends (genExpression condition cg)); [apply appends_emitCondition|].
    apply (P_appends cg); [apply appends_genExpression|assumption].
  - apply P_markLabel. apply P_placeholder; [now right|].
    apply (genStatements_preserves P body IHb).
    apply P_placeholder; [now left|].
    apply (P_appends (genExpression condition
             (markLabel (labelCounter cg)
                (with_labelCounter
                   (int32 (labelCounter (with_labelCounter (int32 (labelCounter cg + 1)) cg) + 1))
                   (with_labelCounter (int32 (labelCounter cg + 1)) cg)))));
      [apply appends_emitCondition|].
    eapply P_appends; [apply appends_genExpression|].
    apply P_markLabel.
    now apply (P_same cg).
Qed.

Lemma code_invariant_lowered (program : Program) :
  P fresh -> P (lowered program).
Proof.
  intros Hfresh. unfold lowered.
  apply (P_appends (genStatements (statements program) fresh));
    [apply appends_emit; not_a_jump|].
  apply genStatements_preserves; [|assumption].
  apply Forall_forall. intros s _. apply code_invariant_genStatement.
Qed.

End CodeInvariant.

(** ** Jump operands *)

Lemma labels_within_same (cg cg' : Codegen.t) :
  instructions cg' = instructions cg ->
  labelTargets cg' = labelTargets cg ->
  labelPlaceholders cg' = labelPlaceholders cg ->
  labels_within cg -> labels_within cg'.
Proof. unfold labels_within. intros -> -> _. trivial. Qed.

Lemma labels_within_appends (cg cg' : Codegen.t) :
  appends cg cg' -> labels_within cg -> labels_within cg'.
Proof.
  intros (_ & T & _ & _ & _ & new & I & Hnew) [Ht Hj]. unfold labels_within.
  rewrite T, I. split.
  - intros labelId target Hl. rewrite length_app. apply Ht in Hl. lia.
  - apply Forall_app. split; [assumption|].
    eapply Forall_impl; [exact Hnew|]. intros i Hn Hi. contradiction.
Qed.

Lemma labels_within_markLabel (labelId : Z) (cg : Codegen.t) :
  labels_within cg -> labels_within (markLabel labelId cg).
Proof.
  intros [Ht Hj]. split; [|exact Hj]. cbn. intros l target Hl.
  destruct (decide (labelId = l)) as [-> | Hne].
  - rewrite lookup_insert_eq in Hl. inversion Hl. lia.
  - rewrite lookup_insert_ne in Hl by assumption. now apply Ht in Hl.
Qed.

Lemma labels_within_placeholder (o : Opcode) (labelId : Z) (cg : Codegen.t) :
  o = JZ \/ o = JMP ->
  labels_within cg -> labels_within (emitJumpPlaceholder o labelId cg).
Proof.
  intros _ [Ht Hj]. split; cbn.
  - intros l target Hl. rewrite length_app. apply Ht in Hl. lia.
  - apply Forall_app. split; [assumption|]. now repeat constructor.
Qed.

Lemma labels_within_fresh : labels_within fresh.
Proof.
  split; [|constructor]. intros l t H. cbn in H. now rewrite lookup_empty in H.
Qed.

Lemma labels_within_statements (program : Program) :
  labels_within (genStatements (statements program) fresh).
Proof.
  apply genStatements_preserves; [|apply labels_within_fresh].
  apply Forall_forall. intros s _.
  apply (code_invariant_genStatement labels_within labels_within_same
           labels_within_appends labels_within_markLabel labels_within_placeholder).
Qed.

(** [patchJumps] rewrites first operands only: the list keeps its length and
    every instruction its opcode. *)
Lemma patchJump_shape (cg : Codegen.t) (p : nat * Z) :
  labelTargets (patchJump cg p) = labelTargets cg /\
  length (instructions (patchJump cg p)) = length (instructions cg).
Proof.
  destruct p as [index labelId]. unfold patchJump.
  destruct (labelTargets cg !! labelId); cbn; [|tauto].
  now rewrite length_alter.
Qed.

Section Patching.

Variable len : nat.

Lemma patchJumps_jumps_below (placeholders : list (nat * Z)) : forall cg,
  length (instructions cg) = len ->
  (forall labelId target,
     labelTargets cg !! labelId = Some target -> (target < len)%nat) ->
  jumps_below len (instructions cg) ->
  jumps_below len (instructions (fold_left patchJump placeholders cg)).
Proof.
  induction placeholders as [|p l IH]; intros cg Hlen Ht Hj; cbn [fold_left];
    [assumption|].
  destruct (patchJump_shape cg p) as [Tp Lp].
  apply IH; [congruence | now rewrite Tp |].
  destruct p as [index labelId]. unfold patchJump.
  destruct (labelTargets cg !! labelId) as [target|] eqn:El; cbn; [|assumption].
  apply Forall_alter; [assumption|].
  intros i _ _ _. cbn. apply Ht in El. unfold u16.
  pose proof (Z.mod_pos_bound (Z.of_nat target) 65536 ltac:(lia)).
  pose proof (Z.mod_le (Z.of_nat target) 65536 ltac:(lia) ltac:(lia)).
  lia.
Qed.

End Patching.

(** C4.  In the list [generate] returns, the operand of every [JMP], [JZ]
    and [JNZ] is at least 0 and less than the length of the list. *)
Theorem generate_jump_operands_in_range
    (program : Program) (k : nat) (instr : Instruction) :
  Codegen.generate program !! k = Some instr ->
  is_jump (op instr) ->
  0 <= a1 instr < Z.of_nat (length (Codegen.generate program)).
Proof.
  intros Hk Hjump.
  destruct (labels_within_statements program) as [Ht Hj].
  set (body := genStatements (statements program) fresh) in *.
  assert (Hlen : length (instructions (lowered program)) = S (length (instructions body)))
    by (unfold lowered, body, emit; cbn [instructions with_instructions];
        rewrite length_app; cbn [length]; lia).
  assert (Hall : jumps_below (length (instructions (lowered program)))
                   (Codegen.generate program)).
  { unfold Codegen.generate, generated, patchJumps.
    apply patchJumps_jumps_below; [reflexivity | |].
    - intros labelId target Hl. apply Ht in Hl. lia.
    - rewrite Hlen. unfold lowered, emit. cbn [instructions with_instructions].
      fold body. apply Forall_app. split; [|repeat constructor; cbn; lia].
      eapply Forall_impl; [exact Hj|]. intros i Hi Hji. cbn beta.
      rewrite (Hi Hji). lia. }
  assert (Hsame : forall placeholders cg,
            length (instructions (fold_left patchJump placeholders cg))
            = length (instructions cg)).
  { induction placeholders as [|p l IH]; intros cg; cbn [fold_left]; [reflexivity|].
    rewrite IH. apply patchJump_shape. }
  unfold Codegen.generate, generated, patchJumps in *. rewrite Hsame.
  unfold jumps_below in Hall. rewrite Forall_lookup in Hall.
  exact (Hall k instr Hk Hjump).
Qed.

Lemma generate_jump_operands_in_range_witness :
  0 <= a1 (I1 JZ 22) < Z.of_nat (length (Codegen.generate scenario_S3)).
Proof.
  apply (generate_jump_operands_in_range scenario_S3 18 (I1 JZ 22)).
  - reflexivity.
  - right. left. reflexivity.
Defined.

(** ** Placeholders *)

Lemma placeholders_are_jumps_same (cg cg' : Codegen.t) :
  instructions cg' = instructions cg ->
  labelTargets cg' = labelTargets cg ->
  labelPlaceholders cg' = labelPlaceholders cg ->
  placeholders_are_jumps cg -> placeholders_are_jumps cg'.
Proof. unfold placeholders_are_jumps. intros -> _ ->. trivial. Qed.

Lemma placeholders_are_jumps_appends (cg cg' : Codegen.t) :
  appends cg cg' -> placeholders_are_jumps cg -> placeholders_are_jumps cg'.
Proof.
  intros (_ & _ & P & _ & _ & new & I & _) H index labelId Hin.
  rewrite P in Hin. destruct (H index labelId Hin) as (j & Hj & Hjump).
  exists j. split; [|assumption]. rewrite I. now apply lookup_app_l_Some.
Qed.

Lemma placeholders_are_jumps_markLabel (labelId : Z) (cg : Codegen.t) :
  placeholders_are_jumps cg -> placeholders_are_jumps (markLabel labelId cg).
Proof. trivial. Qed.

Lemma placeholders_are_jumps_placeholder (o : Opcode) (labelId : Z) (cg : Codegen.t) :
  o = JZ \/ o = JMP ->
  placeholders_are_jumps cg -> placeholders_are_jumps (emitJumpPlaceholder o labelId cg).
Proof.
  intros Ho H index l Hin. cbn in *.
  apply elem_of_app in Hin as [Hin | Hin].
  - destruct (H index l Hin) as (j & Hj & Hjump).
    exists j. split; [now apply lookup_app_l_Some | assumption].
  - apply list_elem_of_singleton in Hin. inversion Hin; subst.
    exists (I1 o 0). split.
    + rewrite lookup_app_r by lia. now rewrite Nat.sub_diag.
    + unfold is_jump. cbn. tauto.
Qed.

Lemma placeholders_are_jumps_lowered (program : Program) :
  placeholders_are_jumps (lowered program).
Proof.
  apply code_invariant_lowered.
  - apply placeholders_are_jumps_same.
  - apply placeholders_are_jumps_appends.
  - apply placeholders_are_jumps_markLabel.
  - apply placeholders_are_jumps_placeholder.
  - intros index labelId Hin. cbn in Hin. now apply elem_of_nil in Hin.
Qed.

Lemma placeholders_distinct_same (cg cg' : Codegen.t) :
  instructions cg' = instructions cg ->
  labelTargets cg' = labelTargets cg ->
  labelPlaceholders cg' = labelPlaceholders cg ->
  placeholders_distinct cg -> placeholders_distinct cg'.
Proof. unfold placeholders_distinct. intros -> _ ->. trivial. Qed.

Lemma placeholders_distinct_appends (cg cg' : Codegen.t) :
  appends cg cg' -> placeholders_distinct cg -> placeholders_distinct cg'.
Proof.
  intros (_ & _ & P & _ & _ & new & I & _) [Hnd Hlt]. unfold placeholders_distinct.
  rewrite P, I. split; [assumption|].
  intros index Hin. rewrite length_app. apply Hlt in Hin. lia.
Qed.

Lemma placeholders_distinct_markLabel (labelId : Z) (cg : Codegen.t) :
  placeholders_distinct cg -> placeholders_distinct (markLabel labelId cg).
Proof. trivial. Qed.

Lemma placeholders_distinct_placeholder (o : Opcode) (labelId : Z) (cg : Codegen.t) :
  o = JZ \/ o = JMP ->
  placeholders_distinct cg -> placeholders_distinct (emitJumpPlaceholder o labelId cg).
Proof.
  intros _ [Hnd Hlt]. unfold placeholders_distinct. cbn.
  rewrite fmap_app. cbn. split.
  - apply NoDup_app. split; [assumption|]. split; [|apply NoDup_singleton].
    intros index Hin Hlast. apply list_elem_of_singleton in Hlast. subst.
    apply Hlt in Hin. lia.
  - intros index Hin. rewrite length_app. cbn.
    apply elem_of_app in Hin as [Hin | Hin].
    + apply Hlt in Hin. lia.
    + apply list_elem_of_singleton in Hin. lia.
Qed.

Lemma placeholders_distinct_lowered (program : Program) :
  placeholders_distinct (lowered program).
Proof.
  apply code_invariant_lowered.
  - apply placeholders_distinct_same.
  - apply placeholders_distinct_appends.
  - apply placeholders_distinct_markLabel.
  - apply placeholders_distinct_placeholder.
  - split; [apply NoDup_nil_2|]. intros index Hin. cbn in Hin.
    now apply elem_of_nil in Hin.
Qed.

(** ** Labels *)

Lemma settles_refl (cg : Codegen.t) : settles cg cg.
Proof. split; trivial. Qed.

Lemma settles_trans (a b c : Codegen.t) : settles a b -> settles b c -> settles a c.
Proof. intros [P1 K1] [P2 K2]. split; intros l H; auto. Qed.

Lemma settles_same (cg cg' : Codegen.t) :
  labelTargets cg' = labelTargets cg ->
  labelPlaceholders cg' = labelPlaceholders cg ->
  settles cg cg'.
Proof. intros T P. unfold settles, pending. rewrite T, P. split; trivial. Qed.

Lemma settles_appends (cg cg' : Codegen.t) : appends cg cg' -> settles cg cg'.
Proof. intros (_ & T & P & _). now apply settles_same. Qed.

Lemma settles_markLabel (labelId : Z) (cg : Codegen.t) :
  settles cg (markLabel labelId cg).
Proof.
  split; intros l.
  - intros [Hp Hn]. cbn in *. split; [assumption|].
    destruct (decide (labelId = l)) as [-> | Hne].
    + now rewrite lookup_insert_eq in Hn.
    + now rewrite lookup_insert_ne in Hn.
  - intros Hs. cbn. destruct (decide (labelId = l)) as [-> | Hne].
    + rewrite lookup_insert_eq. eauto.
    + now rewrite lookup_insert_ne.
Qed.

Lemma marked_not_pending (labelId : Z) (cg : Codegen.t) :
  ~ pending (markLabel labelId cg) labelId.
Proof. intros [_ Hn]. cbn in Hn. now rewrite lookup_insert_eq in Hn. Qed.

(** A placeholder makes at most its own label pending, and loses no mark. *)
Lemma pending_placeholder (o : Opcode) (labelId l : Z) (cg : Codegen.t) :
  pending (emitJumpPlaceholder o labelId cg) l -> pending cg l \/ l = labelId.
Proof.
  intros [[index Hin] Hn]. cbn in *.
  apply elem_of_app in Hin as [Hin | Hin].
  - left. split; eauto.
  - right. apply list_elem_of_singleton in Hin. congruence.
Qed.

Lemma marked_placeholder (o : Opcode) (labelId l : Z) (cg : Codegen.t) :
  is_Some (labelTargets cg !! l) ->
  is_Some (labelTargets (emitJumpPlaceholder o labelId cg) !! l).
Proof. trivial. Qed.

Lemma settles_genStatement (stmt : Statement) :
  forall cg, settles cg (genStatement stmt cg).
Proof.
  induction stmt as [name value | expr | condition thenBranch elseBranch IHt IHe
                    | condition body IHb] using Statement_block_ind;
    intros cg; cbn [genStatement newLabel].
  - unfold letRegister.
    destruct (symbolTable (genExpression value cg) !! name) as [reg|].
    + apply settles_appends. repeat peel_appends. apply appends_genExpression.
    + apply (settles_trans _ (genExpression value cg));
        [apply settles_appends, appends_genExpression|].
      now apply settles_same.
  - apply settles_appends. repeat peel_appends. apply appends_genExpression.
  - set (c0 := with_labelCounter _ (with_labelCounter _
                 (emitCondition (genExpression condition cg)))).
    set (elseLabel := labelCounter (emitCondition (genExpression condition cg))).
    set (endLabel := labelCounter (with_labelCounter _ _)).
    assert (H0 : settles cg c0).
    { apply (settles_trans _ (emitCondition (genExpression condition cg))).
      - apply settles_appends.
        eapply appends_trans; [apply appends_genExpression | apply appends_emitCondition].
      - now apply settles_same. }
    set (c1 := emitJumpPlaceholder JZ elseLabel c0).
    pose proof (genStatements_relates settles thenBranch settles_refl settles_trans IHt c1)
      as H12.
    set (c2 := genStatements thenBranch c1) in *.
    set (c3 := emitJumpPlaceholder JMP endLabel c2).
    pose proof (settles_markLabel elseLabel c3) as H34.
    set (c4 := markLabel elseLabel c3) in *.
    pose proof (genStatements_relates settles elseBranch settles_refl settles_trans IHe c4)
      as H45.
    set (c5 := genStatements elseBranch c4) in *.
    pose proof (settles_markLabel endLabel c5) as H56.
    change (settles cg (markLabel endLabel c5)).
    split.
    + intros l Hl.
      destruct (decide (l = endLabel)) as [-> | Hend];
        [exfalso; exact (marked_not_pending _ _ Hl)|].
      apply H56, H45 in Hl.
      destruct (decide (l = elseLabel)) as [-> | Helse];
        [exfalso; exact (marked_not_pending _ _ Hl)|].
      apply H34 in Hl. apply pending_placeholder in Hl as [Hl | Hl]; [|contradiction].
      apply H12 in Hl. apply pending_placeholder in Hl as [Hl | Hl]; [|contradiction].
      now apply H0.
    + intros l Hl. apply H56, H45, H34, marked_placeholder, H12, marked_placeholder.
      now apply H0.
  - set (condLabel := labelCounter cg).
    set (endLabel := labelCounter (with_labelCounter _ cg)).
    set (c0 := markLabel condLabel (with_labelCounter _ (with_labelCounter _ cg))).
    assert (H0 : settles cg c0).
    { apply (settles_trans _ (with_labelCounter (int32 (endLabel + 1))
                                (with_labelCounter (int32 (labelCounter cg + 1)) cg))).
      - now apply settles_same.
      - apply settles_markLabel. }
    assert (Hcond : is_Some (labelTargets c0 !! condLabel))
      by (cbn; rewrite lookup_insert_eq; eauto).
    set (c1 := emitCondition (genExpression condition c0)).
    assert (H01 : settles c0 c1).
    { apply settles_appends.
      eapply appends_trans; [apply appends_genExpression | apply appends_emitCondition]. }
    set (c2 := emitJumpPlaceholder JZ endLabel c1).
    pose proof (genStatements_relates settles body settles_refl settles_trans IHb c2) as H23.
    set (c3 := genStatements body c2) in *.
    set (c4 := emitJumpPlaceholder JMP condLabel c3).
    pose proof (settles_markLabel endLabel c4) as H45.
    change (settles cg (markLabel endLabel c4)).
    split.
    + intros l Hl.
      destruct (decide (l = endLabel)) as [-> | Hend];
        [exfalso; exact (marked_not_pending _ _ Hl)|].
      apply H45 in Hl. destruct (decide (l = condLabel)) as [-> | Hc].
      * exfalso. destruct Hl as [_ Hn].
        assert (Hs : is_Some (labelTargets c4 !! condLabel))
          by (apply marked_placeholder, H23, marked_placeholder, H01, Hcond).
        rewrite Hn in Hs. now destruct Hs.
      * apply pending_placeholder in Hl as [Hl | Hl]; [|contradiction].
        apply H23 in Hl. apply pending_placeholder in Hl as [Hl | Hl]; [|contradiction].
        now apply H0, H01.
    + intros l Hl. apply H45, marked_placeholder, H23, marked_placeholder, H01.
      now apply H0.
Qed.

(** Once the target of every placeholder is known, [patchJumps] writes
    nothing to [std::cerr]. *)
Lemma patchJumps_silent (placeholders : list (nat * Z)) : forall cg,
  (forall index labelId, (index, labelId) ∈ placeholders ->
                         is_Some (labelTargets cg !! labelId)) ->
  messages (fold_left patchJump placeholders cg) = messages cg.
Proof.
  induction placeholders as [|[index labelId] l IH]; intros cg Hall; cbn [fold_left];
    [reflexivity|].
  destruct (Hall index labelId ltac:(left)) as [target Ht].
  rewrite IH.
  - unfold patchJump. now rewrite Ht.
  - intros i lab Hin. destruct (patchJump_shape cg (index, labelId)) as [-> _].
    apply (Hall i). now right.
Qed.

(** A position no placeholder names keeps its instruction. *)
Lemma patchJumps_elsewhere (placeholders : list (nat * Z)) : forall cg (k : nat),
  k ∉ placeholders.*1 ->
  instructions (fold_left patchJump placeholders cg) !! k = instructions cg !! k.
Proof.
  induction placeholders as [|[index labelId] l IH]; intros cg k Hk; cbn [fold_left];
    [reflexivity|].
  cbn in Hk. apply not_elem_of_cons in Hk as [Hne Hk].
  rewrite IH by assumption. unfold patchJump.
  destruct (labelTargets cg !! labelId); cbn; [|reflexivity].
  now rewrite list_lookup_alter_ne.
Qed.

(** With distinct positions, each placeholder ends up with the target of its
    own label in its first operand. *)
Lemma patchJumps_patches (placeholders : list (nat * Z)) : forall cg,
  NoDup placeholders.*1 ->
  forall (index : nat) (labelId : Z) (target : nat),
    (index, labelId) ∈ placeholders ->
    labelTargets cg !! labelId = Some target ->
    instructions (fold_left patchJump placeholders cg) !! index
    = with_a1 (u16 (Z.of_nat target)) <$> instructions cg !! index.
Proof.
  induction placeholders as [|[i0 l0] l IH]; intros cg Hnd index labelId target Hin Ht;
    cbn [fold_left]; [now apply elem_of_nil in Hin|].
  cbn in Hnd. apply NoDup_cons in Hnd as [Hfresh Hnd].
  apply elem_of_cons in Hin as [Heq | Hin].
  - inversion Heq; subst. rewrite patchJumps_elsewhere by assumption.
    unfold patchJump. rewrite Ht. cbn. apply list_lookup_alter_eq.
  - assert (Hne : i0 <> index).
    { intros ->. apply Hfresh. apply list_elem_of_fmap. now exists (index, labelId). }
    destruct (patchJump_shape cg (i0, l0)) as [Tp _].
    rewrite (IH (patchJump cg (i0, l0)) Hnd index labelId target Hin) by congruence.
    unfold patchJump. destruct (labelTargets cg !! l0); cbn; [|reflexivity].
    now rewrite list_lookup_alter_ne.
Qed.

(** C10.  When [patchJumps] starts, every label a placeholder waits for has
    a target.  So [patchJumps] takes the patching branch for every
    placeholder: the jump at the placeholder's position leaves with the
    target of its label as operand, and [std::cerr] after [patchJumps] is
    what it was before, without any line "Error: Unknown label ID". *)
Theorem patchJumps_knows_every_label (program : Program) :
  (forall (index : nat) (labelId : Z),
     (index, labelId) ∈ labelPlaceholders (lowered program) ->
     exists (target : nat) (jump : Instruction),
       labelTargets (lowered program) !! labelId = Some target /\
       instructions (lowered program) !! index = Some jump /\
       is_jump (op jump) /\
       Codegen.generate program !! index
       = Some (with_a1 (u16 (Z.of_nat target)) jump)) /\
  messages (generated program) = messages (lowered program).
Proof.
  assert (Hall : forall (index : nat) (labelId : Z),
            (index, labelId) ∈ labelPlaceholders (lowered program) ->
            is_Some (labelTargets (lowered program) !! labelId)).
  { intros index labelId Hin.
    destruct (labelTargets (lowered program) !! labelId) as [t|] eqn:E; [eauto|].
    exfalso.
    assert (Hp : pending (genStatements (statements program) fresh) labelId)
      by (split; [exists index; exact Hin | exact E]).
    pose proof (genStatements_relates settles (statements program) settles_refl
                  settles_trans) as Hrel.
    destruct (Hrel ltac:(apply Forall_forall; intros s _; apply settles_genStatement) fresh)
      as [Hback _].
    apply Hback in Hp. destruct Hp as [[i Hi] _]. cbn in Hi.
    now apply elem_of_nil in Hi. }
  split.
  - intros index labelId Hin.
    destruct (Hall index labelId Hin) as [target Ht].
    destruct (placeholders_are_jumps_lowered program index labelId Hin)
      as (jump & Hj & Hjump).
    exists target, jump. repeat split; try assumption.
    unfold Codegen.generate, generated, patchJumps.
    rewrite (patchJumps_patches _ _ (proj1 (placeholders_distinct_lowered program))
               index labelId target Hin Ht).
    now rewrite Hj.
  - unfold generated, patchJumps. now apply patchJumps_silent.
Qed.

Lemma patchJumps_knows_every_label_witness :
  exists (target : nat) (jump : Instruction),
    labelTargets (lowered scenario_S3) !! 0 = Some target /\
    instructions (lowered scenario_S3) !! 18%nat = Some jump /\
    is_jump (op jump) /\
    Codegen.generate scenario_S3 !! 18%nat
    = Some (with_a1 (u16 (Z.of_nat target)) jump).
Proof.
  apply (proj1 (patchJumps_knows_every_label scenario_S3) 18%nat 0).
  apply list_elem_of_lookup. exists 0%nat. reflexivity.
Defined.
(** ** Registers of variables *)

Lemma int32_add_l (a b : Z) : int32 (int32 a + b) = int32 (a + b).
Proof.
  unfold int32. f_equal.
  replace ((a + 2147483648) mod 4294967296 - 2147483648 + b + 2147483648)
    with ((a + 2147483648) mod 4294967296 + b) by lia.
  rewrite Zplus_mod_idemp_l. f_equal. lia.
Qed.

Lemma grows_refl (cg : Codegen.t) : grows cg cg.
Proof. repeat split. exists []. now rewrite app_nil_r. Qed.

Lemma grows_trans (a b c : Codegen.t) : grows a b -> grows b c -> grows a c.
Proof.
  intros (S1 & N1 & n1 & I1) (S2 & N2 & n2 & I2). repeat split; try congruence.
  exists (n1 ++ n2). rewrite I2, I1. now rewrite app_assoc.
Qed.

Lemma grows_appends (cg cg' : Codegen.t) : appends cg cg' -> grows cg cg'.
Proof. intros (S & _ & _ & N & _ & new & I & _). repeat split; eauto. Qed.

Lemma grows_placeholder (o : Opcode) (labelId : Z) (cg : Codegen.t) :
  grows cg (emitJumpPlaceholder o labelId cg).
Proof. repeat split. now exists [I1 o 0]. Qed.



Lemma grows_same (cg cg' : Codegen.t) :
  symbolTable cg' = symbolTable cg -> nextRegister cg' = nextRegister cg ->
  instructions cg' = instructions cg -> grows cg cg'.
Proof. intros S N I. repeat split; try assumption. exists []. now rewrite app_nil_r. Qed.





(** ** Programs with more than three names *)

(** [patchJumps] leaves the instructions that are not jumps where they are. *)
Lemma patchJumps_keeps (placeholders : list (nat * Z)) : forall cg,
  (forall index labelId, (index, labelId) ∈ placeholders ->
     exists j, instructions cg !! index = Some j /\ is_jump (op j)) ->
  forall (k : nat) (instr : Instruction),
    ~ is_jump (op instr) ->
    instructions cg !! k = Some instr ->
    instructions (fold_left patchJump placeholders cg) !! k = Some instr.
Proof.
  induction placeholders as [|[index labelId] l IH]; intros cg Hall k instr Hnj Hk;
    cbn [fold_left]; [assumption|].
  destruct (Hall index labelId ltac:(left)) as (j & Hj & Hjump).
  assert (Hne : index <> k) by (intros ->; rewrite Hk in Hj; inversion Hj; now subst).
  apply IH; [|assumption|].
  - intros i lab Hin. destruct (Hall i lab ltac:(now right)) as (j' & Hj' & Hjump').
    unfold patchJump. destruct (labelTargets cg !! labelId); cbn; [|eauto].
    destruct (decide (index = i)) as [-> | Hi].
    + exists (with_a1 (u16 (Z.of_nat n)) j'). split; [|assumption].
      rewrite list_lookup_alter_eq. now rewrite Hj'.
    + exists j'. split; [|assumption]. now rewrite list_lookup_alter_ne.
  - unfold patchJump. destruct (labelTargets cg !! labelId); cbn; [|assumption].
    now rewrite list_lookup_alter_ne.
Qed.

Lemma patchJumps_symbolTable (placeholders : list (nat * Z)) : forall cg,
  symbolTable (fold_left patchJump placeholders cg) = symbolTable cg.
Proof.
  induction placeholders as [|[index labelId] l IH]; intros cg; cbn [fold_left];
    [reflexivity|].
  rewrite IH. unfold patchJump. now destruct (labelTargets cg !! labelId).
Qed.







(** * Properties of the emitter *)

(** Apart from the three jumps, the emitter tells the opcodes of the table
    apart by name, and writes the operand of exactly those that have one. *)
Lemma emitter_keeps_the_other_opcodes (o o' : Opcode) :
  In o opcode_table -> In o' opcode_table ->
  ~ is_jump o -> ~ is_jump o' ->
  (Emitter.opcode_name o = Emitter.opcode_name o' -> o = o') /\
  Emitter.writes_operand o = (getInstructionSize o =? 3).
Proof.
  intros Ho Ho' Hj Hj'.
  pose (others := List.filter (fun x => negb ((x =? JMP) || (x =? JZ) || (x =? JNZ)))
                    opcode_table).
  assert (Hin : forall x, In x opcode_table -> ~ is_jump x -> In x others).
  { intros x Hx Hnj. apply filter_In. split; [assumption|].
    unfold is_jump in Hnj.
    destruct (Z.eqb_spec x JMP), (Z.eqb_spec x JZ), (Z.eqb_spec x JNZ); cbn; tauto. }
  assert (Hcheck : forallb (fun x =>
            Bool.eqb (Emitter.writes_operand x) (getInstructionSize x =? 3) &&
            forallb (fun y =>
              implb (String.eqb (Emitter.opcode_name x) (Emitter.opcode_name y)) (x =? y))
              others) others = true) by (vm_compute; reflexivity).
  rewrite forallb_forall in Hcheck.
  specialize (Hcheck o (Hin o Ho Hj)). apply andb_true_iff in Hcheck as [Hop Hname].
  split.
  - intros E. rewrite forallb_forall in Hname. specialize (Hname o' (Hin o' Ho' Hj')).
    apply String.eqb_eq in E. rewrite E in Hname. cbn in Hname. now apply Z.eqb_eq.
  - now apply Bool.eqb_prop.
Qed.

(** C2, evaluated.  [Emitter::writeToFile] has no case for [JMP], [JZ] and
    [JNZ] in either [switch]: it writes each of them as the text of a [NOP],
    without the operand.  In the file for scenario S3 the [JZ 22] and the
    [JMP 24] of the bytecode are the two lines "{Opcode::NOP},". *)
Theorem emitter_writes_jumps_as_NOP (a b : Z) :
  Emitter.instruction_text (mkInstruction JMP a b) = "    {Opcode::NOP}," +:+ nl /\
  Emitter.instruction_text (mkInstruction JZ a b) = "    {Opcode::NOP}," +:+ nl /\
  Emitter.instruction_text (mkInstruction JNZ a b) = "    {Opcode::NOP}," +:+ nl /\
  Emitter.instruction_text (I0 NOP) = "    {Opcode::NOP}," +:+ nl /\
  Codegen.generate scenario_S3 !! 18%nat = Some (I1 JZ 22) /\
  Codegen.generate scenario_S3 !! 21%nat = Some (I1 JMP 24) /\
  Emitter.writeToFile true (Codegen.generate scenario_S3)
  = (true,
     Some ("#include " +:+ String "034" "RohitVM.hpp" +:+ String "034" nl +:+
           "std::vector<Instruction> prog = {" +:+ nl +:+
           "    {Opcode::MOV, 5}," +:+ nl +:+
           "    {Opcode::PUSH, 0}," +:+ nl +:+
           "    {Opcode::POP, 1}," +:+ nl +:+
           "    {Opcode::PUSH, 1}," +:+ nl +:+
           "    {Opcode::POP, 0}," +:+ nl +:+
           "    {Opcode::PUSH, 0}," +:+ nl +:+
           "    {Opcode::MOV, 5}," +:+ nl +:+
           "    {Opcode::PUSH, 0}," +:+ nl +:+
           "    {Opcode::POP, 1}," +:+ nl +:+
           "    {Opcode::POP, 0}," +:+ nl +:+
           "    {Opcode::SUB}," +:+ nl +:+
           "    {Opcode::STE}," +:+ nl +:+
           "    {Opcode::PUSH, 0}," +:+ nl +:+
           "    {Opcode::POP, 1}," +:+ nl +:+
           "    {Opcode::MOV, 0}," +:+ nl +:+
           "    {Opcode::SUB}," +:+ nl +:+
           "    {Opcode::STE}," +:+ nl +:+
           "    {Opcode::CLE}," +:+ nl +:+
           "    {Opcode::NOP}," +:+ nl +:+
           "    {Opcode::MOV, 1}," +:+ nl +:+
           "    {Opcode::PRN}," +:+ nl +:+
           "    {Opcode::NOP}," +:+ nl +:+
           "    {Opcode::MOV, 2}," +:+ nl +:+
           "    {Opcode::PRN}," +:+ nl +:+
           "    {Opcode::HLT}," +:+ nl +:+
           "};" +:+ nl)).
Proof. repeat apply conj; vm_compute; reflexivity. Qed.
(** * Further properties of the machine *)

(** ** PUSH followed by POP *)

Lemma u16_small (z : Z) : is_u16 z -> u16 z = z.
Proof. intros H. unfold u16. now apply Z.mod_small. Qed.

(** X1.  With selectors in 0..3, a sixteen-bit value in the source register
    and [2 <= SP <= 65535], [PUSH src] followed by [POP dst] copies the
    source register into the destination register and leaves [SP] where it
    was; the two cells below [SP] hold the low and the high byte of the
    value, and nothing else has changed. *)
Theorem push_then_pop_moves_register (vm : VM) (src dst : Z) :
  length (memory vm) = Z.to_nat SIZE ->
  0 <= src <= 3 -> 0 <= dst <= 3 ->
  is_u16 (get_register src (cpu vm)) ->
  2 <= sp (cpu vm) <= 65535 ->
  executeInstruction (I1 PUSH src) vm ;;; executeInstruction (I1 POP dst)
  = Continue
      (map_cpu (set_register dst (get_register src (cpu vm)))
         (with_memory
            (mem_set
               (mem_set (memory vm) (sp (cpu vm) - 2)
                  (Z.land (get_register src (cpu vm)) 0xFF))
               (sp (cpu vm) - 1)
               (Z.land (Z.shiftr (get_register src (cpu vm)) 8) 0xFF))
            vm)).
Proof.
  intros Hlen Hsrc Hdst Hval Hsp.
  set (val := get_register src (cpu vm)) in *.
  assert (Hpush : executeInstruction (I1 PUSH src) vm = push val vm).
  { unfold val, get_register.
    assert (src = 0 \/ src = 1 \/ src = 2 \/ src = 3) as [-> | [-> | [-> | ->]]] by lia;
      reflexivity. }
  assert (Hpop : forall vm1, executeInstruction (I1 POP dst) vm1
                             = pop (set_register dst) vm1).
  { intros vm1.
    assert (dst = 0 \/ dst = 1 \/ dst = 2 \/ dst = 3) as [-> | [-> | [-> | ->]]] by lia;
      reflexivity. }
  rewrite Hpush. unfold push.
  destruct (Z.ltb_spec (sp (cpu vm)) 2) as [|_]; [lia|].
  cbn [and_then]. rewrite Hpop. unfold pop.
  cbn [cpu map_cpu with_cpu with_memory memory sp set_sp].
  assert (U1 : u16 (sp (cpu vm) - 2) = sp (cpu vm) - 2) by (apply u16_small; unfold is_u16; lia).
  rewrite U1.
  assert (U2 : u16 (sp (cpu vm) - 2 + 1) = sp (cpu vm) - 1)
    by (rewrite u16_small; unfold is_u16; lia).
  rewrite U2.
  destruct (Z.ltb_spec (SIZE - 2) (sp (cpu vm) - 2)) as [H|_]; [unfold SIZE in H; lia|].
  cbn [and_then cpu map_cpu with_cpu with_memory memory sp set_sp].
  rewrite U2.
  rewrite mem_get_set_eq
    by (rewrite length_mem_set, Hlen; unfold SIZE; lia).
  rewrite mem_get_set_ne by lia.
  rewrite mem_get_set_eq by (rewrite Hlen; unfold SIZE; lia).
  rewrite word_of_bytes by assumption.
  replace (u16 (sp (cpu vm) - 2 + 2)) with (sp (cpu vm))
    by (rewrite u16_small; unfold is_u16; lia).
  unfold map_cpu, with_cpu, with_memory, set_register.
  cbn [cpu memory breakLine cout cerr].
  destruct (cpu vm) as [a b c d s i f].
  destruct (dst =? 0), (dst =? 1), (dst =? 2); reflexivity.
Qed.

Lemma push_then_pop_moves_register_witness :
  executeInstruction (I1 PUSH 0) (map_cpu (set_ax 0x1234) new_VM)
    ;;; executeInstruction (I1 POP 3)
  = Continue
      (map_cpu (set_register 3 0x1234)
         (with_memory
            (mem_set (mem_set new_memory (65535 - 2) (Z.land 0x1234 0xFF))
               (65535 - 1) (Z.land (Z.shiftr 0x1234 8) 0xFF))
            (map_cpu (set_ax 0x1234) new_VM))).
Proof.
  apply (push_then_pop_moves_register (map_cpu (set_ax 0x1234) new_VM) 0 3).
  - apply length_replicate.
  - lia.
  - lia.
  - cbn. unfold is_u16. lia.
  - cbn. lia.
Defined.

(** ** Bytes that are no opcode *)

(** Splits a positive number into its low bits, [n] levels deep. *)
Ltac split_positive p n :=
  lazymatch n with
  | O => idtac
  | S ?n' =>
      let q := fresh "q" in
      destruct p as [q | q |]; [split_positive q n' | split_positive q n' | idtac]
  end.

Lemma unknown_opcode (o : Opcode) :
  ~ In o opcode_table ->
  getInstructionSize o = 0 /\
  forall (a b : Z) (vm : VM),
    executeInstruction (mkInstruction o a b) vm
    = handleError "Illegal Instruction" true vm.
Proof.
  intros Hout.
  destruct o as [| p | p]; [split; reflexivity | | split; reflexivity].
  split_positive p 7%nat;
    first [ split; [reflexivity | intros; reflexivity]
          | exfalso; apply Hout; unfold opcode_table; cbn [In];
            repeat (first [left; reflexivity | right]) ].
Qed.

Lemma set_ip_same (vm : VM) : map_cpu (set_ip (ip (cpu vm))) vm = vm.
Proof. destruct vm as [[a b c d s i f] m bl o e]. reflexivity. Qed.

(** X2.  When the byte at [ip] is not one of the twenty-five opcodes, the
    pass of the loop of [execute] does not move [ip] (the width found for
    the byte is 0) and ends the process with "VM Error: Illegal
    Instruction"; registers, memory and [std::cout] are as they were. *)
Theorem illegal_opcode_is_fatal (vm : VM) (n : nat) :
  is_u16 (ip (cpu vm)) ->
  ~ In (mem_get (memory vm) (ip (cpu vm))) opcode_table ->
  execute_loop (S n) vm
  = Failed (eprint ("VM Error: Illegal Instruction" +:+ nl) vm).
Proof.
  intros Hip Hout. destruct (unknown_opcode _ Hout) as [Hsize Hexec].
  cbn [execute_loop]. unfold fetchNextInstruction. rewrite Hsize.
  cbn [Z.leb Z.eqb Z.compare]. rewrite Hexec.
  rewrite Z.add_0_r, (u16_small _ Hip), set_ip_same. reflexivity.
Qed.

Lemma illegal_opcode_is_fatal_witness :
  execute_loop 1 new_VM = Failed (eprint ("VM Error: Illegal Instruction" +:+ nl) new_VM).
Proof.
  apply (illegal_opcode_is_fatal new_VM 0).
  - cbn. unfold is_u16. lia.
  - vm_compute. intros H.
    repeat (destruct H as [H | H]; [discriminate H|]). exact H.
Defined.

(** ** FLAGS is write-only *)

(** X3.  No instruction reads [FLAGS]: started from two machines that differ
    in [FLAGS] only, an instruction gives two outcomes of the same kind whose
    machines again differ in [FLAGS] only. *)
Theorem flags_are_never_read (instr : Instruction) (vm : VM) (f : Z) :
  map_outcome forget_flags (executeInstruction instr (map_cpu (set_flags f) vm))
  = map_outcome forget_flags (executeInstruction instr vm).
Proof.
  destruct instr as [o a b]. destruct vm as [[x y c d s i fl] m bl out err].
  destruct o as [| p | p]; [reflexivity | | reflexivity].
  split_positive p 7%nat; try reflexivity;
    cbn; unfold push, pop; cbn;
    repeat match goal with
           | |- context [if ?c then _ else _] => destruct c; cbn
           end;
    reflexivity.
Qed.

(** ** Where loadProgram puts the instructions *)

Lemma image_size_app (l1 l2 : list Instruction) :
  image_size (l1 ++ l2) = image_size l1 + image_size l2.
Proof. induction l1 as [|i l IH]; cbn [image_size app]; lia. Qed.

Lemma load_instruction_streams (vm : VM) (instr : Instruction) :
  cout (load_instruction vm instr) = cout vm /\
  cerr (load_instruction vm instr) = cerr vm.
Proof.
  unfold load_instruction.
  destruct (2 <=? getInstructionSize (op instr)), (getInstructionSize (op instr) =? 5);
    split; reflexivity.
Qed.

Lemma load_list_streams (program : list Instruction) : forall vm : VM,
  cout (fold_left load_instruction program vm) = cout vm /\
  cerr (fold_left load_instruction program vm) = cerr vm.
Proof.
  induction program as [|i l IH]; intros vm; cbn [fold_left]; [now split|].
  destruct (IH (load_instruction vm i)) as [-> ->]. apply load_instruction_streams.
Qed.

(** Loading writes nothing at or after the end of what it loads. *)
Lemma load_instruction_above (vm : VM) (instr : Instruction) (a : Z) :
  0 <= breakLine vm -> encodable instr ->
  breakLine vm + getInstructionSize (op instr) < SIZE ->
  breakLine vm + getInstructionSize (op instr) <= a ->
  mem_get (memory (load_instruction vm instr)) a = mem_get (memory vm) a.
Proof.
  intros Hbl (Hop & _) Hfit Ha. unfold SIZE in *.
  destruct (opcode_table_size _ Hop) as [Hsz _].
  unfold load_instruction, load_byte.
  destruct Hsz as [Hs | Hs]; rewrite Hs in *;
    cbn [Z.leb Z.eqb Z.compare Pos.compare Pos.compare_cont Pos.eqb
         memory breakLine with_memory with_breakLine].
  - apply mem_get_set_ne; lia.
  - rewrite !u16_small by (unfold is_u16; lia).
    rewrite !mem_get_set_ne by lia. reflexivity.
Qed.

Lemma load_list_above (program : list Instruction) : forall (vm : VM) (a : Z),
  length (memory vm) = Z.to_nat SIZE -> 0 <= breakLine vm ->
  Forall encodable program ->
  breakLine vm + image_size program < SIZE ->
  breakLine vm + image_size program <= a ->
  mem_get (memory (fold_left load_instruction program vm)) a = mem_get (memory vm) a.
Proof.
  induction program as [|i l IH]; intros vm a Hlen Hbl Hall Hfit Ha; cbn [fold_left];
    [reflexivity|].
  inversion Hall as [|? ? Hi Hl]; subst. cbn [image_size] in Hfit, Ha.
  pose proof (image_size_nonneg l Hl) as Hnn.
  assert (Hg : 1 <= getInstructionSize (op i) <= 3).
  { destruct Hi as (Hop & _). destruct (opcode_table_size _ Hop) as [[-> | ->] _]; lia. }
  destruct (load_instruction_spec vm i Hlen Hbl Hi ltac:(lia)) as (B & L & _).
  cbv zeta in B, L.
  rewrite IH; try assumption; try lia.
  apply load_instruction_above; try assumption; lia.
Qed.

(** X4.  Loading a list of encodable instructions whose image is shorter
    than the memory leaves the registers and both output streams alone, sets
    [breakLine] to the size of the image, and changes no cell at or after
    that address. *)
Theorem loadProgram_writes_the_image_only (program : list Instruction) (vm : VM) :
  length (memory vm) = Z.to_nat SIZE ->
  Forall encodable program ->
  image_size program < SIZE ->
  cpu (loadProgram program vm) = cpu vm /\
  cout (loadProgram program vm) = cout vm /\
  cerr (loadProgram program vm) = cerr vm /\
  breakLine (loadProgram program vm) = image_size program /\
  length (memory (loadProgram program vm)) = Z.to_nat SIZE /\
  forall a : Z,
    image_size program <= a ->
    mem_get (memory (loadProgram program vm)) a = mem_get (memory vm) a.
Proof.
  intros Hlen Hall Hfit. unfold loadProgram.
  destruct (load_list_streams program (with_breakLine 0 vm)) as [Ho He].
  destruct (load_list_spec program (with_breakLine 0 vm) Hlen ltac:(cbn; lia) Hall
              ltac:(cbn; lia)) as (B & L & _).
  cbv zeta in B, L. cbn [breakLine with_breakLine] in B.
  repeat apply conj.
  - now rewrite load_list_cpu.
  - exact Ho.
  - exact He.
  - rewrite B. lia.
  - exact L.
  - intros a Ha.
    rewrite (load_list_above program (with_breakLine 0 vm)); cbn; try assumption; lia.
Qed.

Lemma loadProgram_writes_the_image_only_witness :
  breakLine (loadProgram [I1 MOV 7; I0 PRN; I0 HLT] new_VM) = 5 /\
  mem_get (memory (loadProgram [I1 MOV 7; I0 PRN; I0 HLT] new_VM)) 5
  = mem_get (memory new_VM) 5.
Proof.
  destruct (loadProgram_writes_the_image_only [I1 MOV 7; I0 PRN; I0 HLT] new_VM)
    as (_ & _ & _ & B & _ & F).
  - apply length_replicate.
  - repeat (apply List.Forall_cons; [prove_encodable|]). apply List.Forall_nil.
  - reflexivity.
  - split; [exact B | apply F; vm_compute; discriminate].
Defined.

(** The image takes one byte for every instruction and two more for every
    instruction with an operand. *)
Lemma image_size_count (program : list Instruction) :
  Forall encodable program ->
  image_size program
  = Z.of_nat (length program) + 2 * Z.of_nat (length (wide_instructions program)).
Proof.
  unfold wide_instructions.
  induction 1 as [|i l Hi _ IH]; [reflexivity|].
  cbn [image_size length List.filter]. rewrite IH.
  destruct Hi as (Hop & _). destruct (opcode_table_size _ Hop) as [[E | E] _];
    rewrite E; cbn [Z.eqb Pos.eqb length]; lia.
Qed.

Lemma loaded_instruction_fetch
    (program : list Instruction) (vm : VM) (k : nat) (instr : Instruction) :
  length (memory vm) = Z.to_nat SIZE ->
  Forall encodable program ->
  image_size program < SIZE ->
  program !! k = Some instr ->
  image_size (take k program)
  = Z.of_nat k + 2 * Z.of_nat (length (wide_instructions (take k program))) /\
  fetchNextInstruction
    (map_cpu (set_ip (image_size (take k program))) (loadProgram program vm))
  = (instr,
     map_cpu (set_ip (image_size (take (S k) program))) (loadProgram program vm)).
Proof.
  intros Hlen Hall Hfit Hk.
  assert (Hsplit : program = take k program ++ instr :: drop (S k) program)
    by (symmetry; now apply take_drop_middle).
  assert (Hk' : (k < length program)%nat) by (eapply lookup_lt_Some; eassumption).
  set (l1 := take k program) in *. set (l2 := drop (S k) program) in *.
  assert (H1 : Forall encodable l1) by (apply Forall_take; assumption).
  assert (H2 : Forall encodable l2) by (apply Forall_drop; assumption).
  assert (Hi : encodable instr) by exact (Forall_lookup_1 _ _ _ _ Hall Hk).
  assert (Hsizes : image_size program = image_size l1 + (getInstructionSize (op instr)
                                                         + image_size l2)).
  { rewrite Hsplit at 1. now rewrite image_size_app. }
  pose proof (image_size_nonneg l1 H1) as Hn1.
  pose proof (image_size_nonneg l2 H2) as Hn2.
  assert (Hg : getInstructionSize (op instr) = 1 \/ getInstructionSize (op instr) = 3).
  { destruct Hi as (Hop & _). apply (opcode_table_size _ Hop). }
  split.
  { rewrite image_size_count by assumption. f_equal.
    unfold l1. rewrite length_take. lia. }
  assert (Htake : take (S k) program = l1 ++ [instr]).
  { unfold l1. erewrite take_S_r by eassumption. reflexivity. }
  rewrite Htake, image_size_app. cbn [image_size]. rewrite Z.add_0_r.
  (* the three stages of the load *)
  unfold loadProgram. rewrite Hsplit at 1 2. rewrite !fold_left_app. cbn [fold_left].
  set (vmA := fold_left load_instruction l1 (with_breakLine 0 vm)).
  destruct (load_list_spec l1 (with_breakLine 0 vm) Hlen ltac:(cbn; lia) H1
              ltac:(cbn; lia)) as (BA & LA & _).
  cbv zeta in BA, LA. fold vmA in BA, LA. cbn [breakLine with_breakLine] in BA.
  destruct (load_instruction_spec vmA instr LA ltac:(lia) Hi ltac:(lia))
    as (BB & LB & _ & G0 & G12).
  cbv zeta in BB, LB, G0, G12.
  set (vmB := load_instruction vmA instr) in *.
  destruct (load_list_spec l2 vmB LB ltac:(lia) H2 ltac:(lia)) as (_ & _ & FC).
  cbv zeta in FC.
  set (vmC := fold_left load_instruction l2 vmB) in *.
  unfold fetchNextInstruction.
  cbn [cpu map_cpu with_cpu ip set_ip memory].
  assert (R0 : mem_get (memory vmC) (image_size l1) = op instr)
    by (rewrite FC by lia; rewrite <- G0; f_equal; lia).
  rewrite R0.
  assert (Hip : u16 (image_size l1 + getInstructionSize (op instr))
                = image_size l1 + getInstructionSize (op instr))
    by (apply u16_small; unfold is_u16, SIZE in *; lia).
  rewrite Hip. f_equal.
  destruct instr as [o w1 w2]. destruct Hi as (_ & Ha1 & Ha2 & Hz). cbn in *. subst w2.
  destruct Hg as [E | E]; rewrite E in *;
    cbn [Z.leb Z.eqb Z.compare Pos.compare Pos.compare_cont Pos.eqb].
  - now rewrite Hz.
  - destruct (G12 eq_refl) as [Glo Ghi]. unfold SIZE in *.
    rewrite !u16_small by (unfold is_u16; lia).
    rewrite !FC by lia.
    replace (image_size l1 + 1) with (breakLine vmA + 1) by lia.
    replace (image_size l1 + 2) with (breakLine vmA + 2) by lia.
    rewrite Glo, Ghi. now rewrite word_of_bytes.
Qed.

(** X5.  In a loaded image of encodable instructions, instruction [k] of the
    list starts at the address that is [k] plus twice the number of
    instructions with an operand before it: a fetch with [ip] at that
    address returns the instruction and moves [ip] to the address of
    instruction [k + 1]. *)
Theorem fetch_at_instruction_address
    (program : list Instruction) (vm : VM) (k : nat) (instr : Instruction) :
  length (memory vm) = Z.to_nat SIZE ->
  Forall encodable program ->
  image_size program < SIZE ->
  program !! k = Some instr ->
  image_size (take k program)
  = Z.of_nat k + 2 * Z.of_nat (length (wide_instructions (take k program))) /\
  fetchNextInstruction
    (map_cpu (set_ip (image_size (take k program))) (loadProgram program vm))
  = (instr,
     map_cpu (set_ip (image_size (take (S k) program))) (loadProgram program vm)).
Proof. apply loaded_instruction_fetch. Qed.

Lemma fetch_at_instruction_address_witness :
  fetchNextInstruction
    (map_cpu (set_ip (image_size (take 1 [I1 MOV 7; I0 PRN; I0 HLT])))
       (loadProgram [I1 MOV 7; I0 PRN; I0 HLT] new_VM))
  = (I0 PRN,
     map_cpu (set_ip (image_size (take 2 [I1 MOV 7; I0 PRN; I0 HLT])))
       (loadProgram [I1 MOV 7; I0 PRN; I0 HLT] new_VM)).
Proof.
  apply (fetch_at_instruction_address [I1 MOV 7; I0 PRN; I0 HLT] new_VM 1 (I0 PRN)).
  - apply length_replicate.
  - repeat (apply List.Forall_cons; [prove_encodable|]). apply List.Forall_nil.
  - reflexivity.
  - reflexivity.
Defined.

(** * Further properties of the code generator *)

(** ** The instructions of the lowering *)

Lemma encodable_I0 (o : Opcode) : In o opcode_table -> encodable (I0 o).
Proof. intros Ho. repeat split; cbn; unfold is_u16; try lia; assumption. Qed.

Lemma encodable_I1 (o : Opcode) (a : Z) :
  In o opcode_table -> getInstructionSize o = 3 -> is_u16 a -> encodable (I1 o a).
Proof.
  intros Ho Hs Ha. repeat split; cbn; try assumption; try apply Ha.
  intros H. rewrite Hs in H. discriminate H.
Qed.

Lemma is_u16_u16 (z : Z) : is_u16 (u16 z).
Proof. unfold is_u16, u16. apply Z.mod_pos_bound. lia. Qed.

(** Closes [In o opcode_table] for an opcode that is written out. *)
Ltac in_opcode_table :=
  unfold opcode_table; cbn [In]; repeat (first [left; reflexivity | right]).

(** Closes [lowering_instruction] for [I0 o] and [I1 o a] with [o] written
    out, given that [a] fits sixteen bits. *)
Ltac lowering_instruction_tac :=
  split; [|cbn; discriminate];
  first [ apply encodable_I0; in_opcode_table
        | apply encodable_I1;
          [in_opcode_table | reflexivity
          | first [apply is_u16_u16 | unfold is_u16; lia | eauto]] ].

Lemma well_formed_emit (instr : Instruction) (cg : Codegen.t) :
  lowering_instruction instr -> well_formed cg -> well_formed (emit instr cg).
Proof.
  intros Hi [Ht Hl]. split; [exact Ht|]. cbn. apply Forall_app. split; [exact Hl|].
  apply List.Forall_cons; [exact Hi | apply List.Forall_nil].
Qed.

Lemma well_formed_same (cg cg' : Codegen.t) :
  symbolTable cg' = symbolTable cg -> instructions cg' = instructions cg ->
  well_formed cg -> well_formed cg'.
Proof. unfold well_formed. intros -> ->. trivial. Qed.

Lemma well_formed_genExpression (expr : Expression) :
  forall cg, well_formed cg -> well_formed (genExpression expr cg).
Proof.
  induction expr as [value | name | bop lhs IHl rhs IHr | ]; intros cg Hcg;
    cbn [genExpression].
  - apply well_formed_emit; [lowering_instruction_tac | assumption].
  - destruct (symbolTable cg !! name) as [reg|] eqn:E.
    + pose proof (proj1 Hcg name reg E) as Hreg.
      apply well_formed_emit; [lowering_instruction_tac|].
      apply well_formed_emit; [lowering_instruction_tac | assumption].
    + apply well_formed_emit; [lowering_instruction_tac|].
      now apply (well_formed_same cg).
  - set (operands := emit (I1 POP 0) (emit (I1 POP 1) (emit (I1 PUSH 0)
                       (genExpression rhs (emit (I1 PUSH 0) (genExpression lhs cg)))))).
    assert (H : well_formed operands).
    { unfold operands. repeat (apply well_formed_emit; [lowering_instruction_tac|]).
      apply IHr. apply well_formed_emit; [lowering_instruction_tac|]. now apply IHl. }
    clearbody operands.
    destruct bop; repeat (apply well_formed_emit; [lowering_instruction_tac|]); exact H.
  - assumption.
Qed.

Lemma well_formed_letRegister (name : string) (cg : Codegen.t) :
  well_formed cg ->
  is_u16 (fst (letRegister name cg)) /\ well_formed (snd (letRegister name cg)).
Proof.
  intros [Ht Hl]. unfold letRegister.
  destruct (symbolTable cg !! name) as [reg|] eqn:E; cbn [fst snd].
  - split; [now apply (Ht name) | now split].
  - split; [apply is_u16_u16|]. split; [|exact Hl]. cbn. intros n r Hn.
    destruct (decide (name = n)) as [-> | Hne].
    + rewrite lookup_insert_eq in Hn. inversion Hn. apply is_u16_u16.
    + rewrite lookup_insert_ne in Hn by assumption. now apply (Ht n).
Qed.

(** Peels the outermost step of [genStatement] off a [well_formed] goal. *)
Ltac peel_well_formed :=
  match goal with
  | |- well_formed (markLabel ?l ?x) =>
      apply (well_formed_same x); [reflexivity | reflexivity |]
  | |- well_formed (with_labelCounter ?n ?x) =>
      apply (well_formed_same x); [reflexivity | reflexivity |]
  | |- well_formed (emitJumpPlaceholder ?o ?l ?x) =>
      apply (well_formed_emit (I1 o 0)
               (with_labelPlaceholders
                  (labelPlaceholders x ++ [(length (instructions x), l)]) x));
      [lowering_instruction_tac | apply (well_formed_same x); [reflexivity | reflexivity |]]
  | |- well_formed (emitCondition ?x) =>
      unfold emitCondition; repeat (apply well_formed_emit; [lowering_instruction_tac|])
  | |- well_formed (genExpression ?e ?x) => apply well_formed_genExpression
  | |- well_formed (emit ?i ?x) => apply well_formed_emit; [lowering_instruction_tac|]
  | H : Forall _ ?l |- well_formed (fold_left _ ?l ?x) =>
      apply (genStatements_preserves well_formed l H x)
  end.

Lemma well_formed_genStatement (stmt : Statement) :
  forall cg, well_formed cg -> well_formed (genStatement stmt cg).
Proof.
  induction stmt as [name value | expr | condition thenBranch elseBranch IHt IHe
                    | condition body IHb] using Statement_block_ind;
    intros cg Hcg; cbn [genStatement newLabel].
  - pose proof (well_formed_letRegister name (genExpression value cg)
                  (well_formed_genExpression value cg Hcg)) as [Hreg Hwf].
    destruct (letRegister name (genExpression value cg)) as [reg cg1]. cbn [fst snd] in *.
    apply well_formed_emit; [lowering_instruction_tac|].
    apply well_formed_emit; [lowering_instruction_tac | assumption].
  - now repeat peel_well_formed.
  - now repeat peel_well_formed.
  - now repeat peel_well_formed.
Qed.

Lemma well_formed_statements (program : Program) :
  well_formed (genStatements (statements program) fresh).
Proof.
  apply genStatements_preserves.
  - apply Forall_forall. intros s _. apply well_formed_genStatement.
  - split; [|constructor]. intros name reg H. cbn in H. now rewrite lookup_empty in H.
Qed.

(** [patchJumps] keeps every opcode where it is. *)
Lemma patchJumps_opcodes (placeholders : list (nat * Z)) : forall cg,
  op <$> instructions (fold_left patchJump placeholders cg) = op <$> instructions cg.
Proof.
  induction placeholders as [|[index labelId] l IH]; intros cg; cbn [fold_left];
    [reflexivity|].
  rewrite IH. unfold patchJump. destruct (labelTargets cg !! labelId); cbn; [|reflexivity].
  apply list_eq. intros k. rewrite !list_lookup_fmap.
  destruct (decide (index = k)) as [-> | Hne].
  - rewrite list_lookup_alter_eq. now destruct (instructions cg !! k).
  - now rewrite list_lookup_alter_ne.
Qed.

(** A property of instructions that a new first operand of sixteen bits does
    not take from a jump is kept by [patchJumps]. *)
Lemma patchJumps_Forall (Q : Instruction -> Prop) (placeholders : list (nat * Z)) :
  (forall i v, is_jump (op i) -> is_u16 v -> Q i -> Q (with_a1 v i)) ->
  forall cg,
    (forall index labelId, (index, labelId) ∈ placeholders ->
       exists j, instructions cg !! index = Some j /\ is_jump (op j)) ->
    Forall Q (instructions cg) ->
    Forall Q (instructions (fold_left patchJump placeholders cg)).
Proof.
  intros HQ.
  induction placeholders as [|[index labelId] l IH]; intros cg Hall Hcg; cbn [fold_left];
    [assumption|].
  destruct (Hall index labelId ltac:(left)) as (j & Hj & Hjump).
  apply IH.
  - intros i lab Hin. destruct (Hall i lab ltac:(now right)) as (j' & Hj' & Hjump').
    unfold patchJump. destruct (labelTargets cg !! labelId); cbn; [|eauto].
    destruct (decide (index = i)) as [-> | Hi].
    + exists (with_a1 (u16 (Z.of_nat n)) j'). split; [|assumption].
      rewrite list_lookup_alter_eq. now rewrite Hj'.
    + exists j'. split; [|assumption]. now rewrite list_lookup_alter_ne.
  - unfold patchJump. destruct (labelTargets cg !! labelId); cbn; [|assumption].
    apply Forall_alter; [assumption|].
    intros x Hx Hqx. rewrite Hj in Hx. inversion Hx; subst.
    apply HQ; [assumption | apply is_u16_u16 | assumption].
Qed.

Lemma encodable_with_a1 (i : Instruction) (v : Z) :
  is_jump (op i) -> is_u16 v -> encodable i -> encodable (with_a1 v i).
Proof.
  intros Hj Hv (Hop & _ & Ha2 & _). repeat split; cbn; try assumption; try apply Hv.
  intros Hs. exfalso. destruct Hj as [E | [E | E]]; rewrite E in Hs; discriminate Hs.
Qed.

Lemma generate_encodable (program : Program) :
  Forall encodable (Codegen.generate program).
Proof.
  unfold Codegen.generate, generated, patchJumps.
  apply patchJumps_Forall.
  - apply encodable_with_a1.
  - apply placeholders_are_jumps_lowered.
  - unfold lowered. cbn. apply Forall_app. split.
    + eapply Forall_impl; [apply (well_formed_statements program)|].
      now intros i [Hi _].
    + apply List.Forall_cons; [|apply List.Forall_nil].
      apply encodable_I0. in_opcode_table.
Qed.

(** X6.  Every instruction [generate] returns is encodable: its opcode is
    one of the table, its first operand fits sixteen bits and is 0 when the
    opcode has no operand bytes, and its second operand is 0. *)
Theorem generate_emits_encodable_instructions (program : Program) :
  Forall encodable (Codegen.generate program).
Proof. apply generate_encodable. Qed.

(** X7.  The list [generate] returns ends with [HLT], and no instruction
    before that last one is a [HLT]. *)
Theorem generate_ends_with_the_only_HLT (program : Program) :
  exists body : list Instruction,
    Codegen.generate program = body ++ [I0 HLT] /\
    Forall (fun i => op i <> HLT) body.
Proof.
  set (before := instructions (genStatements (statements program) fresh)).
  assert (Hlow : instructions (lowered program) = before ++ [I0 HLT]) by reflexivity.
  assert (Hops : op <$> Codegen.generate program = (op <$> before) ++ [HLT]).
  { unfold Codegen.generate, generated, patchJumps.
    rewrite patchJumps_opcodes, Hlow, fmap_app. reflexivity. }
  assert (Hlen : length (Codegen.generate program) = S (length before)).
  { apply (f_equal length) in Hops.
    rewrite length_fmap, length_app, length_fmap in Hops. cbn in Hops. lia. }
  assert (Hlast : Codegen.generate program !! length before = Some (I0 HLT)).
  { unfold Codegen.generate, generated, patchJumps. apply patchJumps_keeps.
    - apply placeholders_are_jumps_lowered.
    - not_a_jump.
    - rewrite Hlow. rewrite lookup_app_r by lia. now rewrite Nat.sub_diag. }
  exists (take (length before) (Codegen.generate program)). split.
  - rewrite <- (take_drop (length before) (Codegen.generate program)) at 1. f_equal.
    erewrite drop_S by exact Hlast.
    rewrite drop_ge by lia. reflexivity.
  - apply Forall_lookup. intros k i Hk.
    assert (Hk' : (k < length before)%nat).
    { apply lookup_lt_Some in Hk. rewrite length_take in Hk. lia. }
    rewrite lookup_take_lt in Hk by lia.
    assert (Hop : (op <$> Codegen.generate program) !! k = Some (op i))
      by (rewrite list_lookup_fmap, Hk; reflexivity).
    rewrite Hops, lookup_app_l in Hop by (rewrite length_fmap; lia).
    rewrite list_lookup_fmap in Hop.
    destruct (before !! k) as [i0|] eqn:E0; [|discriminate Hop].
    cbn in Hop. inversion Hop as [Heq].
    destruct (well_formed_statements program) as [_ Hall].
    pose proof (Forall_lookup_1 _ _ _ _ Hall E0) as [_ Hne]. exact Hne.
Qed.


(** X8.  The compiler and the loader fit together: when the image of the
    list [generate] returns is shorter than the memory, loading the list
    into a machine with [ip] at 0 and decoding the image gives the list
    back. *)
Theorem generated_program_survives_loading (program : Program) (vm : VM) (n : nat) :
  length (memory vm) = Z.to_nat SIZE ->
  ip (cpu vm) = 0 ->
  image_size (Codegen.generate program) < SIZE ->
  (length (Codegen.generate program) <= n)%nat ->
  decode n (loadProgram (Codegen.generate program) vm) = Codegen.generate program.
Proof.
  intros Hlen Hip Hfit Hn.
  pose proof (generate_encodable program) as Hall.
  unfold loadProgram.
  destruct (load_list_spec (Codegen.generate program) (with_breakLine 0 vm) Hlen
              ltac:(cbn; lia) Hall ltac:(cbn; lia)) as (B & _ & _).
  cbv zeta in B. cbn [breakLine with_breakLine] in B.
  apply (decode_loaded (Codegen.generate program) (with_breakLine 0 vm));
    cbn [breakLine with_breakLine]; try assumption; try lia; try reflexivity.
  now rewrite load_list_cpu.
Qed.

Lemma generated_program_survives_loading_witness :
  decode 25 (loadProgram (Codegen.generate scenario_S3) new_VM)
  = Codegen.generate scenario_S3.
Proof.
  apply generated_program_survives_loading.
  - apply length_replicate.
  - reflexivity.
  - reflexivity.
  - vm_compute. lia.
Defined.

(** ** The symbol table *)

Lemma symbolTable_letRegister (name : string) (cg : Codegen.t) :
  symbolTable cg ⊆ symbolTable (snd (letRegister name cg)).
Proof.
  unfold letRegister. destruct (symbolTable cg !! name) as [reg|] eqn:E; cbn [snd].
  - reflexivity.
  - cbn. now apply insert_subseteq.
Qed.

Lemma symbolTable_grows_block (stmts : list Statement) :
  Forall (fun s => forall cg, symbolTable cg ⊆ symbolTable (genStatement s cg)) stmts ->
  forall cg, symbolTable cg ⊆ symbolTable (genStatements stmts cg).
Proof.
  intros H. apply (genStatements_relates (fun c c' => symbolTable c ⊆ symbolTable c'));
    [reflexivity | intros a b c Hab Hbc; now transitivity (symbolTable b) | exact H].
Qed.

(** Peels a step that leaves the symbol table alone off a goal
    [symbolTable cg ⊆ symbolTable _]. *)
Ltac peel_symbolTable :=
  match goal with
  | |- symbolTable ?a ⊆ symbolTable (markLabel ?l ?x) =>
      change (symbolTable a ⊆ symbolTable x)
  | |- symbolTable ?a ⊆ symbolTable (with_labelCounter ?n ?x) =>
      change (symbolTable a ⊆ symbolTable x)
  | |- symbolTable ?a ⊆ symbolTable (emitJumpPlaceholder ?o ?l ?x) =>
      change (symbolTable a ⊆ symbolTable x)
  | |- symbolTable ?a ⊆ symbolTable (emit ?i ?x) =>
      change (symbolTable a ⊆ symbolTable x)
  | |- symbolTable ?a ⊆ symbolTable (emitCondition ?x) =>
      rewrite (proj1 (appends_emitCondition x))
  | |- symbolTable ?a ⊆ symbolTable (genExpression ?e ?x) =>
      rewrite (proj1 (appends_genExpression e x))
  | H : Forall _ ?l |- symbolTable ?a ⊆ symbolTable (fold_left _ ?l ?x) =>
      transitivity (symbolTable x); [|exact (symbolTable_grows_block l H x)]
  end.

Lemma symbolTable_grows_genStatement (stmt : Statement) :
  forall cg, symbolTable cg ⊆ symbolTable (genStatement stmt cg).
Proof.
  induction stmt as [name value | expr | condition thenBranch elseBranch IHt IHe
                    | condition body IHb] using Statement_block_ind;
    intros cg; cbn [genStatement newLabel].
  - pose proof (symbolTable_letRegister name (genExpression value cg)) as Hreg.
    destruct (letRegister name (genExpression value cg)) as [reg cg1]. cbn [snd] in Hreg.
    repeat peel_symbolTable.
    rewrite (proj1 (appends_genExpression value cg)) in Hreg. exact Hreg.
  - repeat peel_symbolTable. reflexivity.
  - repeat peel_symbolTable. reflexivity.
  - repeat peel_symbolTable. reflexivity.
Qed.

(** X9.  A name keeps its register: whatever a statement, with the blocks
    inside it, binds or binds again, a name that has a register before the
    statement is lowered has the same register afterwards. *)
Theorem genStatement_keeps_registers
    (stmt : Statement) (cg : Codegen.t) (name : string) (reg : Z) :
  symbolTable cg !! name = Some reg ->
  symbolTable (genStatement stmt cg) !! name = Some reg.
Proof.
  intros H. eapply lookup_weaken; [exact H | apply symbolTable_grows_genStatement].
Qed.

Lemma genStatement_keeps_registers_witness :
  symbolTable (genStatement (LetStatement "n" (NumberExpr 4))
                 (genStatement (LetStatement "n" (NumberExpr 3)) fresh)) !! "n"
  = Some 1.
Proof.
  apply genStatement_keeps_registers. reflexivity.
Defined.

(** ** Registers in the order of binding *)

Lemma elem_of_first_bindings (names : list string) : forall (seen : list string) (x : string),
  x ∈ fold_left first_binding names seen <-> x ∈ seen \/ x ∈ names.
Proof.
  induction names as [|n l IH]; intros seen x; cbn [fold_left].
  - rewrite elem_of_nil. tauto.
  - rewrite IH, elem_of_cons. unfold first_binding.
    destruct (decide (n ∈ seen)) as [Hin | Hout].
    + split; [tauto|]. intros [H | [-> | H]]; tauto.
    + rewrite elem_of_app, list_elem_of_singleton. tauto.
Qed.

Lemma allocated_in_order_grows (order : list string) (cg cg' : Codegen.t) :
  grows cg cg' -> allocated_in_order order cg -> allocated_in_order order cg'.
Proof.
  intros (S & N & _) (Hnd & Hdom & Hnext & Hreg). unfold allocated_in_order.
  rewrite S, N. tauto.
Qed.

Lemma allocated_in_order_letRegister (order : list string) (name : string) (cg : Codegen.t) :
  allocated_in_order order cg ->
  allocated_in_order (first_binding order name) (snd (letRegister name cg)).
Proof.
  intros (Hnd & Hdom & Hnext & Hreg). unfold letRegister, first_binding.
  destruct (symbolTable cg !! name) as [reg|] eqn:E; cbn [snd].
  - destruct (decide (name ∈ order)) as [_ | Hout];
      [exact (conj Hnd (conj Hdom (conj Hnext Hreg)))|].
    exfalso. apply Hout, Hdom. rewrite E. eauto.
  - destruct (decide (name ∈ order)) as [Hin | Hout].
    { apply Hdom in Hin. rewrite E in Hin. now destruct Hin. }
    assert (Hu : u16 (nextRegister cg) = u16 (Z.of_nat (length order) + 1))
      by (rewrite Hnext; apply u16_int32).
    split; [|split; [|split]]; cbn.
    + apply NoDup_app. split; [assumption|]. split; [|apply NoDup_singleton].
      intros x Hx Hlast. apply list_elem_of_singleton in Hlast. now subst.
    + intros x. destruct (decide (name = x)) as [-> | Hne].
      * rewrite lookup_insert_eq, elem_of_app, list_elem_of_singleton.
        split; [eauto | intros _; now right].
      * rewrite lookup_insert_ne by assumption.
        rewrite elem_of_app, list_elem_of_singleton, <- Hdom.
        split; [intros [H | H]; [assumption | congruence] | tauto].
    + rewrite Hnext, int32_add_l, length_app. cbn [length]. f_equal. lia.
    + intros k n Hk. destruct (decide (k < length order)%nat) as [Hlt | Hge].
      * rewrite lookup_app_l in Hk by assumption.
        assert (n <> name) by (intros ->; apply Hout; eapply list_elem_of_lookup_2; eauto).
        rewrite lookup_insert_ne by congruence. now apply Hreg.
      * rewrite lookup_app_r in Hk by lia.
        destruct (k - length order)%nat as [|d] eqn:Ed; [|destruct d; discriminate Hk].
        cbn in Hk. inversion Hk; subst.
        rewrite lookup_insert_eq, Hu. do 2 f_equal. lia.
Qed.

(** Peels a step that leaves the symbol table and [nextRegister] alone off
    an [allocated_in_order] goal. *)
Ltac peel_order :=
  match goal with
  | |- allocated_in_order ?ns (markLabel ?l ?x) =>
      apply (allocated_in_order_grows ns x); [now apply grows_same|]
  | |- allocated_in_order ?ns (with_labelCounter ?n ?x) =>
      apply (allocated_in_order_grows ns x); [now apply grows_same|]
  | |- allocated_in_order ?ns (emitJumpPlaceholder ?o ?l ?x) =>
      apply (allocated_in_order_grows ns x); [apply grows_placeholder|]
  | |- allocated_in_order ?ns (emitCondition ?x) =>
      apply (allocated_in_order_grows ns x);
      [apply grows_appends, appends_emitCondition|]
  | |- allocated_in_order ?ns (genExpression ?e ?x) =>
      apply (allocated_in_order_grows ns x);
      [apply grows_appends, appends_genExpression|]
  | |- allocated_in_order ?ns (emit ?i ?x) =>
      apply (allocated_in_order_grows ns x);
      [apply grows_appends, appends_emit; not_a_jump|]
  end.

Lemma allocated_in_order_block (stmts : list Statement) :
  Forall (fun s => forall cg order,
            allocated_in_order order cg ->
            allocated_in_order (fold_left first_binding (let_names s) order)
              (genStatement s cg)) stmts ->
  forall cg order,
    allocated_in_order order cg ->
    allocated_in_order (fold_left first_binding (flat_map let_names stmts) order)
      (genStatements stmts cg).
Proof.
  unfold genStatements.
  induction 1 as [|s l Hs _ IH]; intros cg order Hcg; cbn [flat_map fold_left];
    [assumption|].
  rewrite fold_left_app. apply IH, Hs, Hcg.
Qed.

Lemma allocated_in_order_genStatement (stmt : Statement) :
  forall cg order,
    allocated_in_order order cg ->
    allocated_in_order (fold_left first_binding (let_names stmt) order)
      (genStatement stmt cg).
Proof.
  induction stmt as [name value | expr | condition thenBranch elseBranch IHt IHe
                    | condition body IHb] using Statement_block_ind;
    intros cg order Hcg; cbn [genStatement newLabel let_names fold_left].
  - pose proof (allocated_in_order_letRegister order name (genExpression value cg)) as Hreg.
    destruct (letRegister name (genExpression value cg)) as [reg cg1]. cbn [snd] in Hreg.
    do 2 peel_order. apply Hreg. now peel_order.
  - now repeat peel_order.
  - rewrite fold_left_app. peel_order.
    apply (allocated_in_order_block elseBranch IHe). do 2 peel_order.
    apply (allocated_in_order_block thenBranch IHt). now repeat peel_order.
  - do 2 peel_order. apply (allocated_in_order_block body IHb). now repeat peel_order.
Qed.

Lemma patchJumps_nextRegister (placeholders : list (nat * Z)) : forall cg,
  nextRegister (fold_left patchJump placeholders cg) = nextRegister cg.
Proof.
  induction placeholders as [|[index labelId] l IH]; intros cg; cbn [fold_left];
    [reflexivity|].
  rewrite IH. unfold patchJump. now destruct (labelTargets cg !! labelId).
Qed.

(** X10.  After [generate], the symbol table holds exactly the names the
    program binds, and the name whose first [letbro] is the [k]-th among the
    first bindings (counting from 0) has register [k + 1], narrowed to
    sixteen bits. *)
Theorem registers_follow_the_order_of_binding (program : Program) :
  (forall name : string,
     is_Some (symbolTable (generated program) !! name) <-> name ∈ bound_names program) /\
  forall (k : nat) (name : string),
    first_bindings (bound_names program) !! k = Some name ->
    symbolTable (generated program) !! name = Some (u16 (Z.of_nat k + 1)).
Proof.
  assert (H : allocated_in_order (first_bindings (bound_names program))
                (genStatements (statements program) fresh)).
  { apply allocated_in_order_block.
    - apply Forall_forall. intros s _. apply allocated_in_order_genStatement.
    - split; [apply NoDup_nil_2 | split; [|split; [reflexivity|]]]; cbn.
      + intros name. rewrite elem_of_nil, lookup_empty. split; [tauto|].
        intros [r Hr]. discriminate Hr.
      + intros k name Hk. now rewrite lookup_nil in Hk. }
  destruct H as (_ & Hdom & _ & Hreg).
  assert (Hst : symbolTable (generated program)
                = symbolTable (genStatements (statements program) fresh))
    by (unfold generated, patchJumps; now rewrite patchJumps_symbolTable).
  rewrite Hst. split.
  - intros name. rewrite <- Hdom. unfold first_bindings.
    rewrite elem_of_first_bindings, elem_of_nil. tauto.
  - exact Hreg.
Qed.

Lemma registers_follow_the_order_of_binding_witness :
  symbolTable (generated four_names_program) !! "d" = Some (u16 (Z.of_nat 3 + 1)).
Proof.
  apply (proj2 (registers_follow_the_order_of_binding four_names_program)).
  reflexivity.
Defined.


(** * The generated code on the machine *)

(** ** Passes of the loop *)

Lemma fetch_instruction_at (vm : VM) :
  fetchNextInstruction vm
  = (instruction_at (memory vm) (ip (cpu vm)),
     map_cpu (set_ip (u16 (ip (cpu vm)
                           + getInstructionSize (mem_get (memory vm) (ip (cpu vm)))))) vm).
Proof. reflexivity. Qed.

Lemma reaches_refl (vm : VM) : reaches 0 vm vm.
Proof. intros n. reflexivity. Qed.

Lemma reaches_trans (j k : nat) (a b c : VM) :
  reaches j a b -> reaches k b c -> reaches (j + k) a c.
Proof. intros Hab Hbc n. rewrite <- Nat.add_assoc, Hab. apply Hbc. Qed.

Lemma reaches_step (vm vm2 : VM) (instr : Instruction) :
  instruction_at (memory vm) (ip (cpu vm)) = instr ->
  op instr <> HLT ->
  executeInstruction instr
    (map_cpu (set_ip (u16 (ip (cpu vm) + getInstructionSize (op instr)))) vm)
  = Continue vm2 ->
  reaches 1 vm vm2.
Proof.
  intros Hat Hne Hex n. cbn [Nat.add execute_loop].
  rewrite fetch_instruction_at, Hat.
  assert (Hop : mem_get (memory vm) (ip (cpu vm)) = op instr) by (now rewrite <- Hat).
  rewrite Hop, Hex.
  destruct (Z.eqb_spec (op instr) HLT); [contradiction | reflexivity].
Qed.

(** ** Images *)

Lemma image_at_app (m : Memory) (c1 c2 : list Instruction) : forall a,
  image_at m a (c1 ++ c2) <-> image_at m a c1 /\ image_at m (a + image_size c1) c2.
Proof.
  induction c1 as [|i l IH]; intros a; cbn [app image_at image_size].
  - rewrite Z.add_0_r. tauto.
  - rewrite IH, Z.add_assoc. tauto.
Qed.

Lemma instruction_at_agree (m m' : Memory) (a : Z) :
  In (mem_get m a) opcode_table ->
  0 <= a -> a + getInstructionSize (mem_get m a) <= SIZE ->
  (forall x, a <= x < a + getInstructionSize (mem_get m a) ->
             mem_get m' x = mem_get m x) ->
  instruction_at m' a = instruction_at m a.
Proof.
  intros Hop Ha Hfit Hsame. unfold SIZE in *.
  destruct (opcode_table_size _ Hop) as [Hsz _].
  unfold instruction_at, fetchNextInstruction.
  cbn [fst memory cpu ip set_ip new_registers].
  assert (E0 : mem_get m' a = mem_get m a) by (apply Hsame; lia).
  rewrite E0.
  destruct Hsz as [E | E]; rewrite E in *;
    cbn [Z.leb Z.eqb Z.compare Pos.compare Pos.compare_cont Pos.eqb]; [reflexivity|].
  rewrite !u16_small by (unfold is_u16; lia).
  rewrite !Hsame by lia. reflexivity.
Qed.

Lemma image_at_agree (m m' : Memory) (code : list Instruction) : forall a,
  Forall (fun i => In (op i) opcode_table) code ->
  0 <= a -> a + image_size code <= SIZE ->
  (forall x, a <= x < a + image_size code -> mem_get m' x = mem_get m x) ->
  image_at m a code -> image_at m' a code.
Proof.
  induction code as [|i l IH]; intros a Hops Ha Hfit Hsame Him; [exact I|].
  inversion Hops as [|? ? Hi Hl]; subst.
  cbn [image_at image_size] in *. destruct Him as [Hat Hrest].
  assert (Hop : mem_get m a = op i) by (now rewrite <- Hat).
  assert (Hnn : 0 <= image_size l).
  { clear -Hl. induction Hl as [|x l' Hx _ IHl]; cbn [image_size]; [lia|].
    destruct (opcode_table_size _ Hx) as [[-> | ->] _]; lia. }
  assert (Hg : 1 <= getInstructionSize (op i) <= 3)
    by (destruct (opcode_table_size _ Hi) as [[-> | ->] _]; lia).
  split.
  - rewrite <- Hat. apply instruction_at_agree; rewrite ?Hop; try assumption; try lia.
    intros x Hx. apply Hsame. lia.
  - apply IH; try assumption; try lia. intros x Hx. apply Hsame. lia.
Qed.

(** ** The code of an expression *)

Lemma instructions_emit (instr : Instruction) (cg : Codegen.t) :
  instructions (emit instr cg) = instructions cg ++ [instr].
Proof. reflexivity. Qed.

Lemma genExpression_code (expr : Expression) : forall cg,
  instructions (genExpression expr cg)
  = instructions cg ++ expression_code (symbolTable cg) expr.
Proof.
  unfold expression_code.
  induction expr as [value | name | bop lhs IHl rhs IHr | ]; intros cg;
    cbn [genExpression].
  - reflexivity.
  - cbn [symbolTable]. destruct (symbolTable cg !! name) as [reg|]; cbn;
      now rewrite <- ?app_assoc.
  - set (c0 := Codegen.mk [] (symbolTable cg) ∅ [] 1 0 "").
    assert (Hl : forall c, symbolTable c = symbolTable cg ->
              instructions (genExpression lhs c)
              = instructions c ++ instructions (genExpression lhs c0)).
    { intros c Hc. rewrite (IHl c), Hc. reflexivity. }
    assert (Hr : forall c, symbolTable c = symbolTable cg ->
              instructions (genExpression rhs c)
              = instructions c ++ instructions (genExpression rhs c0)).
    { intros c Hc. rewrite (IHr c), Hc. reflexivity. }
    assert (S1 : symbolTable (emit (I1 PUSH 0) (genExpression lhs cg)) = symbolTable cg)
      by apply (appends_genExpression lhs cg).
    assert (S2 : symbolTable (emit (I1 PUSH 0) (genExpression lhs c0)) = symbolTable cg)
      by apply (appends_genExpression lhs c0).
    destruct bop; rewrite !instructions_emit;
      rewrite (Hr _ S1), (Hr _ S2), !instructions_emit,
              (Hl cg eq_refl), (Hl c0 eq_refl);
      cbn [instructions c0]; rewrite <- !app_assoc; reflexivity.
  - now rewrite app_nil_r.
Qed.

Lemma expression_code_binary (table : gmap string Z) (bop : BinaryOp.t)
    (lhs rhs : Expression) :
  expression_code table (BinaryExpr bop lhs rhs)
  = expression_code table lhs ++ [I1 PUSH 0] ++ expression_code table rhs
    ++ [I1 PUSH 0; I1 POP 1; I1 POP 0] ++ operator_code bop.
Proof.
  unfold expression_code at 1. cbn [genExpression].
  set (c0 := Codegen.mk [] table ∅ [] 1 0 "").
  destruct bop; rewrite !instructions_emit, genExpression_code, instructions_emit,
                        genExpression_code;
    cbn [instructions symbolTable emit with_instructions c0 operator_code];
    rewrite (proj1 (appends_genExpression lhs c0)); cbn [symbolTable c0 app];
    rewrite <- !app_assoc; reflexivity.
Qed.

(** ** Registers of an evaluation *)

Lemma binary_result_moved (bop : BinaryOp.t) (r : Registers) (i s : Z) :
  binary_result bop (set_sp s (set_ip i r))
  = (fun x => set_sp s (set_ip i x)) <$> binary_result bop r.
Proof.
  destruct r as [a b c d s0 i0 f]. destruct bop; cbn; try reflexivity.
  destruct (b =? 0); reflexivity.
Qed.

Lemma get_register_moved (sel : Z) (r : Registers) (i s : Z) :
  get_register sel (set_sp s (set_ip i r)) = get_register sel r.
Proof. destruct r. unfold get_register. cbn. reflexivity. Qed.

Lemma evaluate_moved (table : gmap string Z) (expr : Expression) :
  forall (r : Registers) (i s : Z),
    evaluate table expr (set_sp s (set_ip i r))
    = (fun x => set_sp s (set_ip i x)) <$> evaluate table expr r.
Proof.
  induction expr as [value | name | bop lhs IHl rhs IHr | ]; intros r i s;
    cbn [evaluate].
  - destruct r; reflexivity.
  - destruct (table !! name) as [reg|]; [|destruct r; reflexivity].
    destruct ((0 <=? reg) && (reg <=? 3)); [|reflexivity].
    rewrite get_register_moved. destruct r; reflexivity.
  - rewrite IHl. destruct (evaluate table lhs r) as [r1|]; [|reflexivity].
    cbn [fmap option_fmap option_map]. rewrite IHr.
    destruct (evaluate table rhs r1) as [r2|]; [|reflexivity].
    cbn [fmap option_fmap option_map].
    rewrite <- binary_result_moved. destruct r1, r2; reflexivity.
  - reflexivity.
Qed.

Lemma binary_result_keeps (bop : BinaryOp.t) (r r' : Registers) :
  registers_u16 r -> binary_result bop r = Some r' ->
  registers_u16 r' /\ ip r' = ip r /\ sp r' = sp r /\ cx r' = cx r /\ dx r' = dx r.
Proof.
  intros (Ha & Hb & Hc & Hd & Hs & Hi) H.
  destruct r as [a b c d s i f]. cbn [ax bx cx dx sp ip] in *.
  assert (Hset : forall v fl, is_u16 v ->
            let x := mkRegisters v b c d s i fl in
            registers_u16 x /\ ip x = i /\ sp x = s /\ cx x = c /\ dx x = d).
  { intros v fl Hv. unfold registers_u16. cbn. tauto. }
  destruct bop; cbn [binary_result ax bx set_ax setEqual setGreater setLower setFlag
                     set_flags flags cx dx sp ip] in H.
  1-3, 5-7: inversion H; subst; apply Hset; apply is_u16_u16.
  revert H. destruct (Z.eqb_spec b 0) as [|Hne]; intros H; [discriminate H|].
  inversion H; subst. apply Hset. unfold is_u16 in *. split.
  - apply Z.div_pos; lia.
  - apply Z.le_lt_trans with a; [|lia]. apply Z.div_le_upper_bound; nia.
Qed.

Lemma get_register_u16 (sel : Z) (r : Registers) :
  registers_u16 r -> is_u16 (get_register sel r).
Proof.
  intros (Ha & Hb & Hc & Hd & _). unfold get_register.
  destruct (sel =? 0), (sel =? 1), (sel =? 2); assumption.
Qed.

Lemma set_ax_keeps (v : Z) (r : Registers) :
  registers_u16 r -> is_u16 v ->
  registers_u16 (set_ax v r) /\ ip (set_ax v r) = ip r /\
  sp (set_ax v r) = sp r /\ cx (set_ax v r) = cx r /\ dx (set_ax v r) = dx r.
Proof. intros Hr Hv. destruct r; unfold registers_u16 in *; cbn in *. tauto. Qed.

Lemma evaluate_keeps (table : gmap string Z) (expr : Expression) :
  forall r r' : Registers,
    registers_u16 r -> evaluate table expr r = Some r' ->
    registers_u16 r' /\ ip r' = ip r /\ sp r' = sp r /\ cx r' = cx r /\ dx r' = dx r.
Proof.
  induction expr as [value | name | bop lhs IHl rhs IHr | ]; intros r r' Hr H;
    cbn [evaluate] in H.
  - inversion H; subst. apply set_ax_keeps; [assumption | apply is_u16_u16].
  - destruct (table !! name) as [reg|].
    + destruct ((0 <=? reg) && (reg <=? 3)); [|discriminate H].
      inversion H; subst. apply set_ax_keeps; [assumption|]. now apply get_register_u16.
    + inversion H; subst. apply set_ax_keeps; [assumption|]. unfold is_u16. lia.
  - destruct (evaluate table lhs r) as [r1|] eqn:E1; [|discriminate H].
    destruct (evaluate table rhs r1) as [r2|] eqn:E2; [|discriminate H].
    destruct (IHl r r1 Hr E1) as (U1 & I1 & S1 & C1 & D1).
    destruct (IHr r1 r2 U1 E2) as (U2 & I2 & S2 & C2 & D2).
    apply binary_result_keeps in H.
    + destruct H as (U & I & S & C & D).
      destruct r1, r2; cbn in *. split; [exact U|]. repeat split; congruence.
    + destruct U1 as (A1 & _), U2 as (A2 & B2 & C2' & D2' & S2' & I2').
      destruct r1, r2; unfold registers_u16; cbn in *. tauto.
  - inversion H; subst. tauto.
Qed.

(** ** Single instructions *)

Section Steps.

Variable vm0 : VM.

Lemma step_MOV (r : Registers) (m : Memory) (v : Z) :
  instruction_at m (ip r) = I1 MOV v -> is_u16 (ip r + 3) ->
  reaches 1 (machine vm0 r m) (machine vm0 (set_ax v (set_ip (ip r + 3) r)) m).
Proof.
  intros Hat Hip. apply (reaches_step _ _ (I1 MOV v)); [exact Hat | discriminate |].
  unfold machine. cbn [op I1 cpu with_memory with_cpu].
  change (getInstructionSize MOV) with 3. rewrite (u16_small _ Hip). reflexivity.
Qed.

Lemma step_PUSH (r : Registers) (m : Memory) (sel : Z) :
  instruction_at m (ip r) = I1 PUSH sel -> 0 <= sel <= 3 ->
  is_u16 (ip r + 3) -> 2 <= sp r <= 65535 ->
  reaches 1 (machine vm0 r m)
    (machine vm0 (set_sp (sp r - 2) (set_ip (ip r + 3) r))
       (pushed m (sp r) (get_register sel r))).
Proof.
  intros Hat Hsel Hip Hsp.
  apply (reaches_step _ _ (I1 PUSH sel)); [exact Hat | discriminate |].
  unfold machine. cbn [op I1 cpu with_memory with_cpu].
  change (getInstructionSize PUSH) with 3. rewrite (u16_small _ Hip).
  assert (Hpush : forall vm, executeInstruction (I1 PUSH sel) vm
                             = push (get_register sel (cpu vm)) vm).
  { intros vm. unfold get_register.
    assert (sel = 0 \/ sel = 1 \/ sel = 2 \/ sel = 3) as [-> | [-> | [-> | ->]]] by lia;
      reflexivity. }
  rewrite Hpush. unfold push, pushed.
  cbn [cpu map_cpu with_cpu with_memory memory sp set_sp set_ip].
  destruct (Z.ltb_spec (sp r) 2) as [|_]; [lia|]. cbn [and_then].
  cbn [cpu map_cpu with_cpu with_memory memory sp set_sp set_ip].
  rewrite (u16_small (sp r - 2)) by (unfold is_u16; lia).
  replace (u16 (sp r - 2 + 1)) with (sp r - 1) by (rewrite u16_small; unfold is_u16; lia).
  unfold machine, with_memory, with_cpu, get_register. destruct r. reflexivity.
Qed.

Lemma step_POP (r : Registers) (m : Memory) (sel : Z) :
  instruction_at m (ip r) = I1 POP sel -> 0 <= sel <= 3 ->
  is_u16 (ip r + 3) -> 0 <= sp r <= 65533 ->
  reaches 1 (machine vm0 r m)
    (machine vm0
       (set_register sel (word_at m (sp r)) (set_sp (sp r + 2) (set_ip (ip r + 3) r)))
       m).
Proof.
  intros Hat Hsel Hip Hsp.
  apply (reaches_step _ _ (I1 POP sel)); [exact Hat | discriminate |].
  unfold machine. cbn [op I1 cpu with_memory with_cpu].
  change (getInstructionSize POP) with 3. rewrite (u16_small _ Hip).
  assert (Hpop : forall vm, executeInstruction (I1 POP sel) vm
                            = pop (set_register sel) vm).
  { intros vm.
    assert (sel = 0 \/ sel = 1 \/ sel = 2 \/ sel = 3) as [-> | [-> | [-> | ->]]] by lia;
      reflexivity. }
  rewrite Hpop. unfold pop, word_at.
  cbn [cpu map_cpu with_cpu with_memory memory sp set_sp set_ip].
  destruct (Z.ltb_spec (SIZE - 2) (sp r)) as [H|_]; [unfold SIZE in H; lia|].
  cbn [and_then].
  cbn [cpu map_cpu with_cpu with_memory memory sp set_sp set_ip].
  rewrite (u16_small (sp r + 1)) by (unfold is_u16; lia).
  rewrite (u16_small (sp r + 2)) by (unfold is_u16; lia).
  reflexivity.
Qed.

Lemma step_operator (bop : BinaryOp.t) (r r' : Registers) (m : Memory) :
  image_at m (ip r) (operator_code bop) ->
  binary_result bop r = Some r' ->
  registers_u16 r -> is_u16 (ip r + 2) ->
  reaches (length (operator_code bop)) (machine vm0 r m)
    (machine vm0 (set_ip (ip r + image_size (operator_code bop)) r') m).
Proof.
  intros Him Hres (Ha & Hb & _ & _ & _ & Hi0) Hip.
  assert (Hip1 : is_u16 (ip r + 1)) by (unfold is_u16 in *; lia).
  assert (Hone : forall (o : Opcode) (rr rr2 : Registers),
            instruction_at m (ip rr) = I0 o ->
            getInstructionSize o = 1 -> o <> HLT -> is_u16 (ip rr + 1) ->
            executeInstruction (I0 o) (machine vm0 (set_ip (ip rr + 1) rr) m)
            = Continue (machine vm0 rr2 m) ->
            reaches 1 (machine vm0 rr m) (machine vm0 rr2 m)).
  { intros o rr rr2 Hat Hs Hne Hi Hex.
    apply (reaches_step _ _ (I0 o)); [exact Hat | exact Hne |].
    unfold machine in *. cbn [op I0 cpu with_memory with_cpu] in *. rewrite Hs, (u16_small _ Hi).
    exact Hex. }
  set (R1 := set_ip (ip r + 1) (set_ax (u16 (ax r - bx r)) r)).
  assert (Hsub : instruction_at m (ip r) = I0 SUB ->
                 reaches 1 (machine vm0 r m) (machine vm0 R1 m)).
  { intros H1. apply (Hone SUB r R1 H1); [reflexivity | discriminate | exact Hip1 |].
    destruct r; cbn. rewrite u16_int32. reflexivity. }
  assert (Hflag : forall (o : Opcode) (rr : Registers),
            instruction_at m (ip r + getInstructionSize SUB) = I0 o ->
            getInstructionSize o = 1 -> o <> HLT ->
            executeInstruction (I0 o) (machine vm0 (set_ip (ip r + 2) R1) m)
            = Continue (machine vm0 (set_ip (ip r + 2) rr) m) ->
            reaches 1 (machine vm0 R1 m) (machine vm0 (set_ip (ip r + (1 + (1 + 0))) rr) m)).
  { intros o rr H2 Hs Hne Hex.
    apply (Hone o R1 _ H2 Hs Hne).
    - cbn [R1 ip set_ip]. replace (ip r + 1 + 1) with (ip r + 2) by lia. exact Hip.
    - cbn [R1 ip set_ip]. replace (ip r + 1 + 1) with (ip r + 2) by lia.
      replace (ip r + (1 + (1 + 0))) with (ip r + 2) by lia.
      subst R1. destruct r. exact Hex. }
  destruct bop; cbn [operator_code image_at length image_size op I0] in *;
    cbn [binary_result] in Hres.
  - destruct Him as [H1 _]. injection Hres as <-.
    apply (Hone ADD r _ H1); [reflexivity | discriminate | exact Hip1 |].
    destruct r; cbn. rewrite u16_int32. reflexivity.
  - destruct Him as [H1 _]. injection Hres as <-.
    apply (Hone SUB r _ H1); [reflexivity | discriminate | exact Hip1 |].
    destruct r; cbn. rewrite u16_int32. reflexivity.
  - destruct Him as [H1 _]. injection Hres as <-.
    apply (Hone MUL r _ H1); [reflexivity | discriminate | exact Hip1 |].
    destruct r; cbn. rewrite u16_int32. reflexivity.
  - destruct Him as [H1 _]. revert Hres.
    destruct (Z.eqb_spec (bx r) 0) as [|Hne]; intros Hres; [discriminate Hres|].
    injection Hres as <-.
    apply (Hone DIV r _ H1); [reflexivity | discriminate | exact Hip1 |].
    destruct r as [a b c d s i f]. cbn in *.
    destruct (Z.eqb_spec b 0) as [|_]; [contradiction|]. cbn.
    unfold is_u16 in *. rewrite Z.quot_div_nonneg by lia.
    rewrite u16_small; [reflexivity|]. unfold is_u16. split.
    + apply Z.div_pos; lia.
    + apply Z.le_lt_trans with a; [|lia]. apply Z.div_le_upper_bound; nia.
  - destruct Him as [H1 [H2 _]]. injection Hres as <-.
    change 2%nat with (1 + 1)%nat.
    apply (reaches_trans _ _ _ _ _ (Hsub H1)).
    apply (Hflag STE _ H2); [reflexivity | discriminate |].
    subst R1. destruct r. reflexivity.
  - destruct Him as [H1 [H2 _]]. injection Hres as <-.
    change 2%nat with (1 + 1)%nat.
    apply (reaches_trans _ _ _ _ _ (Hsub H1)).
    apply (Hflag STG _ H2); [reflexivity | discriminate |].
    subst R1. destruct r. reflexivity.
  - destruct Him as [H1 [H2 _]]. injection Hres as <-.
    change 2%nat with (1 + 1)%nat.
    apply (reaches_trans _ _ _ _ _ (Hsub H1)).
    apply (Hflag STL _ H2); [reflexivity | discriminate |].
    subst R1. destruct r. reflexivity.
Qed.

End Steps.

(** ** Pushed words *)

Lemma length_pushed (m : Memory) (s v : Z) : length (pushed m s v) = length m.
Proof. unfold pushed. now rewrite !length_mem_set. Qed.

Lemma pushed_other (m : Memory) (s v x : Z) :
  2 <= s -> 0 <= x -> x < s - 2 \/ s <= x ->
  mem_get (pushed m s v) x = mem_get m x.
Proof.
  intros Hs Hx Hout. unfold pushed. rewrite !mem_get_set_ne by lia. reflexivity.
Qed.

Lemma word_at_pushed (m : Memory) (s v : Z) :
  length m = Z.to_nat SIZE -> 2 <= s <= SIZE -> is_u16 v ->
  word_at (pushed m s v) (s - 2) = v.
Proof.
  intros Hlen Hs Hv. unfold word_at, pushed, SIZE in *.
  replace (s - 2 + 1) with (s - 1) by lia.
  rewrite mem_get_set_eq by (rewrite length_mem_set; lia).
  rewrite mem_get_set_ne by lia.
  rewrite mem_get_set_eq by lia.
  now apply word_of_bytes.
Qed.

Lemma word_at_agree (m m' : Memory) (a : Z) :
  mem_get m' a = mem_get m a -> mem_get m' (a + 1) = mem_get m (a + 1) ->
  word_at m' a = word_at m a.
Proof. intros H0 H1. unfold word_at. now rewrite H0, H1. Qed.

Lemma instruction_at_transfer (m m' : Memory) (a : Z) (i : Instruction) :
  instruction_at m a = i -> In (op i) opcode_table ->
  0 <= a -> a + 3 <= SIZE ->
  (forall x, a <= x < a + 3 -> mem_get m' x = mem_get m x) ->
  instruction_at m' a = i.
Proof.
  intros Hat Hop Ha Hfit Hsame.
  assert (E : mem_get m a = op i) by (now rewrite <- Hat).
  rewrite <- Hat. apply instruction_at_agree; rewrite ?E; try assumption.
  - destruct (opcode_table_size _ Hop) as [[-> | ->] _]; lia.
  - intros x Hx. apply Hsame.
    destruct (opcode_table_size _ Hop) as [[Hs | Hs] _]; rewrite Hs in Hx; lia.
Qed.

Lemma instruction_at_transfer_1 (m m' : Memory) (a : Z) (i : Instruction) :
  instruction_at m a = i -> In (op i) opcode_table ->
  getInstructionSize (op i) = 1 ->
  0 <= a -> a + 1 <= SIZE ->
  mem_get m' a = mem_get m a ->
  instruction_at m' a = i.
Proof.
  intros Hat Hop Hs Ha Hfit Hsame.
  assert (E : mem_get m a = op i) by (now rewrite <- Hat).
  rewrite <- Hat. apply instruction_at_agree; rewrite ?E, ?Hs; try assumption.
  intros x Hx. now replace x with a by lia.
Qed.

Lemma expression_code_opcodes (table : gmap string Z) (expr : Expression) :
  Forall (fun i => In (op i) opcode_table) (expression_code table expr).
Proof.
  induction expr as [value | name | bop lhs IHl rhs IHr | ].
  - apply List.Forall_cons; [in_opcode_table | apply List.Forall_nil].
  - unfold expression_code. cbn [genExpression symbolTable].
    destruct (table !! name) as [reg|]; cbn;
      repeat (apply List.Forall_cons; [in_opcode_table|]); apply List.Forall_nil.
  - rewrite expression_code_binary.
    apply Forall_app; split; [exact IHl|].
    apply List.Forall_cons; [in_opcode_table|].
    apply Forall_app; split; [exact IHr|].
    do 3 (apply List.Forall_cons; [in_opcode_table|]).
    destruct bop; cbn [operator_code];
      repeat (apply List.Forall_cons; [in_opcode_table|]); apply List.Forall_nil.
  - apply List.Forall_nil.
Qed.

Lemma stack_need_nonneg (expr : Expression) : 0 <= stack_need expr.
Proof. induction expr; cbn [stack_need]; lia. Qed.

Lemma registers_u16_moved (r : Registers) (s i : Z) :
  registers_u16 r -> is_u16 s -> is_u16 i -> registers_u16 (set_sp s (set_ip i r)).
Proof.
  intros (Ha & Hb & Hc & Hd & _ & _) Hs Hi. destruct r. unfold registers_u16. cbn in *.
  tauto.
Qed.

Lemma image_size_pos (code : list Instruction) :
  Forall (fun i => In (op i) opcode_table) code -> 0 <= image_size code.
Proof.
  induction 1 as [|x l Hx _ IH]; cbn [image_size]; [lia|].
  destruct (opcode_table_size _ Hx) as [[-> | ->] _]; lia.
Qed.

(** ** Running the code of an expression *)

(** Closes an equation between two register files built with the setters. *)
Ltac registers_eq :=
  unfold set_sp, set_ip, set_ax, set_bx, set_cx, set_dx, set_flags;
  cbn [ax bx cx dx sp ip flags] in *;
  f_equal; try lia; try congruence.

Section RunExpression.

Variable vm0 : VM.
Variable table : gmap string Z.

Lemma step_PUSH_to (r r2 : Registers) (m m2 : Memory) (sel : Z) :
  instruction_at m (ip r) = I1 PUSH sel -> 0 <= sel <= 3 ->
  is_u16 (ip r + 3) -> 2 <= sp r <= 65535 ->
  r2 = set_sp (sp r - 2) (set_ip (ip r + 3) r) ->
  m2 = pushed m (sp r) (get_register sel r) ->
  reaches 1 (machine vm0 r m) (machine vm0 r2 m2).
Proof. intros ? ? ? ? -> ->. now apply step_PUSH. Qed.

Lemma step_POP_to (r r2 : Registers) (m : Memory) (sel : Z) :
  instruction_at m (ip r) = I1 POP sel -> 0 <= sel <= 3 ->
  is_u16 (ip r + 3) -> 0 <= sp r <= 65533 ->
  r2 = set_register sel (word_at m (sp r)) (set_sp (sp r + 2) (set_ip (ip r + 3) r)) ->
  reaches 1 (machine vm0 r m) (machine vm0 r2 m).
Proof. intros ? ? ? ? ->. now apply step_POP. Qed.

Lemma step_operator_to (bop : BinaryOp.t) (r r' r2 : Registers) (m : Memory) :
  image_at m (ip r) (operator_code bop) ->
  binary_result bop r = Some r' ->
  registers_u16 r -> is_u16 (ip r + 2) ->
  r2 = set_ip (ip r + image_size (operator_code bop)) r' ->
  reaches (length (operator_code bop)) (machine vm0 r m) (machine vm0 r2 m).
Proof. intros ? ? ? ? ->. now apply step_operator. Qed.


Lemma run_expression (expr : Expression) :
  forall (r r' : Registers) (m : Memory),
    evaluate table expr r = Some r' ->
    registers_u16 r -> length m = Z.to_nat SIZE ->
    image_at m (ip r) (expression_code table expr) ->
    ip r + image_size (expression_code table expr) + stack_need expr <= sp r ->
    exists m' : Memory,
      length m' = Z.to_nat SIZE /\
      (forall a, 0 <= a -> a < sp r - stack_need expr \/ sp r <= a ->
                 mem_get m' a = mem_get m a) /\
      reaches (length (expression_code table expr)) (machine vm0 r m)
        (machine vm0 (set_ip (ip r + image_size (expression_code table expr)) r') m').
Proof.
  induction expr as [value | name | bop lhs IHl rhs IHr | ];
    intros r r' m Hev Hr Hlen Him Hfit.
  - (* a number *)
    cbn [evaluate] in Hev. injection Hev as <-.
    exists m. split; [exact Hlen|]. split; [reflexivity|].
    destruct Him as [Hat _]. cbn [stack_need] in Hfit.
    change (image_size (expression_code table (NumberExpr value))) with 3 in *.
    pose proof Hr as (_ & _ & _ & _ & Hs & Hi). unfold is_u16 in Hs, Hi.
    replace (set_ip (ip r + 3) (set_ax (u16 value) r))
      with (set_ax (u16 value) (set_ip (ip r + 3) r)) by (destruct r as [a0 b0 c0 d0 s0 i0 f0]; reflexivity).
    apply step_MOV; [exact Hat | unfold is_u16; lia].
  - (* a name *)
    cbn [evaluate] in Hev. unfold expression_code in *.
    cbn [genExpression symbolTable stack_need] in *.
    pose proof Hr as (_ & _ & _ & _ & Hs & Hi). unfold is_u16 in Hs, Hi.
    destruct (table !! name) as [reg|].
    + destruct (Z.leb_spec 0 reg) as [H0|]; [|discriminate Hev].
      destruct (Z.leb_spec reg 3) as [H3|]; [|discriminate Hev].
      cbn [andb] in Hev. injection Hev as <-.
      unfold emit, with_instructions in *.
      cbn [instructions app image_at image_size length op I1] in *.
      change (getInstructionSize PUSH) with 3 in *.
      change (getInstructionSize POP) with 3 in *.
      destruct Him as (Hpush & Hpop & _).
      set (v := get_register reg r).
      assert (Hv : is_u16 v) by (now apply get_register_u16).
      exists (pushed m (sp r) v).
      split; [now rewrite length_pushed|].
      split; [intros a Ha Hout; apply pushed_other; lia|].
      apply (reaches_trans 1 1 _
               (machine vm0 (set_sp (sp r - 2) (set_ip (ip r + 3) r))
                  (pushed m (sp r) v))).
      * apply step_PUSH; [exact Hpush | lia | unfold is_u16; lia | lia].
      * apply step_POP_to with (sel := 0).
        -- apply (instruction_at_transfer m); [exact Hpop | in_opcode_table | | | ];
             cbn [ip set_ip set_sp]; unfold SIZE; try lia.
           intros x Hx. apply pushed_other; lia.
        -- lia.
        -- cbn [ip set_ip set_sp]. unfold is_u16. lia.
        -- cbn [sp set_sp]. lia.
        -- cbn [ip sp set_ip set_sp].
           replace (sp r - 2 + 2) with (sp r) by lia.
           rewrite word_at_pushed by (unfold SIZE; try assumption; lia).
           change (set_register 0 v ?x) with (set_ax v x).
           destruct r as [a0 b0 c0 d0 s0 i0 f0]; registers_eq.
    + injection Hev as <-.
      unfold emit, complain, with_instructions in *.
      cbn [instructions app image_at image_size length op I1] in *.
      change (getInstructionSize MOV) with 3 in *.
      destruct Him as [Hat _].
      exists m. split; [exact Hlen|]. split; [reflexivity|].
      replace (set_ip (ip r + (3 + 0)) (set_ax 0 r))
        with (set_ax 0 (set_ip (ip r + 3) r)) by (destruct r as [a0 b0 c0 d0 s0 i0 f0]; registers_eq).
      apply step_MOV; [exact Hat | unfold is_u16; lia].
  - (* a binary expression *)
    cbn [evaluate stack_need] in Hev, Hfit |- *.
    destruct (evaluate table lhs r) as [r1|] eqn:E1; [|discriminate Hev].
    destruct (evaluate table rhs r1) as [r2|] eqn:E2; [|discriminate Hev].
    destruct (evaluate_keeps _ _ _ _ Hr E1) as (Hr1 & Hi1 & Hs1 & _).
    destruct (evaluate_keeps _ _ _ _ Hr1 E2) as (Hr2 & Hi2 & Hs2 & _).
    rewrite expression_code_binary in *.
    set (cl := expression_code table lhs) in *.
    set (cr := expression_code table rhs) in *.
    set (oc := operator_code bop) in *.
    pose proof (image_size_pos _ (expression_code_opcodes table lhs)) as Hsl.
    pose proof (image_size_pos _ (expression_code_opcodes table rhs)) as Hsr.
    assert (Hso : 1 <= image_size oc <= 2) by (subst oc; destruct bop; vm_compute; split; discriminate).
    pose proof (stack_need_nonneg lhs) as Hnl.
    pose proof (stack_need_nonneg rhs) as Hnr.
    fold cl cr in Hsl, Hsr.
    set (sl := image_size cl) in *. set (sr := image_size cr) in *.
    set (so := image_size oc) in *.
    set (nl := stack_need lhs) in *. set (nr := stack_need rhs) in *.
    set (need := Z.max nl (2 + Z.max nr 2)) in *.
    assert (Hsize : image_size (cl ++ [I1 PUSH 0] ++ cr
                                ++ [I1 PUSH 0; I1 POP 1; I1 POP 0] ++ oc)
                    = sl + (3 + (sr + (9 + so)))).
    { rewrite !image_size_app. reflexivity. }
    rewrite Hsize in *.
    assert (Hcount : length (cl ++ [I1 PUSH 0] ++ cr
                             ++ [I1 PUSH 0; I1 POP 1; I1 POP 0] ++ oc)
                     = (length cl + (1 + (length cr + (1 + (1 + (1 + length oc))))))%nat).
    { rewrite !length_app. reflexivity. }
    rewrite Hcount.
    apply image_at_app in Him as [Iml Him]. fold sl in Him.
    cbn [app image_at op I1] in Him. change (getInstructionSize PUSH) with 3 in Him.
    destruct Him as [Ipush1 Him].
    apply image_at_app in Him as [Imr Him]. fold sr in Him.
    cbn [app image_at op I1] in Him.
    change (getInstructionSize PUSH) with 3 in Him.
    change (getInstructionSize POP) with 3 in Him.
    destruct Him as (Ipush2 & Ipop1 & Ipop0 & Imo).
    destruct Hr as (Hax & Hbx & Hcx & Hdx & Hsp & Hip).
    assert (Hr' : registers_u16 r) by (unfold registers_u16; tauto).
    unfold is_u16 in Hsp, Hip.
    set (s := sp r) in *. set (i := ip r) in *.
    (* the left operand *)
    destruct (IHl r r1 m E1 Hr' Hlen Iml ltac:(fold sl nl s i; lia))
      as (m1 & Hlen1 & Hout1 & Run1).
    fold sl nl s i in Hout1, Run1.
    (* PUSH 0 *)
    set (m2 := pushed m1 s (ax r1)).
    set (R2 := set_sp (s - 2) (set_ip (i + sl + 3) r1)).
    assert (Hlen2 : length m2 = Z.to_nat SIZE) by (subst m2; now rewrite length_pushed).
    assert (Hout2 : forall a, 0 <= a -> a < s - need \/ s <= a ->
                              mem_get m2 a = mem_get m a).
    { intros a Ha Hout. subst m2. rewrite pushed_other by lia. apply Hout1; lia. }
    assert (Run2 : reaches 1 (machine vm0 (set_ip (i + sl) r1) m1) (machine vm0 R2 m2)).
    { apply step_PUSH_to with (sel := 0).
      - apply (instruction_at_transfer m); [exact Ipush1 | in_opcode_table | | | ];
          cbn [ip set_ip]; unfold SIZE; try lia.
        intros x Hx. apply Hout1; lia.
      - lia.
      - cbn [ip set_ip]. unfold is_u16. lia.
      - cbn [sp set_ip]. lia.
      - subst R2. destruct r1 as [a1 b1 c1 d1 s1 i1 f1]. cbn in Hs1. registers_eq.
      - subst m2. destruct r1 as [a1 b1 c1 d1 s1 i1 f1]. cbn in Hs1. cbn. now rewrite Hs1. }
    (* the right operand *)
    assert (HR2 : registers_u16 R2)
      by (apply registers_u16_moved; [exact Hr1 | |]; unfold is_u16; lia).
    assert (E2' : evaluate table rhs R2 = Some (set_sp (s - 2) (set_ip (i + sl + 3) r2))).
    { subst R2. now rewrite evaluate_moved, E2. }
    assert (Imr2 : image_at m2 (ip R2) cr).
    { apply (image_at_agree m); [apply expression_code_opcodes | | | | exact Imr];
        cbn [R2 ip set_ip set_sp]; fold sr; unfold SIZE; try lia.
      intros x Hx. apply Hout2; lia. }
    destruct (IHr R2 _ m2 E2' HR2 Hlen2 Imr2
                ltac:(cbn [R2 ip sp set_ip set_sp]; fold sr nr; lia))
      as (m3 & Hlen3 & Hout3 & Run3).
    cbn [R2 ip sp set_ip set_sp] in Hout3, Run3. fold sr nr in Hout3, Run3.
    (* PUSH 0 *)
    set (R3 := set_ip (i + sl + 3 + sr) (set_sp (s - 2) (set_ip (i + sl + 3) r2))) in *.
    set (m4 := pushed m3 (s - 2) (ax r2)).
    set (R4 := set_sp (s - 4) (set_ip (i + sl + 3 + sr + 3) r2)).
    assert (Hlen4 : length m4 = Z.to_nat SIZE) by (subst m4; now rewrite length_pushed).
    assert (Hout4 : forall a, 0 <= a -> a < s - need \/ s <= a ->
                              mem_get m4 a = mem_get m a).
    { intros a Ha Hout. subst m4. rewrite pushed_other by lia.
      rewrite Hout3 by lia. apply Hout2; lia. }
    assert (Run4 : reaches 1 (machine vm0 R3 m3) (machine vm0 R4 m4)).
    { apply step_PUSH_to with (sel := 0).
      - apply (instruction_at_transfer m); [exact Ipush2 | in_opcode_table | | | ];
          cbn [R3 ip set_ip]; unfold SIZE; try lia.
        intros x Hx. rewrite Hout3 by lia. apply Hout2; lia.
      - lia.
      - cbn [R3 ip set_ip]. unfold is_u16. lia.
      - cbn [R3 sp set_ip set_sp]. lia.
      - subst R3 R4. destruct r2 as [a2 b2 c2 d2 s2 i2 f2]. registers_eq.
      - subst R3 m4. destruct r2 as [a2 b2 c2 d2 s2 i2 f2]. reflexivity. }
    (* POP 1 and POP 0 *)
    assert (Hw2 : word_at m4 (s - 4) = ax r2).
    { subst m4. replace (s - 4) with (s - 2 - 2) by lia.
      apply word_at_pushed; [exact Hlen3 | unfold SIZE; lia | apply Hr2]. }
    assert (Hw1 : word_at m4 (s - 2) = ax r1).
    { transitivity (word_at m2 (s - 2)).
      - apply word_at_agree; subst m4; rewrite pushed_other by lia; apply Hout3; lia.
      - subst m2. apply word_at_pushed; [exact Hlen1 | unfold SIZE; lia | apply Hr1]. }
    set (R5 := set_bx (ax r2) (set_sp (s - 2) (set_ip (i + sl + 3 + sr + 6) r2))).
    set (R6 := set_sp s (set_ip (i + sl + 3 + sr + 9)
                           (set_ax (ax r1) (set_bx (ax r2) r2)))).
    assert (Run5 : reaches 1 (machine vm0 R4 m4) (machine vm0 R5 m4)).
    { apply step_POP_to with (sel := 1).
      - apply (instruction_at_transfer m); [ | in_opcode_table | | | ];
          cbn [R4 ip set_ip set_sp]; unfold SIZE; try lia.
        + replace (i + sl + 3 + sr + 3) with (i + sl + 3 + sr + 3) by lia. exact Ipop1.
        + intros x Hx. apply Hout4; lia.
      - lia.
      - cbn [R4 ip set_ip set_sp]. unfold is_u16. lia.
      - cbn [R4 sp set_ip set_sp]. lia.
      - cbn [R4 ip sp set_ip set_sp]. rewrite Hw2.
        change (set_register 1 ?v ?x) with (set_bx v x).
        subst R5. destruct r2 as [a2 b2 c2 d2 s2 i2 f2]. registers_eq. }
    assert (Run6 : reaches 1 (machine vm0 R5 m4) (machine vm0 R6 m4)).
    { apply step_POP_to with (sel := 0).
      - apply (instruction_at_transfer m); [ | in_opcode_table | | | ];
          cbn [R5 ip set_ip set_sp set_bx]; unfold SIZE; try lia.
        + replace (i + sl + 3 + sr + 6) with (i + sl + 3 + sr + 3 + 3) by lia.
          exact Ipop0.
        + intros x Hx. apply Hout4; lia.
      - lia.
      - cbn [R5 ip set_ip set_sp set_bx]. unfold is_u16. lia.
      - cbn [R5 sp set_ip set_sp set_bx]. lia.
      - cbn [R5 ip sp set_ip set_sp set_bx]. rewrite Hw1.
        change (set_register 0 ?v ?x) with (set_ax v x).
        subst R6. destruct r2 as [a2 b2 c2 d2 s2 i2 f2]. registers_eq. }
    (* the operator *)
    set (X := set_ax (ax r1) (set_bx (ax r2) r2)) in *.
    assert (HX : registers_u16 X).
    { destruct Hr1 as (Ha1 & _), Hr2 as (Ha2 & Hb2 & Hc2 & Hd2 & Hs2' & Hi2').
      subst X. destruct r2 as [a2 b2 c2 d2 s2 i2 f2]. unfold registers_u16. cbn in *. tauto. }
    destruct (binary_result_keeps _ _ _ HX Hev) as (_ & Hi' & Hs' & _).
    assert (Run7 : reaches (length oc) (machine vm0 R6 m4)
                     (machine vm0 (set_ip (i + (sl + (3 + (sr + (9 + so))))) r') m4)).
    { apply step_operator_to with (bop := bop) (r' := set_sp s (set_ip (i + sl + 3 + sr + 9) r')).
      - apply (image_at_agree m);
          [subst oc; destruct bop; cbn [operator_code];
           repeat (apply List.Forall_cons; [in_opcode_table|]); apply List.Forall_nil
          | | | | ];
          cbn [R6 ip set_ip set_sp]; change (image_size (operator_code bop)) with so;
          unfold SIZE; try lia.
        + intros x Hx. apply Hout4; lia.
        + replace (i + sl + 3 + sr + 9) with (i + sl + 3 + sr + 3 + 3 + 3) by lia.
          exact Imo.
      - subst R6. now rewrite binary_result_moved, Hev.
      - subst R6. apply registers_u16_moved; [exact HX | |]; unfold is_u16; lia.
      - cbn [R6 ip set_ip set_sp]. unfold is_u16. lia.
      - cbn [R6 ip set_ip set_sp]. change (image_size (operator_code bop)) with so.
        assert (Es : sp r' = s).
        { rewrite Hs'. subst X. destruct r2 as [a2 b2 c2 d2 s2 i2 f2]. cbn in *. congruence. }
        destruct r' as [a3 b3 c3 d3 s3 i3 f3]. cbn in Es. registers_eq. }
    exists m4. split; [exact Hlen4|]. split; [exact Hout4|].
    apply (reaches_trans _ _ _ _ _ Run1).
    apply (reaches_trans _ _ _ _ _ Run2).
    apply (reaches_trans _ _ _ _ _ Run3).
    apply (reaches_trans _ _ _ _ _ Run4).
    apply (reaches_trans _ _ _ _ _ Run5).
    apply (reaches_trans _ _ _ _ _ Run6).
    exact Run7.
  - (* no expression *)
    cbn [evaluate] in Hev. injection Hev as <-.
    exists m. split; [exact Hlen|]. split; [reflexivity|].
    change (image_size (expression_code table NullExpr)) with 0.
    replace (set_ip (ip r + 0) r) with r
      by (destruct r as [a0 b0 c0 d0 s0 i0 f0]; cbn; now rewrite Z.add_0_r).
    apply reaches_refl.
Qed.

End RunExpression.

(** ** Statements without branches *)

Lemma string_app_nil_r (s : string) : s +:+ EmptyString = s.
Proof.
  induction s as [|c s IH]; [reflexivity|].
  change (String c (s +:+ EmptyString) = String c s). now f_equal.
Qed.

Lemma string_app_assoc (s1 s2 s3 : string) : (s1 +:+ s2) +:+ s3 = s1 +:+ (s2 +:+ s3).
Proof.
  induction s1 as [|c s IH]; [reflexivity|].
  change (String c ((s +:+ s2) +:+ s3) = String c (s +:+ (s2 +:+ s3))). now f_equal.
Qed.

Lemma machine_print_nil (vm0 : VM) (r : Registers) (m : Memory) :
  machine (print EmptyString vm0) r m = machine vm0 r m.
Proof. unfold machine, print, with_memory, with_cpu. cbn. now rewrite string_app_nil_r. Qed.

Lemma print_print (s1 s2 : string) (vm0 : VM) :
  print s2 (print s1 vm0) = print (s1 +:+ s2) vm0.
Proof. unfold print. cbn. now rewrite string_app_assoc. Qed.

Lemma machine_self (vm : VM) : machine vm (cpu vm) (memory vm) = vm.
Proof. now destruct vm. Qed.

Lemma step_PRN (vm0 : VM) (r : Registers) (m : Memory) :
  instruction_at m (ip r) = I0 PRN -> is_u16 (ip r + 1) ->
  reaches 1 (machine vm0 r m)
    (machine (print (print_report (ax r)) vm0) (set_ip (ip r + 1) r) m).
Proof.
  intros Hat Hip. apply (reaches_step _ _ (I0 PRN)); [exact Hat | discriminate |].
  unfold machine. cbn [op I0 cpu with_memory with_cpu].
  change (getInstructionSize PRN) with 1. rewrite (u16_small _ Hip).
  destruct r. reflexivity.
Qed.

Lemma set_ip_as_moved (i : Z) (r : Registers) : set_ip i r = set_sp (sp r) (set_ip i r).
Proof. now destruct r. Qed.

Lemma evaluate_set_ip (table : gmap string Z) (expr : Expression) (r : Registers) (i : Z) :
  evaluate table expr (set_ip i r) = set_ip i <$> evaluate table expr r.
Proof.
  rewrite set_ip_as_moved, evaluate_moved. cbn [sp set_ip].
  destruct (evaluate table expr r) as [x|] eqn:E; [|reflexivity].
  cbn. f_equal.
  assert (Hsp : sp x = sp r).
  { clear -E. revert r x E.
    induction expr as [value | name | bop lhs IHl rhs IHr | ]; intros r x E;
      cbn [evaluate] in E.
    - injection E as <-. now destruct r.
    - destruct (table !! name) as [reg|].
      + destruct ((0 <=? reg) && (reg <=? 3)); [|discriminate E].
        injection E as <-. now destruct r.
      + injection E as <-. now destruct r.
    - destruct (evaluate table lhs r) as [r1|] eqn:E1; [|discriminate E].
      destruct (evaluate table rhs r1) as [r2|] eqn:E2; [|discriminate E].
      rewrite <- (IHl _ _ E1), <- (IHr _ _ E2).
      destruct r2 as [a b c d s i f], bop; cbn in E; try (injection E as <-; reflexivity).
      destruct (Z.eqb _ 0); [discriminate E | injection E as <-; reflexivity].
    - injection E as <-. reflexivity. }
  rewrite <- Hsp. now destruct x.
Qed.

Lemma set_register_set_ip (sel v i : Z) (r : Registers) :
  set_register sel v (set_ip i r) = set_ip i (set_register sel v r).
Proof.
  unfold set_register.
  destruct (sel =? 0), (sel =? 1), (sel =? 2); now destruct r.
Qed.

Lemma set_register_keeps (sel v : Z) (r : Registers) :
  registers_u16 r -> is_u16 v ->
  registers_u16 (set_register sel v r) /\
  ip (set_register sel v r) = ip r /\ sp (set_register sel v r) = sp r.
Proof.
  intros (Ha & Hb & Hc & Hd & Hs & Hi) Hv. unfold set_register, registers_u16.
  destruct (sel =? 0), (sel =? 1), (sel =? 2); destruct r; cbn in *; tauto.
Qed.

Lemma perform_set_ip (cg : Codegen.t) (stmt : Statement) (r : Registers) (i : Z) :
  perform cg stmt (set_ip i r)
  = (fun x => (set_ip i (fst x), snd x)) <$> perform cg stmt r.
Proof.
  destruct stmt as [name value | expr | |]; cbn [perform]; try reflexivity.
  - rewrite evaluate_set_ip.
    destruct (evaluate (symbolTable cg) value r) as [r1|]; [|reflexivity].
    cbn [fmap option_fmap option_map].
    destruct ((0 <=? (letRegister name cg).1) && ((letRegister name cg).1 <=? 3));
      [|reflexivity].
    cbn. rewrite set_register_set_ip. now destruct r1.
  - rewrite evaluate_set_ip.
    destruct (evaluate (symbolTable cg) expr r) as [r1|]; [|reflexivity].
    cbn. now destruct r1.
Qed.

Lemma perform_all_set_ip (stmts : list Statement) :
  forall (cg : Codegen.t) (r : Registers) (i : Z),
    perform_all cg stmts (set_ip i r)
    = (fun x => (set_ip i (fst x), snd x)) <$> perform_all cg stmts r.
Proof.
  induction stmts as [|stmt rest IH]; intros cg r i; cbn [perform_all]; [reflexivity|].
  rewrite perform_set_ip.
  destruct (perform cg stmt r) as [[r1 out1]|]; [|reflexivity].
  cbn [fmap option_fmap option_map fst snd]. rewrite IH.
  destruct (perform_all (genStatement stmt cg) rest r1) as [[r2 out2]|]; reflexivity.
Qed.

Lemma perform_keeps (cg : Codegen.t) (stmt : Statement) (r r' : Registers) (out : string) :
  registers_u16 r -> perform cg stmt r = Some (r', out) ->
  registers_u16 r' /\ ip r' = ip r /\ sp r' = sp r.
Proof.
  intros Hr H. destruct stmt as [name value | expr | |]; cbn [perform] in H;
    try discriminate H.
  - destruct (evaluate (symbolTable cg) value r) as [r1|] eqn:E; [|discriminate H].
    destruct ((0 <=? (letRegister name cg).1) && ((letRegister name cg).1 <=? 3));
      [|discriminate H].
    injection H as <- <-.
    destruct (evaluate_keeps _ _ _ _ Hr E) as (Hr1 & Hi1 & Hs1 & _).
    destruct (set_register_keeps (letRegister name cg).1 (ax r1) r1 Hr1 (proj1 Hr1))
      as (H1 & H2 & H3).
    split; [exact H1|]. split; congruence.
  - destruct (evaluate (symbolTable cg) expr r) as [r1|] eqn:E; [|discriminate H].
    injection H as <- <-.
    destruct (evaluate_keeps _ _ _ _ Hr E) as (Hr1 & Hi1 & Hs1 & _). tauto.
Qed.

(** The code of a statement without branches. *)
Lemma letRegister_genExpression (name : string) (value : Expression) (cg : Codegen.t) :
  fst (letRegister name (genExpression value cg)) = fst (letRegister name cg) /\
  instructions (snd (letRegister name (genExpression value cg)))
  = instructions (genExpression value cg).
Proof.
  destruct (appends_genExpression value cg) as (Ht & _ & _ & Hn & _).
  unfold letRegister. rewrite Ht, Hn.
  destruct (symbolTable cg !! name); split; reflexivity.
Qed.

Lemma genStatement_let_code (name : string) (value : Expression) (cg : Codegen.t) :
  instructions (genStatement (LetStatement name value) cg)
  = instructions cg
    ++ expression_code (symbolTable cg) value
    ++ [I1 PUSH 0; I1 POP (fst (letRegister name cg))].
Proof.
  cbn [genStatement].
  destruct (letRegister_genExpression name value cg) as [Hreg Hins].
  destruct (letRegister name (genExpression value cg)) as [reg cg1].
  cbn [fst snd] in Hreg, Hins. subst reg.
  rewrite !instructions_emit, Hins, genExpression_code, <- !app_assoc. reflexivity.
Qed.

Lemma genStatement_print_code (expr : Expression) (cg : Codegen.t) :
  instructions (genStatement (PrintStatement expr) cg)
  = instructions cg ++ expression_code (symbolTable cg) expr ++ [I0 PRN].
Proof.
  cbn [genStatement]. rewrite instructions_emit, genExpression_code, <- app_assoc.
  reflexivity.
Qed.


Lemma run_statement (vm0 : VM) (cg : Codegen.t) (stmt : Statement)
    (r r' : Registers) (out : string) (m : Memory) (code : list Instruction) :
  perform cg stmt r = Some (r', out) ->
  instructions (genStatement stmt cg) = instructions cg ++ code ->
  registers_u16 r -> length m = Z.to_nat SIZE ->
  image_at m (ip r) code ->
  ip r + image_size code + statement_need stmt <= sp r ->
  exists m' : Memory,
    length m' = Z.to_nat SIZE /\
    (forall a, 0 <= a -> a < sp r - statement_need stmt \/ sp r <= a ->
               mem_get m' a = mem_get m a) /\
    reaches (length code) (machine vm0 r m)
      (machine (print out vm0) (set_ip (ip r + image_size code) r') m').
Proof.
  intros Hp Hcode Hr Hlen Him Hfit.
  pose proof Hr as (_ & _ & _ & _ & Hsp & Hip). unfold is_u16 in Hsp, Hip.
  destruct stmt as [name value | expr | |]; cbn [perform statement_need] in *;
    try discriminate Hp.
  - (* letbro *)
    destruct (evaluate (symbolTable cg) value r) as [r1|] eqn:E; [|discriminate Hp].
    set (reg := fst (letRegister name cg)) in *.
    destruct (Z.leb_spec 0 reg) as [H0|]; [|discriminate Hp].
    destruct (Z.leb_spec reg 3) as [H3|]; [|discriminate Hp].
    cbn [andb] in Hp. injection Hp as <- <-.
    rewrite genStatement_let_code in Hcode. apply app_inv_head in Hcode. subst code.
    fold reg in Him, Hfit |- *.
    set (ec := expression_code (symbolTable cg) value) in *.
    pose proof (image_size_pos _ (expression_code_opcodes (symbolTable cg) value)) as Hse.
    pose proof (stack_need_nonneg value) as Hne.
    fold ec in Hse.
    assert (Hsize : image_size (ec ++ [I1 PUSH 0; I1 POP reg]) = image_size ec + 6).
    { rewrite image_size_app. reflexivity. }
    rewrite Hsize in *. rewrite length_app. cbn [length].
    apply image_at_app in Him as [Ime Him].
    cbn [image_at op I1] in Him.
    change (getInstructionSize PUSH) with 3 in Him.
    destruct Him as (Ipush & Ipop & _).
    set (se := image_size ec) in *. set (ne := stack_need value) in *.
    set (s := sp r) in *. set (i := ip r) in *.
    destruct (evaluate_keeps _ _ _ _ Hr E) as (Hr1 & Hi1 & Hs1 & _).
    destruct (run_expression vm0 _ _ r r1 m E Hr Hlen Ime ltac:(change (i + se + ne <= s); lia))
      as (m1 & Hlen1 & Hout1 & Run1).
    change (forall a, 0 <= a -> a < s - ne \/ s <= a -> mem_get m1 a = mem_get m a) in Hout1.
    change (reaches (length ec) (machine vm0 r m) (machine vm0 (set_ip (i + se) r1) m1)) in Run1.
    set (m2 := pushed m1 s (ax r1)).
    set (R2 := set_sp (s - 2) (set_ip (i + se + 3) r1)).
    assert (Hout2 : forall a, 0 <= a -> a < s - Z.max ne 2 \/ s <= a ->
                              mem_get m2 a = mem_get m a).
    { intros a Ha Hout. subst m2. rewrite pushed_other by lia. apply Hout1; lia. }
    assert (Run2 : reaches 1 (machine vm0 (set_ip (i + se) r1) m1) (machine vm0 R2 m2)).
    { apply step_PUSH_to with (sel := 0).
      - apply (instruction_at_transfer m); [exact Ipush | in_opcode_table | | | ];
          cbn [ip set_ip]; unfold SIZE; try lia.
        intros x Hx. apply Hout1; lia.
      - lia.
      - cbn [ip set_ip]. unfold is_u16. lia.
      - cbn [sp set_ip]. lia.
      - subst R2. destruct r1 as [a1 b1 c1 d1 s1 i1 f1]. cbn in Hs1. registers_eq.
      - subst m2. destruct r1 as [a1 b1 c1 d1 s1 i1 f1]. cbn in Hs1. cbn. now rewrite Hs1. }
    assert (Run3 : reaches 1 (machine vm0 R2 m2)
                     (machine vm0 (set_ip (i + (se + 6)) (set_register reg (ax r1) r1)) m2)).
    { apply step_POP_to with (sel := reg).
      - apply (instruction_at_transfer m); [ | in_opcode_table | | | ];
          cbn [R2 ip set_ip set_sp]; unfold SIZE; try lia.
        + exact Ipop.
        + intros x Hx. apply Hout2; lia.
      - lia.
      - cbn [R2 ip set_ip set_sp]. unfold is_u16. lia.
      - cbn [R2 sp set_ip set_sp]. lia.
      - cbn [R2 ip sp set_ip set_sp].
        subst m2. rewrite word_at_pushed by (try assumption; try apply Hr1; unfold SIZE; lia).
        rewrite <- set_register_set_ip. f_equal.
        destruct r1 as [a1 b1 c1 d1 s1 i1 f1]. cbn in Hs1. registers_eq. }
    exists m2. split; [subst m2; now rewrite length_pushed|]. split; [exact Hout2|].
    rewrite machine_print_nil.
    apply (reaches_trans _ _ _ _ _ Run1).
    apply (reaches_trans 1 1 _ _ _ Run2). exact Run3.
  - (* printbro *)
    destruct (evaluate (symbolTable cg) expr r) as [r1|] eqn:E; [|discriminate Hp].
    injection Hp as <- <-.
    rewrite genStatement_print_code in Hcode. apply app_inv_head in Hcode. subst code.
    set (ec := expression_code (symbolTable cg) expr) in *.
    pose proof (image_size_pos _ (expression_code_opcodes (symbolTable cg) expr)) as Hse.
    pose proof (stack_need_nonneg expr) as Hne.
    fold ec in Hse.
    assert (Hsize : image_size (ec ++ [I0 PRN]) = image_size ec + 1).
    { rewrite image_size_app. reflexivity. }
    rewrite Hsize in *. rewrite length_app. cbn [length].
    apply image_at_app in Him as [Ime Him].
    cbn [image_at op I0] in Him. destruct Him as (Iprn & _).
    set (se := image_size ec) in *. set (ne := stack_need expr) in *.
    set (s := sp r) in *. set (i := ip r) in *.
    destruct (evaluate_keeps _ _ _ _ Hr E) as (Hr1 & Hi1 & Hs1 & _).
    destruct (run_expression vm0 _ _ r r1 m E Hr Hlen Ime ltac:(change (i + se + ne <= s); lia))
      as (m1 & Hlen1 & Hout1 & Run1).
    change (forall a, 0 <= a -> a < s - ne \/ s <= a -> mem_get m1 a = mem_get m a) in Hout1.
    change (reaches (length ec) (machine vm0 r m) (machine vm0 (set_ip (i + se) r1) m1)) in Run1.
    exists m1. split; [exact Hlen1|]. split; [exact Hout1|].
    apply (reaches_trans _ _ _ _ _ Run1).
    pose proof (step_PRN vm0 (set_ip (i + se) r1) m1) as Step.
    cbn [ip set_ip] in Step.
    replace (ax (set_ip (i + se) r1)) with (ax r1) in Step by (now destruct r1).
    replace (set_ip (i + se + 1) (set_ip (i + se) r1)) with (set_ip (i + se + 1) r1) in Step
      by (now destruct r1).
    replace (i + (se + 1)) with (i + se + 1) by lia.
    apply Step.
    + apply (instruction_at_transfer_1 m);
        [exact Iprn | in_opcode_table | reflexivity | | | ]; unfold SIZE; try lia.
      apply Hout1; lia.
    + unfold is_u16. lia.
Qed.

Lemma perform_code (cg : Codegen.t) (stmt : Statement) (r : Registers)
    (x : Registers * string) :
  perform cg stmt r = Some x ->
  labelPlaceholders (genStatement stmt cg) = labelPlaceholders cg /\
  exists code : list Instruction,
    instructions (genStatement stmt cg) = instructions cg ++ code.
Proof.
  intros H. destruct stmt as [name value | expr | |]; try discriminate H.
  - split; [|eexists; apply genStatement_let_code].
    cbn [genStatement].
    destruct (appends_genExpression value cg) as (_ & _ & Hp & _).
    unfold letRegister.
    destruct (symbolTable (genExpression value cg) !! name); exact Hp.
  - split; [|eexists; apply genStatement_print_code].
    cbn [genStatement].
    destruct (appends_genExpression expr cg) as (_ & _ & Hp & _). exact Hp.
Qed.

Lemma perform_all_code (stmts : list Statement) :
  forall (cg : Codegen.t) (r : Registers) (x : Registers * string),
    perform_all cg stmts r = Some x ->
    labelPlaceholders (genStatements stmts cg) = labelPlaceholders cg /\
    exists code : list Instruction,
      instructions (genStatements stmts cg) = instructions cg ++ code.
Proof.
  induction stmts as [|stmt rest IH]; intros cg r x H.
  - split; [reflexivity|]. exists []. cbn. now rewrite app_nil_r.
  - cbn [perform_all] in H.
    destruct (perform cg stmt r) as [[r1 out1]|] eqn:E1; [|discriminate H].
    destruct (perform_all (genStatement stmt cg) rest r1) as [[r2 out2]|] eqn:E2;
      [|discriminate H].
    destruct (perform_code _ _ _ _ E1) as (Hp1 & code1 & Hc1).
    destruct (IH _ _ _ E2) as (Hp2 & code2 & Hc2).
    change (genStatements (stmt :: rest) cg) with (genStatements rest (genStatement stmt cg)).
    split; [congruence|].
    exists (code1 ++ code2). rewrite Hc2, Hc1, app_assoc. reflexivity.
Qed.

Lemma statements_need_nonneg (stmts : list Statement) : 0 <= statements_need stmts.
Proof. unfold statements_need. induction stmts; cbn [fold_right]; lia. Qed.

Lemma run_statements (stmts : list Statement) :
  forall (vm0 : VM) (cg : Codegen.t) (r r' : Registers) (out : string) (m : Memory)
         (code : list Instruction),
    perform_all cg stmts r = Some (r', out) ->
    instructions (genStatements stmts cg) = instructions cg ++ code ->
    registers_u16 r -> length m = Z.to_nat SIZE ->
    image_at m (ip r) code ->
    ip r + image_size code + statements_need stmts <= sp r ->
    Forall (fun i => In (op i) opcode_table) code ->
    exists m' : Memory,
      length m' = Z.to_nat SIZE /\
      (forall a, 0 <= a -> a < sp r - statements_need stmts \/ sp r <= a ->
                 mem_get m' a = mem_get m a) /\
      reaches (length code) (machine vm0 r m)
        (machine (print out vm0) (set_ip (ip r + image_size code) r') m').
Proof.
  induction stmts as [|stmt rest IH];
    intros vm0 cg r r' out m code Hp Hcode Hr Hlen Him Hfit Hops.
  - cbn in Hp, Hcode. injection Hp as <- <-.
    rewrite <- (app_nil_r (instructions cg)) in Hcode at 1.
    apply app_inv_head in Hcode. subst code.
    exists m. split; [exact Hlen|]. split; [reflexivity|].
    rewrite machine_print_nil. cbn [image_size length].
    replace (set_ip (ip r + 0) r) with r
      by (destruct r as [a0 b0 c0 d0 s0 i0 f0]; cbn; now rewrite Z.add_0_r).
    apply reaches_refl.
  - cbn [perform_all] in Hp.
    destruct (perform cg stmt r) as [[r1 out1]|] eqn:E1; [|discriminate Hp].
    destruct (perform_all (genStatement stmt cg) rest r1) as [[r2 out2]|] eqn:E2;
      [|discriminate Hp].
    injection Hp as <- <-.
    destruct (perform_code _ _ _ _ E1) as (_ & code1 & Hc1).
    destruct (perform_all_code _ _ _ _ E2) as (_ & code2 & Hc2).
    change (genStatements (stmt :: rest) cg)
      with (genStatements rest (genStatement stmt cg)) in Hcode.
    rewrite Hc2, Hc1, <- app_assoc in Hcode. apply app_inv_head in Hcode. subst code.
    apply Forall_app in Hops as [Hops1 Hops2].
    pose proof (image_size_pos _ Hops1) as Hs1.
    pose proof (image_size_pos _ Hops2) as Hs2.
    pose proof (statements_need_nonneg rest) as Hn2.
    rewrite image_size_app in *. rewrite length_app.
    cbn [statements_need fold_right] in *.
    fold (statements_need rest) in *.
    apply image_at_app in Him as [Im1 Im2].
    pose proof Hr as (_ & _ & _ & _ & Hsp & Hip). unfold is_u16 in Hsp, Hip.
    destruct (perform_keeps _ _ _ _ _ Hr E1) as (Hr1 & Hi1 & Hsp1).
    destruct (run_statement vm0 cg stmt r r1 out1 m code1 E1 Hc1 Hr Hlen Im1 ltac:(lia))
      as (m1 & Hlen1 & Hout1 & Run1).
    set (R1 := set_ip (ip r + image_size code1) r1) in *.
    assert (HR1 : registers_u16 R1).
    { subst R1. rewrite set_ip_as_moved. apply registers_u16_moved;
        [exact Hr1 | apply Hr1 | unfold is_u16; lia]. }
    assert (E2' : perform_all (genStatement stmt cg) rest R1
                  = Some (set_ip (ip r + image_size code1) r2, out2)).
    { subst R1. now rewrite perform_all_set_ip, E2. }
    assert (Im2' : image_at m1 (ip R1) code2).
    { apply (image_at_agree m); [exact Hops2 | | | | ];
        cbn [R1 ip set_ip]; unfold SIZE; try lia.
      - intros x Hx. apply Hout1; lia.
      - exact Im2. }
    destruct (IH (print out1 vm0) _ R1 _ out2 m1 code2 E2' Hc2 HR1 Hlen1 Im2'
                ltac:(cbn [R1 ip sp set_ip]; rewrite set_ip_as_moved in *;
                      replace (sp R1) with (sp r)
                        by (subst R1; destruct r1; cbn in *; congruence); lia)
                Hops2)
      as (m2 & Hlen2 & Hout2 & Run2).
    assert (HspR : sp R1 = sp r) by (subst R1; destruct r1; cbn in *; congruence).
    rewrite HspR in Hout2. cbn [R1 ip set_ip] in Run2.
    exists m2. split; [exact Hlen2|]. split.
    + intros a Ha Hout. rewrite Hout2 by lia. apply Hout1; lia.
    + apply (reaches_trans _ _ _ _ _ Run1).
      rewrite print_print in Run2.
      replace (set_ip (ip r + (image_size code1 + image_size code2)) r2)
        with (set_ip (ip r + image_size code1 + image_size code2)
                (set_ip (ip r + image_size code1) r2))
        by (destruct r2; registers_eq).
      exact Run2.
Qed.

(** ** From the syntax tree to the halted machine *)

Lemma loaded_image (program : list Instruction) (vm : VM) :
  length (memory vm) = Z.to_nat SIZE ->
  Forall encodable program ->
  image_size program < SIZE ->
  image_at (memory (loadProgram program vm)) 0 program.
Proof.
  intros Hlen Hall Hfit.
  assert (H : forall rest done, program = done ++ rest ->
            image_at (memory (loadProgram program vm)) (image_size done) rest).
  { induction rest as [|i l IH]; intros prefix E; [exact I|].
    cbn [image_at]. split.
    - assert (Hk : program !! length prefix = Some i)
        by (rewrite E; apply list_lookup_middle; reflexivity).
      destruct (loaded_instruction_fetch program vm _ i Hlen Hall Hfit Hk) as [_ Hf].
      rewrite fetch_instruction_at in Hf.
      assert (Ht : take (length prefix) program = prefix)
        by (rewrite E; apply take_app_length).
      rewrite Ht in Hf. injection Hf as Hf _. exact Hf.
    - specialize (IH (prefix ++ [i])).
      rewrite image_size_app in IH. cbn [image_size] in IH.
      rewrite Z.add_0_r in IH. apply IH. rewrite <- app_assoc. exact E. }
  apply (H program []). reflexivity.
Qed.

Lemma loaded_machine (program : list Instruction) (vm : VM) :
  length (memory vm) = Z.to_nat SIZE ->
  Forall encodable program ->
  image_size program < SIZE ->
  cpu (loadProgram program vm) = cpu vm /\
  cout (loadProgram program vm) = cout vm /\
  cerr (loadProgram program vm) = cerr vm /\
  length (memory (loadProgram program vm)) = Z.to_nat SIZE.
Proof.
  intros Hlen Hall Hfit. unfold loadProgram.
  destruct (load_list_streams program (with_breakLine 0 vm)) as [Ho He].
  destruct (load_list_spec program (with_breakLine 0 vm) Hlen ltac:(cbn; lia) Hall
              ltac:(cbn; lia)) as (_ & L & _).
  cbv zeta in L.
  repeat apply conj; [now rewrite load_list_cpu | exact Ho | exact He | exact L].
Qed.

Lemma halt_step (vm : VM) :
  instruction_at (memory vm) (ip (cpu vm)) = I0 HLT ->
  is_u16 (ip (cpu vm) + 1) ->
  let vm1 := map_cpu (set_ip (ip (cpu vm) + 1)) vm in
  execute_loop 1 vm
  = Halted (print ("Program Halted." +:+ nl) (print (halt_report vm1) vm1)).
Proof.
  intros Hat Hip vm1. cbn [execute_loop].
  rewrite fetch_instruction_at, Hat.
  assert (Hop : mem_get (memory vm) (ip (cpu vm)) = HLT).
  { change (op (instruction_at (memory vm) (ip (cpu vm))) = HLT). now rewrite Hat. }
  rewrite Hop. change (getInstructionSize HLT) with 1. rewrite (u16_small _ Hip).
  reflexivity.
Qed.

Lemma straight_generate (program : Program) (x : Registers * string) :
  perform_all fresh (statements program) new_registers = Some x ->
  exists code : list Instruction,
    instructions (genStatements (statements program) fresh) = code /\
    generate program = code ++ [I0 HLT].
Proof.
  intros H. destruct (perform_all_code _ _ _ _ H) as (Hp & code & Hc).
  exists code. split; [exact Hc|].
  unfold generate, generated, patchJumps, lowered.
  change (labelPlaceholders (emit (I0 HLT) (genStatements (statements program) fresh)))
    with (labelPlaceholders (genStatements (statements program) fresh)).
  rewrite Hp. cbn [fold_left labelPlaceholders fresh]. rewrite instructions_emit, Hc.
  reflexivity.
Qed.

Lemma straight_line_run (program : Program) (r' : Registers) (out : string) :
  perform_all fresh (statements program) new_registers = Some (r', out) ->
  image_size (generate program) + statements_need (statements program) <= 0xFFFF ->
  exists vm : VM,
    execute (length (generate program)) (loadProgram (generate program) new_VM)
    = Halted vm /\
    cpu vm = set_ip (image_size (generate program)) r' /\
    cout vm = ("Starting VM Execution..." +:+ nl) +:+ out +:+ halt_report vm
              +:+ "Program Halted." +:+ nl /\
    cerr vm = "".
Proof.
  intros Hp Hfit.
  destruct (straight_generate _ _ Hp) as (code & Hc & Hg).
  pose proof (generate_encodable program) as Hall.
  pose proof (statements_need_nonneg (statements program)) as Hneed.
  rewrite Hg in *.
  assert (Hsize : image_size (code ++ [I0 HLT]) = image_size code + 1)
    by (rewrite image_size_app; reflexivity).
  rewrite Hsize in *.
  assert (Hops : Forall (fun i => In (op i) opcode_table) code).
  { apply Forall_app in Hall as [Hall _].
    eapply Forall_impl; [exact Hall|]. now intros i [Hi _]. }
  pose proof (image_size_pos _ Hops) as Hnn.
  set (G := code ++ [I0 HLT]) in *.
  assert (Hlen0 : length (memory new_VM) = Z.to_nat SIZE) by apply length_replicate.
  assert (HfitG : image_size G < SIZE)
    by (subst G; rewrite Hsize; unfold SIZE; lia).
  destruct (loaded_machine G new_VM Hlen0 Hall HfitG) as (Lcpu & Lout & Lerr & Llen).
  pose proof (loaded_image G new_VM Hlen0 Hall HfitG) as Lim.
  set (L := loadProgram G new_VM) in *.
  set (V0 := print ("Starting VM Execution..." +:+ nl) L).
  subst G. apply image_at_app in Lim as [Imc Imh].
  cbn [image_at] in Imh. destruct Imh as [Ihlt _]. rewrite Z.add_0_l in Ihlt.
  assert (Hr0 : registers_u16 new_registers)
    by (unfold registers_u16, is_u16; cbn; lia).
  destruct (run_statements (statements program) V0 fresh new_registers r' out
              (memory L) code Hp Hc Hr0 Llen Imc
              ltac:(cbn [ip sp new_registers]; lia) Hops)
    as (m' & Hlen' & Hout' & Run).
  cbn [ip sp new_registers] in Hout', Run. rewrite Z.add_0_l in Run.
  assert (EV0 : machine V0 new_registers (memory L) = V0).
  { rewrite <- (machine_self V0) at 2. subst V0. cbn [cpu memory print]. now rewrite Lcpu. }
  rewrite EV0 in Run.
  set (V := machine (print out V0) (set_ip (image_size code) r') m') in *.
  assert (Hat : instruction_at (memory V) (ip (cpu V)) = I0 HLT).
  { subst V. unfold machine. cbn [memory cpu with_memory with_cpu ip set_ip].
    apply (instruction_at_transfer_1 (memory L));
      [exact Ihlt | in_opcode_table | reflexivity | | | ]; unfold SIZE; try lia.
    apply Hout'; lia. }
  assert (Hip : is_u16 (ip (cpu V) + 1)).
  { subst V. unfold machine. cbn [cpu with_memory with_cpu ip set_ip]. unfold is_u16. lia. }
  pose proof (halt_step V Hat Hip) as Hh. cbv zeta in Hh.
  eexists. split; [|split; [|split]].
  - unfold execute. fold V0. rewrite length_app. cbn [length].
    rewrite Run. exact Hh.
  - subst V. unfold machine. cbn [cpu print map_cpu with_cpu with_memory ip set_ip].
    destruct r'; reflexivity.
  - subst V V0. unfold machine.
    cbn [cout print map_cpu with_cpu with_memory cpu memory]. rewrite Lout.
    change (cout new_VM) with EmptyString.
    rewrite !string_app_assoc. reflexivity.
  - subst V V0. unfold machine.
    cbn [cerr print map_cpu with_cpu with_memory cpu memory]. exact Lerr.
Qed.


(** ** Expressions and straight-line programs, end to end *)

(** X11.  The code that [genExpression] emits for an expression, found at
    [IP] in a memory of [SIZE] cells with [stack_need] bytes free between its
    end and [SP], runs for exactly as many passes of the loop as it has
    instructions, without an error and without reaching [HLT]: it leaves the
    registers that [evaluate] reads off the syntax tree, [IP] just after the
    code, [SP] where it was, and the memory unchanged outside the
    [stack_need] bytes below [SP]. *)
Theorem expression_code_runs (vm0 : VM) (table : gmap string Z) (expr : Expression)
    (r r' : Registers) (m : Memory) :
  evaluate table expr r = Some r' ->
  registers_u16 r -> length m = Z.to_nat SIZE ->
  image_at m (ip r) (expression_code table expr) ->
  ip r + image_size (expression_code table expr) + stack_need expr <= sp r ->
  exists m' : Memory,
    length m' = Z.to_nat SIZE /\
    (forall a, 0 <= a -> a < sp r - stack_need expr \/ sp r <= a ->
               mem_get m' a = mem_get m a) /\
    reaches (length (expression_code table expr)) (machine vm0 r m)
      (machine vm0 (set_ip (ip r + image_size (expression_code table expr)) r') m').
Proof. apply run_expression. Qed.

Lemma expression_code_runs_witness :
  exists m' : Memory,
    reaches 8
      (machine new_VM (set_bx 5 new_registers)
         (memory (loadProgram
                    [I1 PUSH 1; I1 POP 0; I1 PUSH 0; I1 MOV 1;
                     I1 PUSH 0; I1 POP 1; I1 POP 0; I0 ADD]
                    new_VM)))
      (machine new_VM (mkRegisters 6 1 0 0 0xFFFF 22 0) m').
Proof.
  destruct (expression_code_runs new_VM {["x" := 1]}
              (BinaryExpr BinaryOp.Add (VariableExpr "x") (NumberExpr 1))
              (set_bx 5 new_registers) (mkRegisters 6 1 0 0 0xFFFF 0 0)
              (memory (loadProgram
                         [I1 PUSH 1; I1 POP 0; I1 PUSH 0; I1 MOV 1;
                          I1 PUSH 0; I1 POP 1; I1 POP 0; I0 ADD]
                         new_VM)))
    as (m' & _ & _ & Run).
  - vm_compute. reflexivity.
  - unfold registers_u16, is_u16. cbn. lia.
  - apply loaded_machine; [apply length_replicate | | vm_compute; reflexivity].
    repeat (apply List.Forall_cons; [prove_encodable|]). apply List.Forall_nil.
  - vm_compute. repeat apply conj; reflexivity || exact I.
  - vm_compute. discriminate.
  - exists m'.
    set (code := expression_code _ _) in Run.
    assert (Ecode : code = [I1 PUSH 1; I1 POP 0; I1 PUSH 0; I1 MOV 1;
                            I1 PUSH 0; I1 POP 1; I1 POP 0; I0 ADD])
      by (vm_compute; reflexivity).
    rewrite Ecode in Run. exact Run.
Defined.

(** X12.  A program of [letbro] and [printbro] statements only, whose
    expressions all have a value and whose image leaves room for the stack,
    runs to [HLT] when what [generate] returns is loaded into a new machine:
    the loop makes one pass for each instruction, the registers at the halt
    are those that [perform_all] reads off the syntax tree, standard output
    is the start line, the reports of the [printbro] statements in order, the
    halt dump and the last line, and nothing goes to standard error. *)
Theorem straight_line_program_runs (program : Program) (r' : Registers) (out : string) :
  perform_all fresh (statements program) new_registers = Some (r', out) ->
  image_size (generate program) + statements_need (statements program) <= 0xFFFF ->
  exists vm : VM,
    execute (length (generate program)) (loadProgram (generate program) new_VM)
    = Halted vm /\
    cpu vm = set_ip (image_size (generate program)) r' /\
    cout vm = ("Starting VM Execution..." +:+ nl) +:+ out +:+ halt_report vm
              +:+ "Program Halted." +:+ nl /\
    cerr vm = "".
Proof. apply straight_line_run. Qed.

Lemma straight_line_program_runs_witness :
  exists vm : VM,
    execute 16 (loadProgram (generate overwritten_variable_program) new_VM) = Halted vm /\
    cpu vm = mkRegisters 1 1 0 0 0xFFFF 40 0 /\
    cout vm = ("Starting VM Execution..." +:+ nl) +:+ (print_report 6 +:+ print_report 1)
              +:+ halt_report vm +:+ "Program Halted." +:+ nl.
Proof.
  destruct (straight_line_program_runs overwritten_variable_program
              (mkRegisters 1 1 0 0 0xFFFF 0 0) (print_report 6 +:+ print_report 1))
    as (vm & Hrun & Hcpu & Hout & _).
  - vm_compute. reflexivity.
  - vm_compute. discriminate.
  - exists vm. split; [exact Hrun|]. split; [exact Hcpu | exact Hout].
Defined.

(** ** The test after a condition *)

Lemma step_plain (vm0 : VM) (o : Opcode) (r r2 : Registers) (m : Memory) :
  instruction_at m (ip r) = I0 o ->
  getInstructionSize o = 1 -> o <> HLT -> is_u16 (ip r + 1) ->
  executeInstruction (I0 o) (machine vm0 (set_ip (ip r + 1) r) m)
  = Continue (machine vm0 r2 m) ->
  reaches 1 (machine vm0 r m) (machine vm0 r2 m).
Proof.
  intros Hat Hs Hne Hi Hex.
  apply (reaches_step _ _ (I0 o)); [exact Hat | exact Hne |].
  unfold machine in *. cbn [op I0 cpu with_memory with_cpu] in *.
  rewrite Hs, (u16_small _ Hi). exact Hex.
Qed.

Lemma u16_opposite (a : Z) : is_u16 a -> (u16 (0 - a) = 0 <-> a = 0).
Proof.
  intros Ha. unfold u16, is_u16 in *. split.
  - intros H. destruct (Z.eq_dec a 0) as [|Hne]; [assumption|].
    replace (0 - a) with ((65536 - a) + (-1) * 65536) in H by lia.
    rewrite Z_mod_plus_full, Z.mod_small in H by lia. lia.
  - intros ->. reflexivity.
Qed.

Lemma emitCondition_code (cg : Codegen.t) :
  instructions (emitCondition cg)
  = instructions cg ++ [I1 PUSH 0; I1 POP 1; I1 MOV 0; I0 SUB; I0 STE; I0 CLE].
Proof.
  unfold emitCondition. rewrite !instructions_emit, <- !app_assoc. reflexivity.
Qed.

(** X13.  The six instructions [genStatement] puts after the condition of
    an [ifbro] or a [whilebro], found at [IP] with two free bytes of stack
    below [SP], run in six passes of the loop: [BX] receives the value the
    condition left in [AX], [AX] becomes 0 exactly when that value is 0 (it
    is the value negated in sixteen bits), the Equal flag that [STE] sets is
    cleared again by [CLE], and [CX], [DX] and [SP] are as before. *)
Theorem condition_code_tests_AX_for_zero
    (vm0 : VM) (cg : Codegen.t) (code : list Instruction) (r : Registers) (m : Memory) :
  instructions (emitCondition cg) = instructions cg ++ code ->
  registers_u16 r -> length m = Z.to_nat SIZE ->
  image_at m (ip r) code ->
  ip r + image_size code + 2 <= sp r ->
  exists (r' : Registers) (m' : Memory),
    reaches 6 (machine vm0 r m) (machine vm0 r' m') /\
    (ax r' = 0 <-> ax r = 0) /\
    ax r' = u16 (0 - ax r) /\ bx r' = ax r /\
    Z.testbit (flags r') 3 = false /\
    cx r' = cx r /\ dx r' = dx r /\ sp r' = sp r /\ ip r' = ip r + 12.
Proof.
  intros Hcode Hr Hlen Him Hfit.
  rewrite emitCondition_code in Hcode. apply app_inv_head in Hcode. subst code.
  change (image_size _) with 12 in Hfit.
  cbn [image_at op I0 I1] in Him.
  change (getInstructionSize PUSH) with 3 in Him.
  change (getInstructionSize POP) with 3 in Him.
  change (getInstructionSize MOV) with 3 in Him.
  change (getInstructionSize SUB) with 1 in Him.
  change (getInstructionSize STE) with 1 in Him.
  destruct Him as (Ipush & Ipop & Imov & Isub & Iste & Icle & _).
  pose proof Hr as (Hax & _ & _ & _ & Hsp & Hip). unfold is_u16 in Hsp, Hip.
  set (s := sp r) in *. set (i := ip r) in *. set (v := ax r) in *.
  set (m1 := pushed m s v).
  assert (Hcode1 : forall x, i <= x < i + 12 -> mem_get m1 x = mem_get m x).
  { intros x Hx. subst m1. apply pushed_other; lia. }
  set (R1 := set_sp (s - 2) (set_ip (i + 3) r)).
  set (R2 := set_bx v (set_sp s (set_ip (i + 6) r))).
  set (R3 := set_ax 0 (set_ip (i + 9) R2)).
  set (R4 := set_ax (u16 (0 - v)) (set_ip (i + 10) R2)).
  set (R5 := setEqual true (set_ip (i + 11) R4)).
  set (R6 := setEqual false (set_ip (i + 12) R5)).
  assert (Run1 : reaches 1 (machine vm0 r m) (machine vm0 R1 m1)).
  { apply step_PUSH_to with (sel := 0).
    - exact Ipush.
    - lia.
    - change (is_u16 (i + 3)). unfold is_u16. lia.
    - change (2 <= s <= 65535). lia.
    - reflexivity.
    - reflexivity. }
  assert (Run2 : reaches 1 (machine vm0 R1 m1) (machine vm0 R2 m1)).
  { apply step_POP_to with (sel := 1).
    - apply (instruction_at_transfer m); [exact Ipop | in_opcode_table | | | ];
        cbn [R1 ip set_ip set_sp]; unfold SIZE; try lia.
      intros x Hx. apply Hcode1; lia.
    - lia.
    - cbn [R1 ip set_ip set_sp]. unfold is_u16. lia.
    - cbn [R1 sp set_ip set_sp]. lia.
    - cbn [R1 ip sp set_ip set_sp]. subst m1.
      rewrite word_at_pushed by (try assumption; unfold SIZE; lia).
      change (set_register 1 ?a ?x) with (set_bx a x).
      subst R2. destruct r as [a0 b0 c0 d0 s0 i0 f0]. registers_eq. }
  assert (Run3 : reaches 1 (machine vm0 R2 m1) (machine vm0 R3 m1)).
  { replace R3 with (set_ax 0 (set_ip (ip R2 + 3) R2)).
    - apply step_MOV.
      + apply (instruction_at_transfer m); [ | in_opcode_table | | | ];
          cbn [R2 ip set_ip set_sp set_bx]; unfold SIZE; try lia.
        * replace (i + 6) with (i + 3 + 3) by lia. exact Imov.
        * intros x Hx. apply Hcode1; lia.
      + cbn [R2 ip set_ip set_sp set_bx]. unfold is_u16. lia.
    - subst R3 R2. destruct r as [a0 b0 c0 d0 s0 i0 f0]. registers_eq. }
  assert (Run4 : reaches 1 (machine vm0 R3 m1) (machine vm0 R4 m1)).
  { apply (step_plain vm0 SUB).
    - apply (instruction_at_transfer_1 m); [ | in_opcode_table | reflexivity | | | ];
        cbn [R3 R2 ip set_ip set_sp set_bx set_ax]; unfold SIZE; try lia.
      + replace (i + 9) with (i + 3 + 3 + 3) by lia. exact Isub.
      + apply Hcode1; lia.
    - reflexivity.
    - discriminate.
    - cbn [R3 R2 ip set_ip set_sp set_bx set_ax]. unfold is_u16. lia.
    - subst R4 R3 R2. destruct r as [a0 b0 c0 d0 s0 i0 f0]. cbn.
      rewrite u16_int32. unfold machine, map_cpu, with_memory, with_cpu.
      cbn [cpu memory breakLine cout cerr]. do 2 f_equal. registers_eq. }
  assert (Run5 : reaches 1 (machine vm0 R4 m1) (machine vm0 R5 m1)).
  { apply (step_plain vm0 STE).
    - apply (instruction_at_transfer_1 m); [ | in_opcode_table | reflexivity | | | ];
        cbn [R4 R2 ip set_ip set_sp set_bx set_ax]; unfold SIZE; try lia.
      + replace (i + 10) with (i + 3 + 3 + 3 + 1) by lia. exact Iste.
      + apply Hcode1; lia.
    - reflexivity.
    - discriminate.
    - cbn [R4 R2 ip set_ip set_sp set_bx set_ax]. unfold is_u16. lia.
    - subst R5 R4 R2. destruct r as [a0 b0 c0 d0 s0 i0 f0]. cbn.
      unfold machine, map_cpu, with_memory, with_cpu.
      cbn [cpu memory breakLine cout cerr]. do 2 f_equal.
      unfold setEqual, setFlag. registers_eq. }
  assert (HipR5 : ip R5 = i + 11) by (subst R5 R4 R2; now destruct r).
  assert (Run6 : reaches 1 (machine vm0 R5 m1) (machine vm0 R6 m1)).
  { apply (step_plain vm0 CLE).
    - apply (instruction_at_transfer_1 m); [ | in_opcode_table | reflexivity | | | ];
        rewrite ?HipR5; unfold SIZE; try lia.
      + replace (i + 11) with (i + 3 + 3 + 3 + 1 + 1) by lia. exact Icle.
      + apply Hcode1; lia.
    - reflexivity.
    - discriminate.
    - rewrite HipR5. unfold is_u16. lia.
    - rewrite HipR5. replace (i + 11 + 1) with (i + 12) by lia. reflexivity. }
  exists R6, m1. split.
  - change 6%nat with (1 + (1 + (1 + (1 + (1 + 1)))))%nat.
    apply (reaches_trans _ _ _ _ _ Run1).
    apply (reaches_trans _ _ _ _ _ Run2).
    apply (reaches_trans _ _ _ _ _ Run3).
    apply (reaches_trans _ _ _ _ _ Run4).
    apply (reaches_trans _ _ _ _ _ Run5).
    exact Run6.
  - assert (Hflag : Z.testbit (flags R6) 3 = false).
    { subst R6. unfold setEqual. change Flag.Equal with (2 ^ 3).
      rewrite setFlag_testbit; [reflexivity | | lia].
      subst R5. unfold setEqual, setFlag. cbn [flags set_flags set_ip]. apply is_u16_u16. }
    assert (Hax6 : ax R6 = u16 (0 - v)) by (subst R6 R5 R4 R2; now destruct r).
    split; [rewrite Hax6; now apply u16_opposite|].
    split; [exact Hax6|].
    split; [subst R6 R5 R4 R2; now destruct r|].
    split; [exact Hflag|].
    subst R6 R5 R4 R2 s i. destruct r as [a0 b0 c0 d0 s0 i0 f0]. cbn. tauto.
Qed.

Lemma condition_code_tests_AX_for_zero_witness :
  exists (r' : Registers) (m' : Memory),
    reaches 6
      (machine new_VM (set_ax 7 new_registers)
         (memory (loadProgram [I1 PUSH 0; I1 POP 1; I1 MOV 0; I0 SUB; I0 STE; I0 CLE]
                    new_VM)))
      (machine new_VM r' m') /\
    ax r' = 65529 /\ bx r' = 7.
Proof.
  destruct (condition_code_tests_AX_for_zero new_VM fresh
              [I1 PUSH 0; I1 POP 1; I1 MOV 0; I0 SUB; I0 STE; I0 CLE]
              (set_ax 7 new_registers)
              (memory (loadProgram [I1 PUSH 0; I1 POP 1; I1 MOV 0; I0 SUB; I0 STE; I0 CLE]
                         new_VM)))
    as (r' & m' & Run & _ & Hax & Hbx & _).
  - reflexivity.
  - unfold registers_u16, is_u16. cbn. lia.
  - apply loaded_machine; [apply length_replicate | | vm_compute; reflexivity].
    repeat (apply List.Forall_cons; [prove_encodable|]). apply List.Forall_nil.
  - vm_compute. repeat apply conj; reflexivity || exact I.
  - vm_compute. discriminate.
  - exists r', m'. split; [exact Run|]. split; [exact Hax | exact Hbx].
Defined.

(** * The helpers of RohitUtils.cpp *)

(** ** nstoh *)

Lemma nstoh_bytes (x : Z) :
  is_u16 x -> RohitUtils.nstoh x = 256 * (x mod 256) + x / 256.
Proof.
  intros Hx. unfold RohitUtils.nstoh, u8, u16.
  change 0x00FF with (Z.ones 8). rewrite Z.land_ones by lia. change (2 ^ 8) with 256.
  assert (Hhigh : Z.shiftr (Z.land x 0xFF00) 8 = x / 256).
  { change 256 with (2 ^ 8). rewrite <- Z.shiftr_div_pow2 by lia.
    apply Z.bits_inj'. intros n Hn.
    rewrite !Z.shiftr_spec, Z.land_spec by lia.
    change 0xFF00 with (Z.shiftl (Z.ones 8) 8).
    rewrite Z.shiftl_spec by lia. replace (n + 8 - 8) with n by lia.
    destruct (Z.ltb_spec n 8) as [Hlt|Hge].
    - rewrite Z.ones_spec_low by lia. apply andb_true_r.
    - rewrite Z.ones_spec_high by lia. rewrite andb_false_r.
      symmetry. apply testbit_above_u16; [exact Hx | lia]. }
  rewrite Hhigh. unfold is_u16 in Hx.
  assert (Hlo : 0 <= x mod 256 < 256) by (apply Z.mod_pos_bound; lia).
  assert (Hhi : 0 <= x / 256 < 256).
  { split; [apply Z.div_pos; lia | apply Z.div_lt_upper_bound; lia]. }
  rewrite (Z.mod_small (x mod 256)) by lia.
  rewrite (Z.mod_small (x / 256)) by lia.
  rewrite <- Z.add_nocarry_lor.
  - rewrite Z.shiftl_mul_pow2 by lia. change (2 ^ 8) with 256.
    rewrite Z.mod_small by lia. lia.
  - apply Z.bits_inj'. intros n Hn. rewrite Z.land_spec, Z.bits_0.
    destruct (Z.ltb_spec n 8) as [Hlt|Hge].
    + rewrite Z.shiftl_spec_low by lia. reflexivity.
    + assert (Hb : Z.testbit (x / 256) n = false).
      { destruct (Z.eq_dec (x / 256) 0) as [E|E]; [rewrite E; apply Z.bits_0|].
        apply Z.bits_above_log2; [lia|].
        apply Z.lt_le_trans with 8; [|lia].
        apply Z.log2_lt_pow2; [lia | change (2 ^ 8) with 256; lia]. }
      rewrite Hb. apply andb_false_r.
Qed.

(** X14.  [nstoh] swaps the two bytes of a sixteen-bit value: the result is
    the low byte times 256 plus the high byte, and swapping twice gives the
    value back. *)
Theorem nstoh_swaps_back (x : Z) :
  is_u16 x ->
  RohitUtils.nstoh x = 256 * (x mod 256) + x / 256 /\
  is_u16 (RohitUtils.nstoh x) /\
  RohitUtils.nstoh (RohitUtils.nstoh x) = x.
Proof.
  intros Hx.
  assert (Hlo : 0 <= x mod 256 < 256) by (apply Z.mod_pos_bound; lia).
  assert (Hhi : 0 <= x / 256 < 256).
  { unfold is_u16 in Hx.
    split; [apply Z.div_pos; lia | apply Z.div_lt_upper_bound; lia]. }
  assert (Hy : is_u16 (256 * (x mod 256) + x / 256)) by (unfold is_u16; lia).
  rewrite (nstoh_bytes x Hx). split; [reflexivity|]. split; [exact Hy|].
  rewrite (nstoh_bytes _ Hy).
  replace ((256 * (x mod 256) + x / 256) mod 256) with (x / 256).
  - replace ((256 * (x mod 256) + x / 256) / 256) with (x mod 256).
    + pose proof (Z.div_mod x 256 ltac:(lia)). lia.
    + symmetry. rewrite Z.add_comm, Z.mul_comm, Z.div_add by lia.
      rewrite Z.div_small by lia. lia.
  - symmetry. rewrite Z.add_comm, Z.mul_comm, Z_mod_plus_full. apply Z.mod_small. lia.
Qed.

Lemma nstoh_swaps_back_witness :
  RohitUtils.nstoh 0x1234 = 0x3412 /\ RohitUtils.nstoh (RohitUtils.nstoh 0x1234) = 0x1234.
Proof.
  destruct (nstoh_swaps_back 0x1234) as (H1 & _ & H2).
  - unfold is_u16. lia.
  - split; [rewrite H1; reflexivity | exact H2].
Defined.

(** ** copy and zero *)

Lemma copy_loop_invariant (dst src size : Z) (m : list Z) (from : Z -> Z) :
  0 <= dst -> dst + size <= Z.of_nat (length m) ->
  (forall i mi, 0 <= i < size -> copied dst m from i mi ->
                mem_get mi (src + i) = mem_get m (from i)) ->
  forall (n : nat) (i : Z) (mi : list Z),
    0 <= i -> i + Z.of_nat n = size ->
    copied dst m from i mi ->
    copied dst m from size (RohitUtils.copy_loop n dst src i mi).
Proof.
  intros Hdst Hfits Hread. induction n as [|n IH]; intros i mi Hi Hn Hinv;
    cbn [RohitUtils.copy_loop].
  - now replace size with i by lia.
  - apply IH; [lia | lia |].
    pose proof (Hread i mi ltac:(lia) Hinv) as Hval.
    destruct Hinv as (Hlen & Hdone & Hrest).
    split; [now rewrite length_mem_set|]. split.
    + intros k Hk. destruct (Z.eq_dec k i) as [-> | Hne].
      * rewrite mem_get_set_eq by lia. exact Hval.
      * rewrite mem_get_set_ne by lia. apply Hdone. lia.
    + intros a Ha Hout. rewrite mem_get_set_ne by lia. apply Hrest; lia.
Qed.

Lemma copied_start (dst : Z) (m : list Z) (from : Z -> Z) : copied dst m from 0 m.
Proof. split; [reflexivity|]. split; [intros k Hk; lia | reflexivity]. Qed.

(** X15.  When the destination does not begin inside the source after its
    first byte ([dst <= src], or the source ends before [dst]), [copy]
    behaves as [memmove]: the [size] cells from [dst] receive the bytes the
    [size] cells from [src] held before the call, and no other cell
    changes. *)
Theorem copy_moves_the_block (dst src size : Z) (m : list Z) :
  0 <= dst -> 0 <= src -> is_u16 size ->
  dst + size <= Z.of_nat (length m) -> src + size <= Z.of_nat (length m) ->
  dst <= src \/ src + size <= dst ->
  length (RohitUtils.copy dst src size m) = length m /\
  (forall k, 0 <= k < size ->
             mem_get (RohitUtils.copy dst src size m) (dst + k) = mem_get m (src + k)) /\
  (forall a, 0 <= a -> a < dst \/ dst + size <= a ->
             mem_get (RohitUtils.copy dst src size m) a = mem_get m a).
Proof.
  intros Hdst Hsrc [Hsize _] Hdf Hsf Hfree.
  apply (copy_loop_invariant dst src size m (fun k => src + k) Hdst Hdf);
    [ | lia | lia | apply copied_start].
  intros i mi Hi (_ & _ & Hrest). apply Hrest; lia.
Qed.

Lemma copy_moves_the_block_witness :
  mem_get (RohitUtils.copy 0 1 3 [10; 20; 30; 40]) 2 = 40 /\
  mem_get (RohitUtils.copy 0 1 3 [10; 20; 30; 40]) 3 = 40.
Proof.
  destruct (copy_moves_the_block 0 1 3 [10; 20; 30; 40]) as (_ & Hin & Hout);
    try (unfold is_u16; cbn; lia).
  split.
  - apply (Hin 2). lia.
  - apply (Hout 3); lia.
Defined.

(** X16.  When the destination begins [d] bytes after the source, inside
    it, [copy] does not move the block: it repeats the first [d] bytes of the
    source, cell [dst + k] receiving what cell [src + k mod d] held. *)
Theorem copy_into_its_source_repeats (src d size : Z) (m : list Z) :
  0 <= src -> 0 < d -> is_u16 size ->
  src + d + size <= Z.of_nat (length m) ->
  forall k, 0 <= k < size ->
    mem_get (RohitUtils.copy (src + d) src size m) (src + d + k)
    = mem_get m (src + k mod d).
Proof.
  intros Hsrc Hd [Hsize _] Hfits.
  apply (copy_loop_invariant (src + d) src size m (fun k => src + k mod d)
           ltac:(lia) Hfits);
    [ | lia | lia | apply copied_start].
  intros i mi Hi (_ & Hdone & Hrest).
  destruct (Z_lt_le_dec i d) as [Hlt|Hge].
  - rewrite Z.mod_small by lia. apply Hrest; lia.
  - replace (src + i) with (src + d + (i - d)) by lia.
    rewrite Hdone by lia. f_equal. f_equal.
    replace i with ((i - d) + 1 * d) at 2 by lia. now rewrite Z_mod_plus_full.
Qed.

Lemma copy_into_its_source_repeats_witness :
  mem_get (RohitUtils.copy 1 0 3 [10; 20; 30; 40]) 3 = 10.
Proof.
  apply (copy_into_its_source_repeats 0 1 3 [10; 20; 30; 40] ltac:(lia) ltac:(lia)
           ltac:(unfold is_u16; lia) ltac:(cbn; lia) 2).
  lia.
Defined.

Lemma zero_loop_spec (str : Z) (n : nat) : forall (i : Z) (m : list Z),
  0 <= str -> 0 <= i -> str + i + Z.of_nat n <= Z.of_nat (length m) ->
  length (RohitUtils.zero_loop n str i m) = length m /\
  (forall a, str + i <= a < str + i + Z.of_nat n ->
             mem_get (RohitUtils.zero_loop n str i m) a = 0) /\
  (forall a, 0 <= a -> a < str + i \/ str + i + Z.of_nat n <= a ->
             mem_get (RohitUtils.zero_loop n str i m) a = mem_get m a).
Proof.
  induction n as [|n IH]; intros i m Hstr Hi Hfits; cbn [RohitUtils.zero_loop].
  - split; [reflexivity|]. split; [intros a Ha; lia | reflexivity].
  - destruct (IH (i + 1) (mem_set m (str + i) 0) Hstr ltac:(lia)
                ltac:(rewrite length_mem_set; lia)) as (Hlen & Hin & Hout).
    rewrite length_mem_set in Hlen.
    split; [exact Hlen|]. split.
    + intros a Ha. destruct (Z.eq_dec a (str + i)) as [-> | Hne].
      * rewrite Hout by lia. apply mem_get_set_eq. lia.
      * apply Hin. lia.
    + intros a Ha Hfar. rewrite Hout by lia. apply mem_get_set_ne; lia.
Qed.

(** X17.  [zero] clears the [size] cells from [str] and no other cell. *)
Theorem zero_clears_the_block_only (str size : Z) (m : list Z) :
  0 <= str -> is_u16 size -> str + size <= Z.of_nat (length m) ->
  length (RohitUtils.zero str size m) = length m /\
  (forall a, str <= a < str + size -> mem_get (RohitUtils.zero str size m) a = 0) /\
  (forall a, 0 <= a -> a < str \/ str + size <= a ->
             mem_get (RohitUtils.zero str size m) a = mem_get m a).
Proof.
  intros Hstr [Hsize _] Hfits. unfold RohitUtils.zero.
  destruct (zero_loop_spec str (Z.to_nat size) 0 m Hstr ltac:(lia) ltac:(lia))
    as (Hlen & Hin & Hout).
  split; [exact Hlen|]. split.
  - intros a Ha. apply Hin. lia.
  - intros a Ha Hfar. apply Hout; lia.
Qed.

Lemma zero_clears_the_block_only_witness :
  mem_get (RohitUtils.zero 1 2 [10; 20; 30; 40]) 2 = 0 /\
  mem_get (RohitUtils.zero 1 2 [10; 20; 30; 40]) 3 = 40.
Proof.
  destruct (zero_clears_the_block_only 1 2 [10; 20; 30; 40]) as (_ & Hin & Hout);
    try (unfold is_u16; cbn; lia).
  split; [apply Hin; lia | apply (Hout 3); lia].
Defined.

(** ** printhex *)

Lemma hex_digit_inj (x y : Z) :
  0 <= x < 16 -> 0 <= y < 16 -> hex_digit x = hex_digit y -> x = y.
Proof.
  intros Hx Hy H.
  assert (Ex : x = 0 \/ x = 1 \/ x = 2 \/ x = 3 \/ x = 4 \/ x = 5 \/ x = 6 \/ x = 7 \/
               x = 8 \/ x = 9 \/ x = 10 \/ x = 11 \/ x = 12 \/ x = 13 \/ x = 14 \/ x = 15)
    by lia.
  assert (Ey : y = 0 \/ y = 1 \/ y = 2 \/ y = 3 \/ y = 4 \/ y = 5 \/ y = 6 \/ y = 7 \/
               y = 8 \/ y = 9 \/ y = 10 \/ y = 11 \/ y = 12 \/ y = 13 \/ y = 14 \/ y = 15)
    by lia.
  repeat (destruct Ex as [-> | Ex]);
    repeat (destruct Ey as [-> | Ey]); try subst; try reflexivity; discriminate H.
Qed.

Lemma hex2_inj (a b : Z) :
  0 <= a < 256 -> 0 <= b < 256 -> hex2 a = hex2 b -> a = b.
Proof.
  intros Ha Hb H. unfold hex2 in H. injection H as H1 H2.
  assert (Hq : a / 16 = b / 16).
  { apply hex_digit_inj; [| |exact H1];
      (split; [apply Z.div_pos; lia | apply Z.div_lt_upper_bound; lia]). }
  assert (Hr : a mod 16 = b mod 16).
  { apply hex_digit_inj; [| |exact H2]; apply Z.mod_pos_bound; lia. }
  rewrite (Z.div_mod a 16), (Z.div_mod b 16) by lia. now rewrite Hq, Hr.
Qed.

Lemma printhex_inj (delim : ascii) (l1 l2 : list Z) :
  Forall (fun b => 0 <= b < 256) l1 ->
  Forall (fun b => 0 <= b < 256) l2 ->
  printhex l1 delim = printhex l2 delim ->
  l1 = l2.
Proof.
  intros H1. revert l2.
  induction H1 as [|a l1 Ha _ IH]; intros l2 H2 H; destruct H2 as [|b l2 Hb H2].
  - reflexivity.
  - cbn [printhex fold_right] in H. unfold hex2, nl in H. discriminate H.
  - cbn [printhex fold_right] in H. unfold hex2, nl in H. discriminate H.
  - cbn [printhex fold_right] in H.
    fold (printhex l1 delim) in H. fold (printhex l2 delim) in H.
    assert (Hsplit : hex2 a = hex2 b /\ printhex l1 delim = printhex l2 delim).
    { unfold hex2 in *.
      change (String ?c1 (String ?c2 EmptyString) +:+ ?s)
        with (String c1 (String c2 s)) in H.
      injection H as E1 E2 E3.
      split; [now rewrite E1, E2|].
      destruct (Ascii.eqb delim zero); [exact E3|].
      now injection E3. }
    destruct Hsplit as [Hhead Htail].
    f_equal; [now apply hex2_inj | now apply IH].
Qed.

(** X18.  The dump [printhex] writes tells blocks of bytes apart: with the
    same delimiter, or with none, two different blocks never give the same
    text. *)
Theorem printhex_tells_blocks_apart (delim : ascii) (l1 l2 : list Z) :
  Forall (fun b => 0 <= b < 256) l1 ->
  Forall (fun b => 0 <= b < 256) l2 ->
  l1 <> l2 ->
  printhex l1 delim <> printhex l2 delim.
Proof. intros H1 H2 Hne H. apply Hne. now apply (printhex_inj delim). Qed.

Lemma printhex_tells_blocks_apart_witness :
  printhex [1; 255] " " <> printhex [1; 254] " ".
Proof.
  apply (printhex_tells_blocks_apart " " [1; 255] [1; 254]).
  - repeat (apply List.Forall_cons; [lia|]). apply List.Forall_nil.
  - repeat (apply List.Forall_cons; [lia|]). apply List.Forall_nil.
  - discriminate.
Defined.

(** ** todotted *)

Lemma masked_byte (x mask k : Z) :
  0 <= k -> Z.shiftr mask k = Z.ones 8 ->
  0 <= Z.shiftr (Z.land x mask) k < 256.
Proof.
  intros Hk Hmask. rewrite Z.shiftr_land, Hmask, Z.land_ones by lia.
  apply Z.mod_pos_bound. lia.
Qed.

Lemma show_dec_byte (x : Z) :
  0 <= x < 256 -> (String.length (show_dec x) <= 3)%nat.
Proof.
  intros Hx.
  assert (H : forallb (fun b => Nat.leb (String.length (show_dec b)) 3) (seqZ 0 256) = true)
    by (vm_compute; reflexivity).
  rewrite List.forallb_forall in H.
  apply Nat.leb_le, H, list_elem_of_In, elem_of_seqZ. lia.
Qed.

Lemma string_length_app (s1 s2 : string) :
  String.length (s1 +:+ s2) = (String.length s1 + String.length s2)%nat.
Proof.
  induction s1 as [|c s IH]; [reflexivity|].
  change (S (String.length (s +:+ s2)) = S (String.length s + String.length s2)).
  now f_equal.
Qed.

Lemma substring_whole (s : string) : forall n : nat,
  (String.length s <= n)%nat -> String.substring 0 n s = s.
Proof.
  induction s as [|c s IH]; intros n Hn.
  - now destruct n.
  - destruct n as [|n]; [cbn in Hn; lia|].
    cbn [String.substring]. f_equal. apply IH. cbn in Hn. lia.
Qed.

(** X19.  For every 32-bit address the dotted text fits the sixteen-byte
    buffer of [todotted]: [snprintf] cuts nothing off, and the text has at
    most fifteen characters. *)
Theorem todotted_is_never_cut (ip : Z) :
  0 <= ip < 2 ^ 32 ->
  RohitUtils.todotted ip = RohitUtils.dotted ip /\
  (String.length (RohitUtils.todotted ip) <= 15)%nat.
Proof.
  intros Hip.
  assert (Hlen : (String.length (RohitUtils.dotted ip) <= 15)%nat).
  { unfold RohitUtils.dotted. rewrite !string_length_app.
    pose proof (show_dec_byte _ (masked_byte ip 0xFF000000 24 ltac:(lia) eq_refl)).
    pose proof (show_dec_byte _ (masked_byte ip 0x00FF0000 16 ltac:(lia) eq_refl)).
    pose proof (show_dec_byte _ (masked_byte ip 0x0000FF00 8 ltac:(lia) eq_refl)).
    pose proof (show_dec_byte _ (masked_byte ip 0x000000FF 0 ltac:(lia) eq_refl)) as H4.
    rewrite Z.shiftr_0_r in H4.
    change (String.length ".") with 1%nat. lia. }
  unfold RohitUtils.todotted. rewrite substring_whole by exact Hlen.
  split; [reflexivity | exact Hlen].
Qed.

Lemma todotted_is_never_cut_witness :
  RohitUtils.todotted 3232235777 = RohitUtils.dotted 3232235777.
Proof. apply (todotted_is_never_cut 3232235777). lia. Defined.

(** * The emitted file determines the program *)

Lemma string_app_cons (c : ascii) (s t : string) : String c s +:+ t = String c (s +:+ t).
Proof. reflexivity. Qed.

Lemma string_app_cancel (p s t : string) : p +:+ s = p +:+ t -> s = t.
Proof.
  induction p as [|c p IH]; [exact id|].
  rewrite !string_app_cons. intros H. injection H as H. now apply IH.
Qed.

(** Two words followed by closing characters are told apart. *)
Lemma word_split (w1 : string) : forall (w2 t1 t2 : string),
  string_all (fun c => ~ closes_word c) w1 ->
  string_all (fun c => ~ closes_word c) w2 ->
  begins_with closes_word t1 -> begins_with closes_word t2 ->
  w1 +:+ t1 = w2 +:+ t2 ->
  w1 = w2 /\ t1 = t2.
Proof.
  induction w1 as [|c1 w1 IH]; intros [|c2 w2] t1 t2 H1 H2 B1 B2 E.
  - split; [reflexivity | exact E].
  - exfalso. change (t1 = String c2 (w2 +:+ t2)) in E. subst t1.
    cbn in B1. destruct H2 as [H2 _]. contradiction.
  - exfalso. change (String c1 (w1 +:+ t1) = t2) in E. subst t2.
    cbn in B2. destruct H1 as [H1 _]. contradiction.
  - rewrite !string_app_cons in E. injection E as -> E.
    destruct H1 as [_ H1], H2 as [_ H2].
    destruct (IH w2 t1 t2 H1 H2 B1 B2 E) as [-> ->]. split; reflexivity.
Qed.

Lemma string_all_uint (d : Decimal.uint) :
  string_all (fun c => ~ closes_word c) (NilEmpty.string_of_uint d).
Proof.
  induction d; cbn [NilEmpty.string_of_uint string_all]; [exact I|..];
    (split; [intros [H | H]; discriminate H | assumption]).
Qed.

Lemma string_all_nilzero (d : Decimal.uint) :
  string_all (fun c => ~ closes_word c) (NilZero.string_of_uint d).
Proof.
  destruct d; try apply (string_all_uint (_ d)).
  cbn. split; [intros [H | H]; discriminate H | exact I].
Qed.

Lemma show_dec_word (z : Z) :
  0 <= z -> string_all (fun c => ~ closes_word c) (show_dec z).
Proof.
  intros Hz. unfold show_dec. destruct z as [|p|p]; [| |lia]; apply string_all_nilzero.
Qed.

Lemma show_dec_inj (z1 z2 : Z) : show_dec z1 = show_dec z2 -> z1 = z2.
Proof.
  unfold show_dec. intros H. apply DecimalZ.to_int_inj.
  assert (Hok : forall z, NilZero.int_of_string (NilZero.string_of_int (Z.to_int z))
                          = Some (Z.to_int z)).
  { intros z. apply NilZero.isi; destruct z as [|p|p]; cbn; try discriminate;
      intros E; injection E as E; now apply Unsigned.to_uint_nonnil in E. }
  pose proof (Hok z1) as E1. rewrite H, Hok in E1. now injection E1.
Qed.

Lemma opcode_name_word (o : Opcode) :
  In o opcode_table -> string_all (fun c => ~ closes_word c) (Emitter.opcode_name o).
Proof.
  unfold opcode_table. cbn [In]. intros H.
  repeat (destruct H as [<- | H];
          [cbn; repeat (split; [intros [E | E]; discriminate E|]); exact I|]).
  contradiction.
Qed.

Lemma line_split (i1 i2 : Instruction) (r1 r2 : string) :
  emittable i1 -> emittable i2 ->
  Emitter.instruction_text i1 +:+ r1 = Emitter.instruction_text i2 +:+ r2 ->
  i1 = i2 /\ r1 = r2.
Proof.
  intros [(Ho1 & Ha1 & Hb1 & Hz1) Hj1] [(Ho2 & Ha2 & Hb2 & Hz2) Hj2] E.
  unfold Emitter.instruction_text in E. rewrite !string_app_assoc in E.
  apply string_app_cancel in E.
  destruct (emitter_keeps_the_other_opcodes _ _ Ho1 Ho2 Hj1 Hj2) as [Hname Hw1].
  destruct (emitter_keeps_the_other_opcodes _ _ Ho2 Ho1 Hj2 Hj1) as [_ Hw2].
  apply word_split in E as [En Et];
    [ | now apply opcode_name_word | now apply opcode_name_word
      | destruct (Emitter.writes_operand (op i1)); cbn; [now left | now right]
      | destruct (Emitter.writes_operand (op i2)); cbn; [now left | now right] ].
  apply Hname in En.
  assert (Hrest : a1 i1 = a1 i2 /\ r1 = r2).
  { rewrite <- En in Et, Hw2, Hz2.
    destruct (Emitter.writes_operand (op i1)).
    - rewrite !string_app_assoc in Et. apply string_app_cancel in Et.
      apply word_split in Et as [Ed Er];
        [ | apply show_dec_word; apply Ha1 | apply show_dec_word; apply Ha2
          | cbn; now right | cbn; now right ].
      split; [now apply show_dec_inj|].
      now do 2 apply string_app_cancel in Er.
    - change (EmptyString +:+ ?s) with s in Et. do 2 apply string_app_cancel in Et.
      split; [|exact Et].
      assert (Hs : getInstructionSize (op i1) = 1).
      { destruct (opcode_table_size _ Ho1) as [[Hs | Hs] _]; [exact Hs|].
        rewrite Hs in Hw1. discriminate Hw1. }
      now rewrite Hz1, Hz2. }
  destruct Hrest as [Ea Er]. split; [|exact Er].
  destruct i1, i2. cbn in *. congruence.
Qed.

Lemma file_text_inj (l1 l2 : list Instruction) :
  Forall emittable l1 -> Forall emittable l2 ->
  Emitter.file_text l1 = Emitter.file_text l2 -> l1 = l2.
Proof.
  intros H1 H2 E. unfold Emitter.file_text in E.
  do 5 apply string_app_cancel in E.
  revert l2 H2 E.
  induction H1 as [|i1 l1 Hi1 _ IH]; intros l2 H2 E; destruct H2 as [|i2 l2 Hi2 H2];
    cbn [fold_right] in E.
  - reflexivity.
  - exfalso. unfold Emitter.instruction_text in E. discriminate E.
  - exfalso. unfold Emitter.instruction_text in E. discriminate E.
  - apply line_split in E as [-> E]; [|assumption..].
    f_equal. now apply IH.
Qed.

(** X20.  Without jumps, the file [writeToFile] writes determines the
    program: two different lists of encodable instructions, none of them a
    [JMP], [JZ] or [JNZ], never give the same file. *)
Theorem emitter_tells_programs_without_jumps_apart (l1 l2 : list Instruction) :
  Forall emittable l1 -> Forall emittable l2 ->
  l1 <> l2 ->
  Emitter.writeToFile true l1 <> Emitter.writeToFile true l2.
Proof.
  intros H1 H2 Hne E. apply Hne. unfold Emitter.writeToFile in E.
  apply (file_text_inj l1 l2 H1 H2). congruence.
Qed.

Lemma emitter_tells_programs_without_jumps_apart_witness :
  Emitter.writeToFile true [I1 MOV 1; I0 HLT] <> Emitter.writeToFile true [I1 MOV 2; I0 HLT].
Proof.
  apply emitter_tells_programs_without_jumps_apart.
  - repeat (apply List.Forall_cons;
            [split; [prove_encodable | intros [H | [H | H]]; discriminate H]|]).
    apply List.Forall_nil.
  - repeat (apply List.Forall_cons;
            [split; [prove_encodable | intros [H | [H | H]]; discriminate H]|]).
    apply List.Forall_nil.
  - discriminate.
Defined.


(** * The lexer *)

Local Open Scope nat_scope.

Lemma peek_at_end (lx : Lexer.t) :
  length (Lexer.src lx) <= Lexer.pos lx -> Lexer.peek lx = zero.
Proof. intros H. unfold Lexer.peek. now rewrite lookup_ge_None_2. Qed.

Lemma peek_inside (lx : Lexer.t) :
  Lexer.peek lx <> zero ->
  Lexer.pos lx < length (Lexer.src lx) /\
  drop (Lexer.pos lx) (Lexer.src lx)
  = Lexer.peek lx :: drop (S (Lexer.pos lx)) (Lexer.src lx).
Proof.
  intros H. unfold Lexer.peek in *.
  destruct (Lexer.src lx !! Lexer.pos lx) as [c|] eqn:E; [|contradiction].
  split; [eapply lookup_lt_Some; eassumption|].
  cbn. now apply drop_S.
Qed.

Lemma advance_inside (lx : Lexer.t) :
  Lexer.peek lx <> zero ->
  Lexer.advance lx = (Lexer.peek lx, Lexer.mk (Lexer.src lx) (S (Lexer.pos lx))).
Proof.
  intros H. destruct (peek_inside lx H) as [Hlt _]. unfold Lexer.advance.
  destruct (Nat.ltb_spec (Lexer.pos lx) (length (Lexer.src lx))); [reflexivity | lia].
Qed.

(** The loop [while (p(peek())) advance();] stops on its own. *)
Lemma advance_while_spec (p : ascii -> bool) (fuel : nat) : forall lx : Lexer.t,
  p zero = false ->
  length (Lexer.src lx) - Lexer.pos lx <= fuel ->
  Lexer.src (Lexer.advance_while p fuel lx) = Lexer.src lx /\
  Lexer.pos lx <= Lexer.pos (Lexer.advance_while p fuel lx) /\
  (Lexer.pos lx <= length (Lexer.src lx) ->
   Lexer.pos (Lexer.advance_while p fuel lx) <= length (Lexer.src lx)) /\
  Forall (fun c => p c = true)
    (take (Lexer.pos (Lexer.advance_while p fuel lx) - Lexer.pos lx)
       (drop (Lexer.pos lx) (Lexer.src lx))) /\
  p (Lexer.peek (Lexer.advance_while p fuel lx)) = false /\
  (p (Lexer.peek lx) = true -> Lexer.pos lx < Lexer.pos (Lexer.advance_while p fuel lx)).
Proof.
  assert (Hstay : forall lx : Lexer.t,
            p (Lexer.peek lx) = false ->
            Lexer.src lx = Lexer.src lx /\
            Lexer.pos lx <= Lexer.pos lx /\
            (Lexer.pos lx <= length (Lexer.src lx) ->
             Lexer.pos lx <= length (Lexer.src lx)) /\
            Forall (fun c => p c = true)
              (take (Lexer.pos lx - Lexer.pos lx) (drop (Lexer.pos lx) (Lexer.src lx))) /\
            p (Lexer.peek lx) = false /\
            (p (Lexer.peek lx) = true -> Lexer.pos lx < Lexer.pos lx)).
  { intros lx Hp. rewrite Nat.sub_diag. cbn [take].
    split; [reflexivity|]. split; [lia|]. split; [exact id|].
    split; [constructor|]. split; [exact Hp|]. rewrite Hp. discriminate. }
  induction fuel as [|fuel IH]; intros lx Hz Hfuel.
  - cbn [Lexer.advance_while]. apply Hstay. rewrite peek_at_end by lia. exact Hz.
  - destruct (Bool.bool_dec (p (Lexer.peek lx)) true) as [Hp | Hp].
    + assert (Hne : Lexer.peek lx <> zero) by (intros E; rewrite E, Hz in Hp; discriminate).
      destruct (peek_inside lx Hne) as [Hlt Hdrop].
      set (lx1 := Lexer.mk (Lexer.src lx) (S (Lexer.pos lx))).
      assert (E : Lexer.advance_while p (S fuel) lx = Lexer.advance_while p fuel lx1).
      { cbn [Lexer.advance_while]. now rewrite Hp, (advance_inside lx Hne). }
      rewrite E.
      destruct (IH lx1 Hz ltac:(cbn; lia)) as (Hs & Hpos & Hin & Hall & Hstop & _).
      cbn [Lexer.src Lexer.pos lx1] in *.
      split; [exact Hs|]. split; [lia|]. split; [intros _; apply Hin; lia|].
      split; [|split; [exact Hstop | intros _; lia]].
      rewrite Hdrop.
      replace (Lexer.pos (Lexer.advance_while p fuel lx1) - Lexer.pos lx)
        with (S (Lexer.pos (Lexer.advance_while p fuel lx1) - S (Lexer.pos lx))) by lia.
      cbn [take]. constructor; assumption.
    + apply Bool.not_true_is_false in Hp.
      assert (E : Lexer.advance_while p (S fuel) lx = lx).
      { cbn [Lexer.advance_while]. now rewrite Hp. }
      rewrite E. now apply Hstay.
Qed.

Lemma one_character (lx : Lexer.t) (kind : TokenType.t) :
  Lexer.peek lx <> zero -> kind <> TokenType.EndOfFile ->
  consumes lx (Lexer.mkToken kind (String (Lexer.peek lx) EmptyString),
               snd (Lexer.advance lx)).
Proof.
  intros Hne Hkind. destruct (peek_inside lx Hne) as [Hlt Hdrop].
  rewrite (advance_inside lx Hne). unfold consumes. cbn [fst snd Lexer.src Lexer.pos
    Lexer.type Lexer.text list_ascii_of_string].
  split; [reflexivity|]. split; [lia|]. split; [exact Hkind|].
  rewrite Hdrop. replace (S (Lexer.pos lx) - Lexer.pos lx) with 1 by lia.
  reflexivity.
Qed.

Lemma run_consumes (p : ascii -> bool) (lx : Lexer.t) (kind : TokenType.t) :
  p zero = false -> p (Lexer.peek lx) = true ->
  Lexer.pos lx <= length (Lexer.src lx) ->
  kind <> TokenType.EndOfFile ->
  let lx' := Lexer.advance_while p (length (Lexer.src lx)) lx in
  consumes lx (Lexer.mkToken kind (Lexer.substr lx' (Lexer.pos lx)), lx') /\
  Forall (fun c => p c = true) (list_ascii_of_string (Lexer.substr lx' (Lexer.pos lx))) /\
  p (Lexer.peek lx') = false.
Proof.
  intros Hz Hp Hpos Hkind lx'.
  destruct (advance_while_spec p (length (Lexer.src lx)) lx Hz ltac:(lia))
    as (Hs & Hle & Hin & Hall & Hstop & Hmove).
  fold lx' in Hs, Hle, Hin, Hall, Hstop, Hmove.
  assert (Htext : list_ascii_of_string (Lexer.substr lx' (Lexer.pos lx))
                  = take (Lexer.pos lx' - Lexer.pos lx) (drop (Lexer.pos lx) (Lexer.src lx))).
  { unfold Lexer.substr. now rewrite list_ascii_of_string_of_list_ascii, Hs. }
  split; [|split; [now rewrite Htext | exact Hstop]].
  unfold consumes. cbn [fst snd Lexer.type Lexer.text].
  split; [exact Hs|]. split; [split; [now apply Hmove | now apply Hin]|].
  split; [exact Hkind | exact Htext].
Qed.

Lemma string_all_Forall (P : ascii -> Prop) (s : string) :
  Forall P (list_ascii_of_string s) -> string_all P s.
Proof.
  induction s as [|c s IH]; cbn [list_ascii_of_string string_all]; [exact (fun _ => I)|].
  intros H. inversion H; subst. split; [assumption | now apply IH].
Qed.

Lemma keywords_Some (text : string) (kind : TokenType.t) :
  Lexer.keywords text = Some kind ->
  kind <> TokenType.EndOfFile /\
  forall next : ascii, Lexer.isalnum next = false ->
                       token_fits (Lexer.mkToken kind text) next.
Proof.
  unfold Lexer.keywords.
  repeat match goal with
         | |- context [String.eqb text ?k] =>
             destruct (String.eqb_spec text k) as [-> | _];
             [intros H; injection H as <-;
              split; [discriminate | intros next Hn; now split]|]
         end.
  discriminate.
Qed.

Lemma run_begins (p : ascii -> bool) (lx lx' : Lexer.t) (tok : Lexer.Token) :
  Lexer.peek lx <> zero -> consumes lx (tok, lx') ->
  begins_with (fun c => c = Lexer.peek lx) (Lexer.text tok).
Proof.
  intros Hne (_ & Hpos & _ & Htext). cbn [fst snd] in *.
  destruct (peek_inside lx Hne) as [_ Hdrop]. rewrite Hdrop in Htext.
  destruct (Lexer.pos lx' - Lexer.pos lx) as [|k] eqn:E; [lia|].
  cbn [take] in Htext.
  destruct (Lexer.text tok) as [|c s]; [discriminate Htext|].
  cbn in Htext. injection Htext as -> _. reflexivity.
Qed.

Lemma nextToken_spec (lx : Lexer.t) :
  Lexer.pos lx <= length (Lexer.src lx) ->
  let lx0 := Lexer.skipWhitespace lx in
  Lexer.src lx0 = Lexer.src lx /\
  Lexer.pos lx <= Lexer.pos lx0 <= length (Lexer.src lx) /\
  Forall (fun c => Lexer.isspace c = true)
    (take (Lexer.pos lx0 - Lexer.pos lx) (drop (Lexer.pos lx) (Lexer.src lx))) /\
  Lexer.isspace (Lexer.peek lx0) = false /\
  ((Lexer.nextToken lx = (Lexer.mkToken TokenType.EndOfFile EmptyString, lx0) /\
    Lexer.peek lx0 = zero) \/
   (Lexer.peek lx0 <> zero /\ consumes lx0 (Lexer.nextToken lx))) /\
  token_fits (fst (Lexer.nextToken lx)) (Lexer.peek (snd (Lexer.nextToken lx))).
Proof.
  intros Hpos lx0.
  destruct (advance_while_spec Lexer.isspace (length (Lexer.src lx)) lx eq_refl ltac:(lia))
    as (Hs & Hle & Hin & Hall & Hstop & _).
  fold (Lexer.skipWhitespace lx) in Hs, Hle, Hin, Hall, Hstop. fold lx0 in Hs, Hle, Hin, Hall, Hstop.
  split; [exact Hs|]. split; [split; [exact Hle | now apply Hin]|].
  split; [exact Hall|]. split; [exact Hstop|].
  assert (Hpos0 : Lexer.pos lx0 <= length (Lexer.src lx0)) by (rewrite Hs; now apply Hin).
  unfold Lexer.nextToken. fold lx0. cbv zeta.
  remember (Lexer.peek lx0) as c eqn:Hc.
  destruct (Ascii.eqb_spec c zero) as [E|Hne];
    [split; [left; split; [reflexivity | exact E]
            | cbn [fst snd]; split; [reflexivity | now rewrite <- Hc]]|].
  assert (Hne0 : Lexer.peek lx0 <> zero) by (now rewrite <- Hc).
  assert (Hone : forall kind, kind <> TokenType.EndOfFile ->
            consumes lx0 (Lexer.mkToken kind (String c EmptyString),
                          snd (Lexer.advance lx0))).
  { intros kind Hk. rewrite Hc. now apply one_character. }
  repeat match goal with
         | |- context [if Ascii.eqb c ?x then _ else _] =>
             destruct (Ascii.eqb_spec c x) as [E|?];
             [ try (split; [right; split; [exact Hne | rewrite <- E; apply Hone; discriminate]
                           | cbn; reflexivity])
             | ]
         end.
  - (* '=' *)
    rewrite (advance_inside lx0 Hne0). cbn [snd].
    set (lx1 := Lexer.mk (Lexer.src lx0) (S (Lexer.pos lx0))).
    unfold Lexer.match_.
    destruct (Ascii.eqb_spec (Lexer.peek lx1) "=") as [E1|N1].
    + assert (Hne1 : Lexer.peek lx1 <> zero) by (rewrite E1; discriminate).
      destruct (peek_inside lx0 Hne0) as [Hlt0 Hdrop0].
      destruct (peek_inside lx1 Hne1) as [Hlt1 Hdrop1].
      cbn [Lexer.src Lexer.pos lx1] in *.
      split; [right; split; [exact Hne|] | reflexivity].
      unfold consumes. cbn [fst snd Lexer.src Lexer.pos Lexer.type Lexer.text].
      split; [reflexivity|]. split; [lia|]. split; [discriminate|].
      rewrite Hdrop0, Hdrop1, <- Hc, E, E1.
      replace (S (S (Lexer.pos lx0)) - Lexer.pos lx0) with 2 by lia. reflexivity.
    + split; [right; split; [exact Hne|] | cbn; split; [reflexivity | exact N1]].
      pose proof (Hone TokenType.Assign ltac:(discriminate)) as H1.
      rewrite (advance_inside lx0 Hne0), E in H1. exact H1.
  - (* a digit *)
    destruct (Lexer.isdigit c) eqn:Hd.
    + unfold Lexer.number.
      destruct (run_consumes Lexer.isdigit lx0 TokenType.Number eq_refl
                  ltac:(now rewrite <- Hc) Hpos0 ltac:(discriminate))
        as (Hcons & Hrun & Hend).
      split; [right; split; [exact Hne | exact Hcons]|].
      cbn [fst snd]. unfold token_fits. cbn [Lexer.type Lexer.text].
      split; [|split; [now apply string_all_Forall | exact Hend]].
      pose proof (run_begins Lexer.isdigit _ _ _ Hne0 Hcons) as Hb.
      cbn [Lexer.text] in Hb.
      destruct (Lexer.substr _ _) as [|c0 s]; [contradiction|].
      cbn in Hb |- *. subst c0. now rewrite <- Hc.
    + destruct (Lexer.isalpha c) eqn:Ha.
      * unfold Lexer.identifierOrKeyword. cbv zeta.
        assert (Hn : Lexer.isalnum (Lexer.peek lx0) = true).
        { rewrite <- Hc. unfold Lexer.isalnum. now rewrite Ha. }
        destruct (run_consumes Lexer.isalnum lx0 TokenType.Identifier eq_refl
                    Hn Hpos0 ltac:(discriminate))
          as (Hcons & Hrun & Hend).
        set (lx2 := Lexer.advance_while Lexer.isalnum (length (Lexer.src lx0)) lx0) in *.
        destruct (Lexer.keywords (Lexer.substr lx2 (Lexer.pos lx0))) as [kind|] eqn:Ek.
        -- destruct (keywords_Some _ _ Ek) as [Hk Hfits].
           split; [right; split; [exact Hne|] | now apply Hfits].
           destruct Hcons as (H1 & H2 & _ & H4).
           unfold consumes. cbn [fst snd Lexer.type Lexer.text] in *.
           repeat split; assumption || lia.
        -- split; [right; split; [exact Hne | exact Hcons]|].
           cbn [fst snd]. unfold token_fits. cbn [Lexer.type Lexer.text].
           split; [|split; [now apply string_all_Forall | split; [exact Hend | exact Ek]]].
           pose proof (run_begins Lexer.isalnum _ _ _ Hne0 Hcons) as Hb.
           cbn [Lexer.text] in Hb.
           destruct (Lexer.substr _ _) as [|c0 s]; [contradiction|].
           cbn in Hb |- *. subst c0. now rewrite <- Hc.
      * split; [right; split; [exact Hne | apply Hone; discriminate]|].
        cbn [fst snd]. unfold token_fits. cbn [Lexer.type Lexer.text].
        exists c. split; [reflexivity|]. split; [exact Hne|].
        split; [exact Hstop|]. unfold Lexer.isalnum. now rewrite Ha, Hd.
Qed.

(** ** The tokens of a source *)

Lemma alnum_is_solid (c : ascii) :
  Lexer.isalnum c = true -> Lexer.isspace c = false /\ c <> zero.
Proof.
  destruct c as [[] [] [] [] [] [] [] []]; vm_compute; intros H;
    try discriminate H; (split; [reflexivity | discriminate]).
Qed.

Lemma digit_is_alnum (c : ascii) : Lexer.isdigit c = true -> Lexer.isalnum c = true.
Proof. unfold Lexer.isalnum. intros ->. apply orb_true_r. Qed.

Lemma Forall_string_all (P : ascii -> Prop) (s : string) :
  string_all P s -> Forall P (list_ascii_of_string s).
Proof.
  induction s as [|c s IH]; cbn [list_ascii_of_string string_all]; [constructor|].
  intros [H1 H2]. constructor; [assumption | now apply IH].
Qed.

Lemma token_fits_solid (tok : Lexer.Token) (next : ascii) :
  token_fits tok next ->
  Forall (fun c => Lexer.isspace c = false /\ c <> zero)
    (list_ascii_of_string (Lexer.text tok)).
Proof.
  unfold token_fits. destruct tok as [kind text]. cbn [Lexer.type Lexer.text].
  destruct kind; intros H;
    try match type of H with
        | text = _ => subst text; repeat constructor; discriminate
        | text = _ /\ _ => destruct H as [-> _]; repeat constructor; discriminate
        end.
  - destruct H as (c & -> & Hc & Hs & _). repeat constructor; assumption.
  - destruct H as (_ & Hall & _). apply Forall_string_all in Hall.
    eapply Forall_impl; [exact Hall|]. intros c Hc. now apply alnum_is_solid.
  - destruct H as (_ & Hall & _). apply Forall_string_all in Hall.
    eapply Forall_impl; [exact Hall|]. intros c Hc.
    now apply alnum_is_solid, digit_is_alnum.
Qed.

Lemma before_nul_app (l1 l2 : list ascii) :
  Forall (fun c => c <> zero) l1 -> before_nul (l1 ++ l2) = l1 ++ before_nul l2.
Proof.
  induction 1 as [|c l Hc _ IH]; [reflexivity|].
  cbn [app before_nul]. destruct (Ascii.eqb_spec c zero); [contradiction|].
  now rewrite IH.
Qed.

Lemma before_nul_at_end (lx : Lexer.t) :
  Lexer.peek lx = zero -> before_nul (drop (Lexer.pos lx) (Lexer.src lx)) = [].
Proof.
  unfold Lexer.peek. intros H.
  destruct (Lexer.src lx !! Lexer.pos lx) as [c|] eqn:E.
  - cbn in H. subst c. rewrite (drop_S _ _ _ E). reflexivity.
  - rewrite drop_ge; [reflexivity|]. now apply lookup_ge_None.
Qed.

Lemma space_is_not_nul (c : ascii) : Lexer.isspace c = true -> c <> zero.
Proof. intros H ->. discriminate H. Qed.

Lemma collect_tokens_spec (fuel : nat) : forall lx : Lexer.t,
  Lexer.pos lx <= length (Lexer.src lx) ->
  length (Lexer.src lx) - Lexer.pos lx < fuel ->
  exists tokens : list Lexer.Token,
    collect_tokens fuel lx = Some tokens /\
    length tokens <= length (Lexer.src lx) - Lexer.pos lx /\
    Forall (fun tok => Lexer.type tok <> TokenType.EndOfFile) tokens /\
    spelling tokens
    = List.filter (fun c => negb (Lexer.isspace c))
        (before_nul (drop (Lexer.pos lx) (Lexer.src lx))).
Proof.
  induction fuel as [|fuel IH]; intros lx Hpos Hfuel; [lia|].
  destruct (nextToken_spec lx Hpos) as (Hs & Hle & Hspaces & Hstop & Hcases & Hfits).
  set (lx0 := Lexer.skipWhitespace lx) in *.
  assert (Hsplit : drop (Lexer.pos lx) (Lexer.src lx)
                   = take (Lexer.pos lx0 - Lexer.pos lx) (drop (Lexer.pos lx) (Lexer.src lx))
                     ++ drop (Lexer.pos lx0) (Lexer.src lx0)).
  { rewrite Hs. rewrite <- (take_drop (Lexer.pos lx0 - Lexer.pos lx)) at 1.
    f_equal. rewrite drop_drop. f_equal. lia. }
  set (spaces := take (Lexer.pos lx0 - Lexer.pos lx) (drop (Lexer.pos lx) (Lexer.src lx)))
    in *.
  assert (Hfilter : forall l, List.filter (fun c => negb (Lexer.isspace c)) (spaces ++ l)
                              = List.filter (fun c => negb (Lexer.isspace c)) l).
  { intros l. rewrite List.filter_app.
    replace (List.filter _ spaces) with (@nil ascii); [reflexivity|].
    symmetry. clear -Hspaces. induction Hspaces as [|c l Hc _ IHl]; [reflexivity|].
    cbn. now rewrite Hc. }
  assert (Hnul : Forall (fun c => c <> zero) spaces).
  { eapply Forall_impl; [exact Hspaces|]. intros c. apply space_is_not_nul. }
  cbn [collect_tokens].
  destruct Hcases as [[Heof Hend] | [Hne Hcons]].
  - rewrite Heof. cbn [Lexer.type]. exists []. split; [reflexivity|].
    split; [cbn; lia|]. split; [constructor|].
    rewrite Hsplit, (before_nul_app _ _ Hnul), (before_nul_at_end lx0 Hend), app_nil_r.
    rewrite <- (app_nil_r spaces), Hfilter. reflexivity.
  - destruct (Lexer.nextToken lx) as [tok lx'] eqn:Enext.
    destruct Hcons as (Hs' & Hpos' & Hkind & Htext). cbn [fst snd] in *.
    assert (Hlen0 : length (Lexer.src lx0) = length (Lexer.src lx)) by now rewrite Hs.
    destruct (IH lx' ltac:(rewrite Hs', Hs; lia) ltac:(rewrite Hs', Hs; lia))
      as (tokens & Hrun & Hlen & Hall & Hspell).
    rewrite Hs', Hs in Hlen.
    exists (tok :: tokens).
    split; [destruct (Lexer.type tok); try contradiction; now rewrite Hrun|].
    split; [cbn [length]; lia|]. split; [constructor; assumption|].
    pose proof (token_fits_solid _ _ Hfits) as Hsolid.
    assert (Hword : drop (Lexer.pos lx0) (Lexer.src lx0)
                    = list_ascii_of_string (Lexer.text tok)
                      ++ drop (Lexer.pos lx') (Lexer.src lx')).
    { rewrite Htext, Hs'.
      rewrite <- (take_drop (Lexer.pos lx' - Lexer.pos lx0)
                    (drop (Lexer.pos lx0) (Lexer.src lx0))) at 1.
      f_equal. rewrite drop_drop. f_equal. lia. }
    rewrite Hsplit, (before_nul_app _ _ Hnul), Hfilter, Hword.
    rewrite before_nul_app
      by (eapply Forall_impl; [exact Hsolid|]; now intros c [_ Hc]).
    rewrite List.filter_app, <- Hspell. unfold spelling. cbn [map concat].
    f_equal.
    clear -Hsolid. induction Hsolid as [|c l [Hc _] _ IHl]; [reflexivity|].
    cbn. rewrite Hc. cbn. now f_equal.
Qed.

Lemma nextToken_at_end (lx : Lexer.t) :
  Lexer.peek lx = zero ->
  Lexer.nextToken lx = (Lexer.mkToken TokenType.EndOfFile EmptyString, lx).
Proof.
  intros H.
  assert (E : Lexer.skipWhitespace lx = lx).
  { unfold Lexer.skipWhitespace.
    destruct (length (Lexer.src lx)); cbn [Lexer.advance_while]; [reflexivity|].
    now rewrite H. }
  unfold Lexer.nextToken. rewrite E. cbv zeta. now rewrite H.
Qed.

(** X21.  A call of [nextToken] on a lexer whose position is within the
    source either returns [EndOfFile], and then every later call returns it
    again from the same position, or consumes at least one character: the
    position moves forward and stays within the source, which is never
    changed. *)
Theorem nextToken_advances_or_ends (lx : Lexer.t) :
  Lexer.pos lx <= length (Lexer.src lx) ->
  Lexer.src (snd (Lexer.nextToken lx)) = Lexer.src lx /\
  Lexer.pos lx <= Lexer.pos (snd (Lexer.nextToken lx)) <= length (Lexer.src lx) /\
  (Lexer.type (fst (Lexer.nextToken lx)) = TokenType.EndOfFile ->
   Lexer.peek (snd (Lexer.nextToken lx)) = zero /\
   Lexer.nextToken (snd (Lexer.nextToken lx)) = Lexer.nextToken lx) /\
  (Lexer.type (fst (Lexer.nextToken lx)) <> TokenType.EndOfFile ->
   Lexer.pos lx < Lexer.pos (snd (Lexer.nextToken lx))).
Proof.
  intros Hpos.
  destruct (nextToken_spec lx Hpos) as (Hs & Hle & _ & _ & Hcases & _).
  destruct Hcases as [[Heof Hend] | [Hne (Hs' & Hpos' & Hkind & _)]].
  - rewrite Heof. cbn [fst snd Lexer.type].
    split; [exact Hs|]. split; [exact Hle|]. split.
    + intros _. split; [exact Hend | now apply nextToken_at_end].
    + intros H. now contradiction H.
  - rewrite Hs in Hs', Hpos'.
    split; [exact Hs'|]. split; [lia|]. split; [intros H; contradiction | intros _; lia].
Qed.

Lemma nextToken_advances_or_ends_witness :
  Lexer.pos (Lexer.new (list_ascii_of_string "  x1 = 2;"))
  < Lexer.pos (snd (Lexer.nextToken (Lexer.new (list_ascii_of_string "  x1 = 2;")))).
Proof.
  destruct (nextToken_advances_or_ends (Lexer.new (list_ascii_of_string "  x1 = 2;")))
    as (_ & _ & _ & Hmove).
  - cbn. lia.
  - apply Hmove. vm_compute. discriminate.
Defined.

(** X22.  The text of the token [nextToken] returns is what its type says:
    a keyword type goes with exactly that keyword and an identifier is never
    a keyword, a number is a run of digits and an identifier a letter
    followed by letters and digits, each as long as the source allows (the
    next character does not continue it), an [Assign] is not followed by
    ["="], and an [Invalid] token carries the one character that is neither a
    space, a letter, a digit nor NUL. *)
Theorem nextToken_text_fits_its_type (lx : Lexer.t) :
  Lexer.pos lx <= length (Lexer.src lx) ->
  token_fits (fst (Lexer.nextToken lx)) (Lexer.peek (snd (Lexer.nextToken lx))).
Proof. intros Hpos. now destruct (nextToken_spec lx Hpos) as (_ & _ & _ & _ & _ & H). Qed.

Lemma nextToken_text_fits_its_type_witness :
  token_fits
    (fst (Lexer.nextToken (Lexer.new (list_ascii_of_string "letbrox = 1;"))))
    (Lexer.peek (snd (Lexer.nextToken (Lexer.new (list_ascii_of_string "letbrox = 1;"))))).
Proof.
  apply (nextToken_text_fits_its_type (Lexer.new (list_ascii_of_string "letbrox = 1;"))).
  cbn. lia.
Defined.

(** X23.  The loop of [main] that collects the tokens ends after at most
    one call of [nextToken] more than the source has characters; none of the
    tokens it keeps is an [EndOfFile], and their texts, one after another,
    are the characters of the source before its first NUL character without
    the white space: the lexer drops and invents nothing. *)
Theorem tokens_spell_the_source (source : list ascii) :
  exists tokens : list Lexer.Token,
    collect_tokens (S (length source)) (Lexer.new source) = Some tokens /\
    length tokens <= length source /\
    Forall (fun tok => Lexer.type tok <> TokenType.EndOfFile) tokens /\
    spelling tokens
    = List.filter (fun c => negb (Lexer.isspace c)) (before_nul source).
Proof.
  destruct (collect_tokens_spec (S (length source)) (Lexer.new source))
    as (tokens & Hrun & Hlen & Hall & Hspell).
  - cbn. lia.
  - cbn. lia.
  - cbn [Lexer.new Lexer.src Lexer.pos] in *. rewrite Nat.sub_0_r in Hlen.
    rewrite drop_0 in Hspell. exists tokens. repeat split; assumption.
Qed.

Local Close Scope nat_scope.
